(** * Dynamics-compressor anatomy: the signal-processing core

    A shallow embedding of the DSP code of the repository:
    - [App.applyCustomCompression] (src/App.tsx), the sample-accurate
      compressor;
    - [Waveshape.calculateEnvelope] and [Waveshape.calculateGainReduction]
      (src/waveshape/Waveshape.tsx), the per-pixel series that are drawn;
    - [Compressor.normalize], the peak normalisation at the end of
      [applyCompression] in the Compressor component;
    - [Knob] (ui/Knob.tsx), the value and the pointer of a knob;
    - [Canvas], the layers that the drawing effect of the Waveshape
      component puts on its canvas, as the list of the calls on the 2D
      context;
    - [AppState] (src/App.tsx), the state of the component and its event
      handlers, as a transition system.

    JavaScript numbers are modelled by [num]: a real number or one of the
    IEEE special values.  Rounding and overflow are not modelled (every
    operation on reals is exact, also the stores into a [Float32Array]),
    and there is a single zero, which stands for [+0]: the products that
    the code divides by are products of a positive sample rate and a time
    that is not negative. *)

From Stdlib Require Import Reals Lra Lia ZArith.
From stdpp Require Import list strings.

Open Scope R_scope.

(** ** JavaScript numbers *)

Inductive num : Type :=
| Fin (r : R)
| PInf
| NInf
| NaN.

#[global] Instance Rlt_decision (x y : R) : Decision (x < y) := Rlt_dec x y.
#[global] Instance Rle_decision (x y : R) : Decision (x <= y) := Rle_dec x y.
#[global] Instance Req_decision : EqDecision R := Req_dec_T.

Module Num.

(** Three-way case on the sign of a real. *)
Definition bySign {A : Type} (r : R) (neg zero pos : A) : A :=
  match total_order_T r 0 with
  | inleft (left _) => neg
  | inleft (right _) => zero
  | inright _ => pos
  end.

Definition neg (a : num) : num :=
  match a with
  | Fin x => Fin (- x)
  | PInf => NInf
  | NInf => PInf
  | NaN => NaN
  end.

Definition add (a b : num) : num :=
  match a, b with
  | NaN, _ | _, NaN => NaN
  | Fin x, Fin y => Fin (x + y)
  | PInf, NInf | NInf, PInf => NaN
  | PInf, _ | _, PInf => PInf
  | NInf, _ | _, NInf => NInf
  end.

Definition sub (a b : num) : num := add a (neg b).

Definition mul (a b : num) : num :=
  match a, b with
  | NaN, _ | _, NaN => NaN
  | Fin x, Fin y => Fin (x * y)
  | Fin x, PInf | PInf, Fin x => bySign x NInf NaN PInf
  | Fin x, NInf | NInf, Fin x => bySign x PInf NaN NInf
  | PInf, PInf | NInf, NInf => PInf
  | PInf, NInf | NInf, PInf => NInf
  end.

(** [a / b].  A finite number over zero is an infinity of the sign of the
    numerator (the zero is [+0]), and [0 / 0] is [NaN]. *)
Definition div (a b : num) : num :=
  match a, b with
  | NaN, _ | _, NaN => NaN
  | Fin x, Fin y =>
      if decide (y = 0) then bySign x NInf NaN PInf else Fin (x / y)
  | Fin _, (PInf | NInf) => Fin 0
  | PInf, Fin y => bySign y NInf PInf PInf
  | NInf, Fin y => bySign y PInf NInf NInf
  | (PInf | NInf), (PInf | NInf) => NaN
  end.

(** [Math.abs] *)
Definition abs (a : num) : num :=
  match a with
  | Fin x => Fin (Rabs x)
  | PInf | NInf => PInf
  | NaN => NaN
  end.

(** [a > b]; every comparison with [NaN] is false. *)
Definition gt (a b : num) : bool :=
  match a, b with
  | NaN, _ | _, NaN => false
  | Fin x, Fin y => bool_decide (y < x)
  | PInf, (Fin _ | NInf) => true
  | Fin _, NInf => true
  | _, _ => false
  end.

(** [a <= b] *)
Definition le (a b : num) : bool :=
  match a, b with
  | NaN, _ | _, NaN => false
  | Fin x, Fin y => bool_decide (x <= y)
  | NInf, _ | _, PInf => true
  | _, _ => false
  end.

(** [Math.max(a, b)] and [Math.min(a, b)]: [NaN] if either argument is. *)
Definition max (a b : num) : num :=
  match a, b with
  | NaN, _ | _, NaN => NaN
  | _, _ => if gt a b then a else b
  end.

Definition min (a b : num) : num :=
  match a, b with
  | NaN, _ | _, NaN => NaN
  | _, _ => if gt a b then b else a
  end.

(** [Math.exp] *)
Definition exp (a : num) : num :=
  match a with
  | Fin x => Fin (Rtrigo_def.exp x)
  | PInf => PInf
  | NInf => Fin 0
  | NaN => NaN
  end.

(** [Math.log10] *)
Definition log10 (a : num) : num :=
  match a with
  | Fin x => bySign x NaN NInf (Fin (ln x / ln 10))
  | PInf => PInf
  | NInf | NaN => NaN
  end.

(** [Math.pow(10, a)] *)
Definition pow10 (a : num) : num :=
  match a with
  | Fin x => Fin (Rpower 10 x)
  | PInf => PInf
  | NInf => Fin 0
  | NaN => NaN
  end.

(** A number that is neither an infinity nor [NaN]. *)
Definition finite (a : num) : Prop := exists r, a = Fin r.

End Num.

Declare Scope num_scope.
Delimit Scope num_scope with num.
Bind Scope num_scope with num.
Infix "+" := Num.add : num_scope.
Infix "-" := Num.sub : num_scope.
Infix "*" := Num.mul : num_scope.
Infix "/" := Num.div : num_scope.
Notation "- a" := (Num.neg a) : num_scope.
Infix ">?" := Num.gt (at level 70, no associativity) : num_scope.
Infix "<=?" := Num.le (at level 70, no associativity) : num_scope.

(** ** Loops and typed arrays *)

(** [for (let i = lo; i < hi; i++) s = body(i, s)] *)
Definition for_range {S : Type} (lo hi : nat) (body : nat -> S -> S) (s : S) : S :=
  fold_left (fun s i => body i s) (seq lo (hi - lo)) s.

(** The state after the first [k] rounds of a loop that starts at 0. *)
Fixpoint run {S : Type} (next : nat -> S -> S) (k : nat) (s : S) : S :=
  match k with
  | O => s
  | Datatypes.S k' => next k' (run next k' s)
  end.

(** [for (let x = x0; x < limit; x += step) s = body(x, s)], a loop over
    numbers: [None] when the fuel runs out before the loop ends. *)
Fixpoint for_lt {S : Type} (fuel : nat) (x limit step : num)
    (body : num -> S -> S) (s : S) : option S :=
  match fuel with
  | O => None
  | Datatypes.S fuel' =>
      if Num.gt limit x
      then for_lt fuel' (Num.add x step) limit step body (body x s)
      else Some s
  end.

(** A [Float32Array]: [new Float32Array(n)] is zero-filled; a read
    outside the array gives [undefined], which the arithmetic and the
    comparisons of the code turn into [NaN]; a write [a[i] = v] inside the
    array replaces one cell (the narrowing of the stored number to single
    precision is not modelled). *)
Abbreviation Float32Array := (list num).

Definition newFloat32Array (n : nat) : Float32Array := replicate n (Fin 0).

Definition get (a : Float32Array) (i : nat) : num := default NaN (a !! i).

Definition set (a : Float32Array) (i : nat) (v : num) : Float32Array := <[i := v]> a.

(** A read at an index that may be negative. *)
Definition getZ (a : Float32Array) (z : Z) : num :=
  if (z <? 0)%Z then NaN else get a (Z.to_nat z).

(** [Math.ceil(n / d)] for array lengths; it is only used where [d > 0]. *)
Definition ceilDiv (n d : nat) : nat := ((n + d - 1) / d)%nat.

(** An [AudioBuffer]: [channelData] holds [numberOfChannels] arrays of
    [length] samples each. *)
Record AudioBuffer : Type := {
  sampleRate : num;
  bufLength : nat;
  channelData : list Float32Array
}.

Definition numberOfChannels (b : AudioBuffer) : nat := length (channelData b).

Definition getChannelData (b : AudioBuffer) (ch : nat) : Float32Array :=
  default [] (channelData b !! ch).

(** [ctx.createBuffer(numChannels, length, sampleRate)]: silence. *)
Definition createBuffer (numChannels len : nat) (rate : num) : AudioBuffer :=
  {| sampleRate := rate;
     bufLength := len;
     channelData := replicate numChannels (newFloat32Array len) |}.

(** The shape every decoded or rendered buffer has. *)
Definition wellFormed (b : AudioBuffer) : Prop :=
  Forall (fun c => length c = bufLength b) (channelData b).

Record ICompressorParams : Type := {
  threshold : num;
  knee : num;
  ratio : num;
  attack : num;
  release : num
}.

(** ** src/App.tsx: the custom compressor, without makeup gain *)

Module App.

Open Scope num_scope.

Definition DEFAULT_PARAMS : ICompressorParams :=
  {| threshold := Fin 0; knee := Fin 0; ratio := Fin 1;
     attack := Fin 0.003; release := Fin 0.01 |}.

(** [Math.exp(-1 / (sampleRate * t))], lines 233 and 234. *)
Definition timeCoeff (rate t : num) : num :=
  Num.exp (Fin (-1) / (rate * t)).

(** Lines 236 and 237. *)
Definition kneeStart (p : ICompressorParams) : num := threshold p - knee p / Fin 2.
Definition kneeEnd (p : ICompressorParams) : num := threshold p + knee p / Fin 2.

(** Lines 249 to 253: one step of the envelope follower. *)
Definition follow (attackCoeff releaseCoeff envFollower absSample : num) : num :=
  if absSample >? envFollower
  then absSample + (envFollower - absSample) * attackCoeff
  else absSample + (envFollower - absSample) * releaseCoeff.

(** Line 255. *)
Definition toDb (envFollower : num) : num :=
  if envFollower >? Fin 0 then Fin 20 * Num.log10 envFollower else Fin (-100).

(** Lines 257 to 265: the gain-reduction curve. *)
Definition gainReductionDb (p : ICompressorParams) (kneeStart kneeEnd envDb : num) : num :=
  if envDb >? kneeEnd then
    (envDb - threshold p) * (Fin 1 - Fin 1 / ratio p)
  else if (envDb >? kneeStart) && (knee p >? Fin 0) then
    let kneeRange := kneeEnd - kneeStart in
    let x := envDb - kneeStart in
    ((Fin 1 - Fin 1 / ratio p) * (x * x)) / (Fin 2 * kneeRange)
  else Fin 0.

(** The body of the loop over the samples of a channel, on the pair of
    [envFollower] and the output array. *)
Definition sampleStep (p : ICompressorParams)
    (attackCoeff releaseCoeff kneeStart kneeEnd : num)
    (input : Float32Array) (i : nat) (st : num * Float32Array) : num * Float32Array :=
  let '(envFollower, output) := st in
  let sample := get input i in
  let absSample := Num.abs sample in
  let envFollower := follow attackCoeff releaseCoeff envFollower absSample in
  let envDb := toDb envFollower in
  let gainReductionDb := gainReductionDb p kneeStart kneeEnd envDb in
  let gainLin := Num.pow10 (- gainReductionDb / Fin 20) in
  (envFollower, set output i (sample * gainLin)).

(** The body of the loop over the channels, on the channels of
    [outputBuffer]. *)
Definition channelStep (p : ICompressorParams)
    (attackCoeff releaseCoeff kneeStart kneeEnd : num)
    (buffer : AudioBuffer) (ch : nat) (out : list Float32Array) : list Float32Array :=
  let input := getChannelData buffer ch in
  let output := default [] (out !! ch) in
  let envFollower := Fin 0 in
  <[ch := snd (for_range 0 (bufLength buffer)
                 (sampleStep p attackCoeff releaseCoeff kneeStart kneeEnd input)
                 (envFollower, output))]> out.

Definition applyCustomCompression (p : ICompressorParams) (buffer : AudioBuffer) : AudioBuffer :=
  let rate := sampleRate buffer in
  let numChannels := numberOfChannels buffer in
  let len := bufLength buffer in
  let outputBuffer := createBuffer numChannels len rate in
  let attackCoeff := timeCoeff rate (attack p) in
  let releaseCoeff := timeCoeff rate (release p) in
  let kneeStart := kneeStart p in
  let kneeEnd := kneeEnd p in
  {| sampleRate := sampleRate outputBuffer;
     bufLength := bufLength outputBuffer;
     channelData :=
       for_range 0 numChannels
         (channelStep p attackCoeff releaseCoeff kneeStart kneeEnd buffer)
         (channelData outputBuffer) |}.

End App.

(** ** src/waveshape/Waveshape.tsx: the series that are drawn *)

Module Waveshape.

Open Scope num_scope.

(** [Math.max(t, 0.00001)]: protection against zero values. *)
Definition safe (t : num) : num := Num.max t (Fin 0.00001).

(** Lines 94 to 101: the peak of the samples [startIdx <= j < endIdx]. *)
Definition segmentPeak (data : Float32Array) (startIdx endIdx : nat) : num :=
  for_range startIdx endIdx
    (fun j peak =>
       let absVal := Num.abs (get data j) in
       if absVal >? peak then absVal else peak)
    (Fin 0).

(** Lines 105 to 109: a single smoothing step per aggregated peak. *)
Definition smooth (attackCoeff releaseCoeff envValue peak : num) : num :=
  if peak >? envValue
  then envValue + (peak - envValue) * (Fin 1 - attackCoeff)
  else envValue + (peak - envValue) * (Fin 1 - releaseCoeff).

(** The body of the loop over the output positions, on the pair of
    [envValue] and the [envelope] array. *)
Definition envelopeStep (data : Float32Array) (step : nat)
    (attackCoeff releaseCoeff : num) (i : nat) (st : num * Float32Array)
  : num * Float32Array :=
  let '(envValue, envelope) := st in
  let startIdx := (i * step)%nat in
  let endIdx := Nat.min (startIdx + step) (length data) in
  let peak := segmentPeak data startIdx endIdx in
  let envValue := smooth attackCoeff releaseCoeff envValue peak in
  (envValue, set envelope i (Num.min envValue (Fin 1))).

Definition calculateEnvelope (data : Float32Array)
    (rate attack release : num) (outputLength : nat) : Float32Array :=
  let envelope := newFloat32Array outputLength in
  let step := ceilDiv (length data) outputLength in
  let safeAttack := safe attack in
  let safeRelease := safe release in
  let attackCoeff := Num.exp (Fin (-1) / (rate * safeAttack)) in
  let releaseCoeff := Num.exp (Fin (-1) / (rate * safeRelease)) in
  let envValue := Fin 0 in
  snd (for_range 0 outputLength
         (envelopeStep data step attackCoeff releaseCoeff)
         (envValue, envelope)).

(** Line 157. *)
Definition toDb (envValue : num) : num :=
  if envValue >? Fin 0 then Fin 20 * Num.log10 envValue else Fin (-100).

(** Lines 160 to 173: the instantaneous gain reduction. *)
Definition gr (thresholdDb kneeDb ratio inputDb : num) : num :=
  let kneeStart := thresholdDb - kneeDb / Fin 2 in
  let kneeEnd := thresholdDb + kneeDb / Fin 2 in
  let kneeRange := kneeEnd - kneeStart in
  if inputDb >? kneeEnd then
    (inputDb - thresholdDb) * (Fin 1 - Fin 1 / ratio)
  else if (inputDb >? kneeStart) && (kneeDb >? Fin 0) && (kneeRange >? Fin 0) then
    let x := inputDb - kneeStart in
    ((Fin 1 - Fin 1 / ratio) * (x * x)) / (Fin 2 * kneeRange)
  else Fin 0.

(** Lines 177 to 181: attack/release smoothing of the gain reduction. *)
Definition smoothGr (attackCoeff releaseCoeff grSmoothed gr : num) : num :=
  if gr >? grSmoothed
  then gr + (grSmoothed - gr) * attackCoeff
  else gr + (grSmoothed - gr) * releaseCoeff.

(** The body of the loop over the output positions, on the pair of
    [grSmoothed] and the [gainReduction] array. *)
Definition gainReductionStep (envelope : Float32Array) (step : nat)
    (thresholdDb kneeDb ratio attackCoeff releaseCoeff : num)
    (i : nat) (st : num * Float32Array) : num * Float32Array :=
  let '(grSmoothed, gainReduction) := st in
  let envIdx := Z.min (Z.of_nat (i * step)) (Z.of_nat (length envelope) - 1) in
  let envValue := getZ envelope envIdx in
  let inputDb := toDb envValue in
  let gr := gr thresholdDb kneeDb ratio inputDb in
  let grSmoothed := smoothGr attackCoeff releaseCoeff grSmoothed gr in
  (grSmoothed, set gainReduction i grSmoothed).

Definition calculateGainReduction (envelope : Float32Array)
    (rate thresholdDb kneeDb ratio attack release : num) (outputLength : nat)
  : Float32Array :=
  let gainReduction := newFloat32Array outputLength in
  if ratio <=? Fin 1 then gainReduction
  else
    let step :=
      let c := ceilDiv (length envelope) outputLength in
      if Nat.eqb c 0 then 1%nat else c in
    let safeAttack := safe attack in
    let safeRelease := safe release in
    let grAttackTime := safeAttack * Fin 0.001 in
    let grReleaseTime := safeRelease * Fin 0.001 in
    let attackCoeff := Num.exp (Fin (-1) / (rate * grAttackTime)) in
    let releaseCoeff := Num.exp (Fin (-1) / (rate * grReleaseTime)) in
    let grSmoothed := Fin 0 in
    snd (for_range 0 outputLength
           (gainReductionStep envelope step thresholdDb kneeDb ratio
              attackCoeff releaseCoeff)
           (grSmoothed, gainReduction)).

(** The two memoised series of the [Waveshape] component (lines 208 to
    242): the envelope of channel 0 of the original buffer, and the gain
    reduction derived from it; [None] is [null]. *)
Definition envelope (originalBuffer : option AudioBuffer)
    (p : ICompressorParams) (width : nat) : option Float32Array :=
  match originalBuffer with
  | None => None
  | Some b =>
      let data := getChannelData b 0 in
      Some (calculateEnvelope data (sampleRate b) (attack p) (release p) width)
  end.

Definition gainReduction (originalBuffer : option AudioBuffer)
    (p : ICompressorParams) (width : nat) : option Float32Array :=
  match envelope originalBuffer p width, originalBuffer with
  | Some env, Some b =>
      Some (calculateGainReduction env (sampleRate b) (threshold p) (knee p)
              (ratio p) (attack p) (release p) width)
  | _, _ => None
  end.

End Waveshape.

(** ** The Compressor component: peak normalisation of the rendered buffer *)

Module Compressor.

Open Scope num_scope.

(** Lines 80 to 87: the largest absolute sample over all channels. *)
Definition maxPeak (renderedBuffer : AudioBuffer) : num :=
  for_range 0 (numberOfChannels renderedBuffer)
    (fun ch maxPeak =>
       let data := getChannelData renderedBuffer ch in
       for_range 0 (length data)
         (fun i maxPeak =>
            let abs := Num.abs (get data i) in
            if abs >? maxPeak then abs else maxPeak)
         maxPeak)
    (Fin 0).

(** Lines 91 to 96: every sample of every channel times [gain], in place. *)
Definition scale (gain : num) (renderedBuffer : AudioBuffer) : AudioBuffer :=
  {| sampleRate := sampleRate renderedBuffer;
     bufLength := bufLength renderedBuffer;
     channelData :=
       for_range 0 (numberOfChannels renderedBuffer)
         (fun ch chans =>
            let data := default [] (chans !! ch) in
            <[ch := for_range 0 (length data)
                      (fun i data => set data i (get data i * gain)) data]> chans)
         (channelData renderedBuffer) |}.

(** Lines 79 to 97: normalise to prevent clipping from makeup gain. *)
Definition normalize (renderedBuffer : AudioBuffer) : AudioBuffer :=
  let maxPeak := maxPeak renderedBuffer in
  if maxPeak >? Fin 1 then
    let gain := Fin 1 / maxPeak in
    scale gain renderedBuffer
  else renderedBuffer.

End Compressor.

(** ** Closed forms

    Values that the code above takes on finite numbers, and the states of
    its loops; the lemmas below relate them to the code. *)

(** The value of both gain-reduction curves at a finite level [l], for a
    finite threshold [t], knee [k] and non-zero ratio [r]. *)
Definition curve (t k r l : R) : R :=
  if decide (t + k / 2 < l) then (l - t) * (1 - 1 / r)
  else if decide (t - k / 2 < l /\ 0 < k)
       then (1 - 1 / r) * ((l - (t - k / 2)) * (l - (t - k / 2))) / (2 * k)
       else 0.

(** The value of [toDb] at a finite level [e]. *)
Definition dB (e : R) : R :=
  if decide (0 < e) then 20 * (ln e / ln 10) else -100.

(** The value of [Math.exp(-1 / (rate * t))] at finite [rate] and [t]. *)
Definition coeff (rate t : R) : R :=
  if decide (rate * t = 0) then 0 else exp (-1 / (rate * t)).

(** A buffer of real samples at a positive sample rate, and parameters
    that are real numbers. *)
Definition finiteBuffer (b : AudioBuffer) : Prop :=
  (exists rate, sampleRate b = Fin rate /\ 0 < rate)
  /\ Forall (Forall Num.finite) (channelData b).

Definition finiteParams (p : ICompressorParams) : Prop :=
  Num.finite (threshold p) /\ Num.finite (knee p) /\ Num.finite (ratio p)
  /\ Num.finite (attack p) /\ Num.finite (release p).

(** [envFollower] after the first [n] samples of [input]. *)
Definition envFollowerAt (attackCoeff releaseCoeff : num) (input : Float32Array)
    (n : nat) : num :=
  run (fun i env => App.follow attackCoeff releaseCoeff env (Num.abs (get input i)))
    n (Fin 0).

(** [gainLin] for a value of [envFollower]. *)
Definition gainLinOf (p : ICompressorParams) (envFollower : num) : num :=
  Num.pow10
    (- App.gainReductionDb p (App.kneeStart p) (App.kneeEnd p) (App.toDb envFollower)
     / Fin 20)%num.

(** The samples of the segment of output position [i]: at most [step]
    samples from index [i * step] on, cut at the end of the data. *)
Definition segment (data : Float32Array) (step i : nat) : list num :=
  take step (drop (i * step) data).

(** The peak of a segment: the running maximum of the absolute samples,
    from 0. *)
Definition peakOf (seg : list num) : num :=
  fold_left
    (fun peak x => if (Num.abs x >? peak)%num then Num.abs x else peak)
    seg (Fin 0).

(** The update of the state [s] by a peak [x] that the code makes ... *)
Definition codeUpdate (c s x : num) : num := (s + (x - s) * (Fin 1 - c))%num.

(** ... and the update [s' = x + (s - x) * (1 - coeff)] of the
    specification. *)
Definition specUpdate (c s x : num) : num := (x + (s - x) * (Fin 1 - c))%num.

(** The state after [n] segments, for an update rule: the attack
    coefficient is used when the peak is above the state, the release
    coefficient otherwise. *)
Fixpoint segmentState (update : num -> num -> num -> num)
    (attackCoeff releaseCoeff : num) (peaks : nat -> num) (n : nat) : num :=
  match n with
  | O => Fin 0
  | S m =>
      let s := segmentState update attackCoeff releaseCoeff peaks m in
      let x := peaks m in
      update (if (x >? s)%num then attackCoeff else releaseCoeff) s x
  end.

(** The envelope series in segment-peak mode, for an update rule. *)
Definition segmentEnvelope (update : num -> num -> num -> num)
    (data : Float32Array) (rate attack release : num) (outputLength : nat)
  : list num :=
  let step := ceilDiv (length data) outputLength in
  let attackCoeff := Num.exp (Fin (-1) / (rate * Num.max attack (Fin 0.00001)))%num in
  let releaseCoeff := Num.exp (Fin (-1) / (rate * Num.max release (Fin 0.00001)))%num in
  map (fun i =>
         Num.min
           (segmentState update attackCoeff releaseCoeff
              (fun j => peakOf (segment data step j)) (S i))
           (Fin 1))
    (seq 0 outputLength).

(** Every sample of every channel through [f]. *)
Definition mapSamples (f : num -> num) (b : AudioBuffer) : AudioBuffer :=
  {| sampleRate := sampleRate b;
     bufLength := bufLength b;
     channelData := map (map f) (channelData b) |}.

(** [NaN], or a real of magnitude at most [m]. *)
Definition within (m : R) (x : num) : Prop :=
  x = NaN \/ exists r, x = Fin r /\ Rabs r <= m.

(** ** Concrete inputs *)

(** One channel holding one full-scale sample, at 44100 Hz. *)
Definition unitImpulse : AudioBuffer :=
  {| sampleRate := Fin 44100; bufLength := 1; channelData := [[Fin 1]] |}.

(** One channel holding two samples, at 44100 Hz. *)
Definition twoSamples : AudioBuffer :=
  {| sampleRate := Fin 44100; bufLength := 2;
     channelData := [[Fin 0.5; Fin (-1)]] |}.

(** A rendered buffer that clips: two channels, peak 2. *)
Definition clipping : AudioBuffer :=
  {| sampleRate := Fin 44100; bufLength := 2;
     channelData := [[Fin 0.5; Fin (-2)]; [Fin 1; Fin 0]] |}.

(** Threshold -20 dB, soft knee of 10 dB, ratio 4, default attack and
    release. *)
Definition softKnee : ICompressorParams :=
  {| threshold := Fin (-20); knee := Fin 10; ratio := Fin 4;
     attack := Fin 0.003; release := Fin 0.01 |}.

(** Threshold -20 dB, hard knee, ratio 4, and the given attack. *)
Definition hardKnee (attack : R) : ICompressorParams :=
  {| threshold := Fin (-20); knee := Fin 0; ratio := Fin 4;
     attack := Fin attack; release := Fin 0.01 |}.

(** ** The knob (ui/Knob.tsx) *)

(** [Math.round]: the nearest integer, halves going up. *)
Definition mathRound (a : num) : num :=
  match a with
  | Fin x => Fin (IZR (Zfloor (x + / 2)))
  | PInf => PInf
  | NInf => NInf
  | NaN => NaN
  end.

(** [a < b], which is [b > a], also on [NaN]. *)
Notation "a <? b" := (Num.gt b a) (at level 70, no associativity) : num_scope.

Module Knob.

Open Scope num_scope.

(** Line 130: the angle of the pointer, in degrees. *)
Definition rotation (value min max : num) : num :=
  (value - min) / (max - min) * Fin 270 - Fin 135.

(** Lines 139 to 148: the value that a mouse move at height [clientY]
    passes to [onChange], in a drag that started at height [startY] on the
    value [startValue]. *)
Definition handleMouseMove (min max step startY startValue clientY : num) : num :=
  let delta := startY - clientY in
  let range := max - min in
  let sensitivity := range / Fin 150 in
  let newValue := startValue + delta * sensitivity in
  let newValue := Num.max min (Num.min max newValue) in
  let newValue := mathRound (newValue / step) * step in
  newValue.

End Knob.

(** ** src/waveshape/Waveshape.tsx: colours and the canvas *)

(** The numbers that [getEnvelopeColor] writes into its
    [rgba(r, g, b, alpha)] string; the printing of the numbers is not
    modelled. *)
Record rgba : Type := {
  red : num;
  green : num;
  blue : num;
  alpha : num
}.

(** A colour: a constant CSS string, or a computed [rgba(...)] string. *)
Inductive color : Type :=
| Css (s : string)
| Rgba (c : rgba).

(** What is assigned to [strokeStyle] and [fillStyle]: a colour, or a
    linear gradient with its colour stops. *)
Inductive paint : Type :=
| Solid (c : color)
| LinearGradient (x0 y0 x1 y1 : num) (stops : list (num * color)).

Coercion Solid : color >-> paint.

(** The calls on the 2D context, in the order they are made. *)
Inductive cmd : Type :=
| BeginPath
| MoveTo (x y : num)
| LineTo (x y : num)
| ClosePath
| Stroke
| Fill
| SetStrokeStyle (p : paint)
| SetFillStyle (p : paint)
| SetLineWidth (w : num)
| SetLineDash (segments : list num)
| FillRect (x y w h : num)
| Rect (x y w h : num)
| Clip
| Save
| Restore.

Module Canvas.

Open Scope num_scope.

Definition SCALE_WIDTH : num := Fin 50.
Definition MAX_GAIN_REDUCTION_DB : num := Fin 24.

(** Lines 29 to 69. *)
Definition getEnvelopeColor
    (envValue thresholdAmp kneeStartAmp kneeEndAmp ratioInfluence : num) : rgba :=
  let '(baseAlpha, saturation) :=
    if envValue <? kneeStartAmp then
      (Fin 0.35, Fin 0)
    else if envValue <? thresholdAmp then
      let t := (envValue - kneeStartAmp) / (thresholdAmp - kneeStartAmp) in
      (Fin 0.35 + t * Fin 0.15, t * Fin 0.3)
    else if envValue <? kneeEndAmp then
      let t := (envValue - thresholdAmp) / (kneeEndAmp - thresholdAmp) in
      (Fin 0.5 + t * Fin 0.2, Fin 0.3 + t * Fin 0.4)
    else
      (Fin 0.7, Fin 0.7) in
  let ratioBoost :=
    if envValue >? thresholdAmp then ratioInfluence * Fin 0.3 else Fin 0 in
  let finalAlpha := Num.min (baseAlpha + ratioBoost) (Fin 0.85) in
  let finalSaturation := Num.min (saturation + ratioBoost) (Fin 1) in
  let r := mathRound (Fin 80 + finalSaturation * Fin 50) in
  let g := mathRound (Fin 200 + finalSaturation * Fin 55) in
  let b := mathRound (Fin 80 + finalSaturation * Fin 50) in
  {| red := r; green := g; blue := b; alpha := finalAlpha |}.

(** Line 474. *)
Definition ratioInfluence (ratio : num) : num :=
  if ratio <=? Fin 1 then Fin 0 else Num.min ((ratio - Fin 1) / Fin 19) (Fin 1).

(** Lines 449 to 456: the smallest and the largest sample of column [i],
    from 1.0 and -1.0. *)
Definition columnMinMax (data : Float32Array) (step i : nat) : num * num :=
  for_range 0 step
    (fun j (mm : num * num) =>
       let '(min, max) := mm in
       let datum := get data (i * step + j) in
       let min := if datum <? min then datum else min in
       let max := if datum >? max then datum else max in
       (min, max))
    (Fin 1, Fin (-1)).

(** Line 205. *)
Definition totalWidth (width : nat) : num := Fin (INR width) + SCALE_WIDTH.

(** Lines 331 to 337: a higher ratio makes the knee more visible. *)
Definition getIntensityFromRatio (r : num) : num :=
  if r <=? Fin 1 then Fin 0.15
  else if r <=? Fin 2 then Fin 0.25
  else if r <=? Fin 4 then Fin 0.35
  else if r <=? Fin 10 then Fin 0.45
  else Fin 0.55.

(** [rgba(255, 159, 67, a)] *)
Definition orange (a : num) : color :=
  Rgba {| red := Fin 255; green := Fin 159; blue := Fin 67; alpha := a |}.

(** Lines 321 to 436: draw the knee zone, above the threshold only, and
    its hatching, whose slope depends on the ratio. *)
Definition drawKneeZone (fuel : nat) (showThresholdKnee : bool)
    (thresholdDb kneeDb ratio : num) (width : nat) (amp : num)
    (ctx : list cmd) : option (list cmd) :=
  if showThresholdKnee && (thresholdDb <? Fin 0) && (kneeDb >? Fin 0) then
    let waveAreaX := SCALE_WIDTH in
    let totalWidth := totalWidth width in
    let width := Fin (INR width) in
    let thresholdAmp := Num.pow10 (thresholdDb / Fin 20) in
    let kneeEndDb := Num.min (thresholdDb + kneeDb) (Fin 0) in
    let kneeEndAmp := Num.pow10 (kneeEndDb / Fin 20) in
    let upperThresholdY := amp - thresholdAmp * amp in
    let upperKneeTopY := amp - kneeEndAmp * amp in
    let maxAlpha := getIntensityFromRatio ratio in
    let upperGradient :=
      LinearGradient (Fin 0) upperThresholdY (Fin 0) upperKneeTopY
        [(Fin 0, orange maxAlpha);
         (Fin 0.7, orange (maxAlpha * Fin 0.5));
         (Fin 1, Css "rgba(255, 159, 67, 0.05)")] in
    let ctx :=
      ctx ++ [SetFillStyle upperGradient;
              FillRect waveAreaX upperKneeTopY width
                (upperThresholdY - upperKneeTopY)] in
    let lowerThresholdY := amp + thresholdAmp * amp in
    let lowerKneeBottomY := amp + kneeEndAmp * amp in
    let lowerGradient :=
      LinearGradient (Fin 0) lowerThresholdY (Fin 0) lowerKneeBottomY
        [(Fin 0, orange maxAlpha);
         (Fin 0.7, orange (maxAlpha * Fin 0.5));
         (Fin 1, Css "rgba(255, 159, 67, 0.05)")] in
    let ctx :=
      ctx ++ [SetFillStyle lowerGradient;
              FillRect waveAreaX lowerThresholdY width
                (lowerKneeBottomY - lowerThresholdY)] in
    if Fin 1 <=? ratio then
      let lineSpacing := Fin 20 in
      let upperKneeHeight := upperThresholdY - upperKneeTopY in
      let upperHorizontalOffset := upperKneeHeight * (Fin 1 - Fin 1 / ratio) in
      let ctx :=
        ctx ++ [Save; BeginPath;
                Rect waveAreaX upperKneeTopY width upperKneeHeight; Clip;
                SetStrokeStyle (Css "rgba(255, 159, 67, 0.35)");
                SetLineWidth (Fin 1); SetLineDash []] in
      match
        for_lt fuel (waveAreaX - upperHorizontalOffset)
          (totalWidth + upperHorizontalOffset) lineSpacing
          (fun x ctx =>
             ctx ++ [BeginPath; MoveTo x upperThresholdY;
                     LineTo (x + upperHorizontalOffset) upperKneeTopY; Stroke])
          ctx
      with
      | None => None
      | Some ctx =>
          let ctx := ctx ++ [Restore] in
          let lowerKneeHeight := lowerKneeBottomY - lowerThresholdY in
          let lowerHorizontalOffset :=
            lowerKneeHeight * (Fin 1 - Fin 1 / ratio) in
          let ctx :=
            ctx ++ [Save; BeginPath;
                    Rect waveAreaX lowerThresholdY width lowerKneeHeight; Clip;
                    SetStrokeStyle (Css "rgba(255, 159, 67, 0.35)");
                    SetLineWidth (Fin 1)] in
          match
            for_lt fuel (waveAreaX - lowerHorizontalOffset)
              (totalWidth + lowerHorizontalOffset) lineSpacing
              (fun x ctx =>
                 ctx ++ [BeginPath; MoveTo x lowerThresholdY;
                         LineTo (x + lowerHorizontalOffset) lowerKneeBottomY;
                         Stroke])
              ctx
          with
          | None => None
          | Some ctx => Some (ctx ++ [Restore])
          end
      end
    else Some ctx
  else Some ctx.

(** Lines 438 to 463: draw the waveform. *)
Definition drawWaveform (showWaveform : bool) (audioBuffer : option AudioBuffer)
    (width : nat) (amp : num) (ctx : list cmd) : list cmd :=
  match showWaveform, audioBuffer with
  | true, Some buffer =>
      let waveAreaX := SCALE_WIDTH in
      let data := getChannelData buffer 0 in
      let step := ceilDiv (length data) width in
      let ctx :=
        ctx ++ [BeginPath; MoveTo waveAreaX amp;
                SetStrokeStyle (Css "rgba(0, 217, 255, 0.8)");
                SetLineWidth (Fin 1)] in
      let ctx :=
        for_range 0 width
          (fun i ctx =>
             let '(min, max) := columnMinMax data step i in
             ctx ++ [LineTo (waveAreaX + Fin (INR i)) ((Fin 1 + min) * amp);
                     LineTo (waveAreaX + Fin (INR i)) ((Fin 1 + max) * amp)])
          ctx in
      ctx ++ [Stroke]
  | _, _ => ctx
  end.

(** Lines 465 to 505: draw the envelope, segment by segment. *)
Definition drawEnvelope (showEnvelope : bool) (envelope : option Float32Array)
    (originalBuffer : option AudioBuffer) (thresholdDb kneeDb ratio : num)
    (width : nat) (amp : num) (ctx : list cmd) : list cmd :=
  match showEnvelope, envelope, originalBuffer with
  | true, Some envelope, Some _ =>
      let waveAreaX := SCALE_WIDTH in
      let thresholdAmp :=
        if thresholdDb <? Fin 0 then Num.pow10 (thresholdDb / Fin 20) else Fin 1 in
      let kneeStartDb := thresholdDb - kneeDb / Fin 2 in
      let kneeEndDb := Num.min (thresholdDb + kneeDb / Fin 2) (Fin 0) in
      let kneeStartAmp := Num.pow10 (kneeStartDb / Fin 20) in
      let kneeEndAmp := Num.pow10 (kneeEndDb / Fin 20) in
      let ratioInfluence := ratioInfluence ratio in
      for_range 0 (width - 1)
        (fun i ctx =>
           let envValue := get envelope i in
           let nextEnvValue := get envelope (i + 1) in
           let color :=
             getEnvelopeColor envValue thresholdAmp kneeStartAmp kneeEndAmp
               ratioInfluence in
           ctx ++ [BeginPath;
                   MoveTo (waveAreaX + Fin (INR i)) (amp - envValue * amp);
                   LineTo (waveAreaX + Fin (INR i) + Fin 1)
                     (amp - nextEnvValue * amp);
                   SetStrokeStyle (Rgba color);
                   SetLineWidth (Fin 2);
                   Stroke;
                   BeginPath;
                   MoveTo (waveAreaX + Fin (INR i)) (amp + envValue * amp);
                   LineTo (waveAreaX + Fin (INR i) + Fin 1)
                     (amp + nextEnvValue * amp);
                   SetStrokeStyle (Rgba color);
                   SetLineWidth (Fin 2);
                   Stroke])
        ctx
  | _, _, _ => ctx
  end.

(** Lines 507 to 541: draw the gain reduction, from 0 dB downward. *)
Definition drawGainReduction (showGainReduction : bool)
    (gainReduction : option Float32Array) (ratio : num)
    (width : nat) (amp : num) (ctx : list cmd) : list cmd :=
  match showGainReduction, gainReduction, ratio >? Fin 1 with
  | true, Some gainReduction, true =>
      let waveAreaX := SCALE_WIDTH in
      let ctx := ctx ++ [BeginPath; MoveTo waveAreaX (Fin 0)] in
      let ctx :=
        for_range 0 width
          (fun i ctx =>
             let gr := get gainReduction i in
             let grY := Num.min (gr / MAX_GAIN_REDUCTION_DB * amp) amp in
             ctx ++ [LineTo (waveAreaX + Fin (INR i)) grY])
          ctx in
      let ctx := ctx ++ [LineTo (waveAreaX + Fin (INR width)) (Fin 0); ClosePath] in
      let grGradient :=
        LinearGradient (Fin 0) (Fin 0) (Fin 0) amp
          [(Fin 0, Css "rgba(255, 80, 80, 0.1)");
           (Fin 1, Css "rgba(255, 50, 50, 0.4)")] in
      let ctx := ctx ++ [SetFillStyle grGradient; Fill] in
      let ctx :=
        ctx ++ [BeginPath;
                MoveTo waveAreaX
                  (get gainReduction 0 / MAX_GAIN_REDUCTION_DB * amp)] in
      let ctx :=
        for_range 1 width
          (fun i ctx =>
             let gr := get gainReduction i in
             let grY := Num.min (gr / MAX_GAIN_REDUCTION_DB * amp) amp in
             ctx ++ [LineTo (waveAreaX + Fin (INR i)) grY])
          ctx in
      ctx ++ [SetStrokeStyle (Css "rgba(255, 80, 80, 0.7)");
              SetLineWidth (Fin 2); Stroke]
  | _, _, _ => ctx
  end.

(** Lines 543 to 564: draw the threshold line, on top. *)
Definition drawThreshold (showThresholdKnee : bool) (thresholdDb : num)
    (width : nat) (amp : num) (ctx : list cmd) : list cmd :=
  if showThresholdKnee && (thresholdDb <? Fin 0) then
    let waveAreaX := SCALE_WIDTH in
    let totalWidth := totalWidth width in
    let thresholdAmp := Num.pow10 (thresholdDb / Fin 20) in
    let upperY := amp - thresholdAmp * amp in
    let lowerY := amp + thresholdAmp * amp in
    ctx ++ [SetStrokeStyle (Css "#ff9f43"); SetLineWidth (Fin 2);
            SetLineDash [Fin 8; Fin 4];
            BeginPath; MoveTo waveAreaX upperY; LineTo totalWidth upperY; Stroke;
            BeginPath; MoveTo waveAreaX lowerY; LineTo totalWidth lowerY; Stroke;
            SetLineDash []]
  else ctx.

(** Lines 321 to 564 of the drawing effect: the layers in the order they
    are drawn, from the props of the component and its two memoised
    series. *)
Definition drawLayers (fuel : nat) (audioBuffer originalBuffer : option AudioBuffer)
    (p : ICompressorParams)
    (showWaveform showEnvelope showGainReduction showThresholdKnee : bool)
    (width : nat) (amp : num) (ctx : list cmd) : option (list cmd) :=
  let envelope := Waveshape.envelope originalBuffer p width in
  let gainReduction := Waveshape.gainReduction originalBuffer p width in
  match
    drawKneeZone fuel showThresholdKnee (threshold p) (knee p) (ratio p)
      width amp ctx
  with
  | None => None
  | Some ctx =>
      let ctx := drawWaveform showWaveform audioBuffer width amp ctx in
      let ctx :=
        drawEnvelope showEnvelope envelope originalBuffer (threshold p) (knee p)
          (ratio p) width amp ctx in
      let ctx :=
        drawGainReduction showGainReduction gainReduction (ratio p) width amp
          ctx in
      Some (drawThreshold showThresholdKnee (threshold p) width amp ctx)
  end.

End Canvas.

(** A point of a path inside a rectangle, and a line end inside one. *)
Definition pointIn (xmin xmax ymin ymax : R) (c : cmd) : Prop :=
  match c with
  | MoveTo x y | LineTo x y =>
      exists a b, x = Fin a /\ y = Fin b /\ xmin <= a <= xmax /\ ymin <= b <= ymax
  | _ => True
  end.

Definition lineEndIn (xmin xmax ymin ymax : R) (c : cmd) : Prop :=
  match c with
  | LineTo x y =>
      exists a b, x = Fin a /\ y = Fin b /\ xmin <= a <= xmax /\ ymin <= b <= ymax
  | _ => True
  end.

(** A rectangle inside a rectangle, of a width and a height that are not
    negative. *)
Definition rectIn (xmin xmax ymin ymax : R) (c : cmd) : Prop :=
  match c with
  | FillRect x y w h | Rect x y w h =>
      exists a b c d,
        x = Fin a /\ y = Fin b /\ w = Fin c /\ h = Fin d
        /\ xmin <= a /\ 0 <= c /\ a + c <= xmax
        /\ ymin <= b /\ 0 <= d /\ b + d <= ymax
  | _ => True
  end.

(** A line end between two heights. *)
Definition lineEndBetween (ymin ymax : R) (c : cmd) : Prop :=
  match c with
  | LineTo x y => exists b, y = Fin b /\ ymin <= b <= ymax
  | _ => True
  end.

(** A point of a path at a height of at least [ymin]. *)
Definition heightFrom (ymin : R) (c : cmd) : Prop :=
  match c with
  | MoveTo x y | LineTo x y => exists b, y = Fin b /\ ymin <= b
  | _ => True
  end.

(** A point of a path between two heights. *)
Definition heightIn (ymin ymax : R) (c : cmd) : Prop :=
  match c with
  | MoveTo x y | LineTo x y => exists b, y = Fin b /\ ymin <= b <= ymax
  | _ => True
  end.

(** ** src/App.tsx: the state of the component and its handlers

    The state of [App] is its [useState] cells and its refs.  A handler runs
    to completion; where it awaits the decoder or the offline renderer, what
    follows the await is a handler of its own ([decoded], [rendered]) that
    takes the result of the collaborator, so that other handlers can run in
    between.  The custom compressor has nothing to wait for: what follows
    its await runs before any other handler. *)

Module AppState.

Inductive paramKey : Type := Threshold | Knee | Ratio | Attack | Release.

Inductive layer : Type := Waveform | Envelope | GainReduction | ThresholdKnee.

Record state : Type := {
  originalBuffer : option AudioBuffer;
  audioBuffer : option AudioBuffer;
  isPlaying : bool;
  isProcessing : bool;
  params : ICompressorParams;
  paramsRef : ICompressorParams;
  makeupGain : bool;
  makeupGainRef : bool;
  (* the buffer of the source node that plays *)
  sourceRef : option AudioBuffer;
  showWaveform : bool;
  showEnvelope : bool;
  showGainReduction : bool;
  showThresholdKnee : bool
}.

(** Lines 131 to 153: the state at mount. *)
Definition initial : state :=
  {| originalBuffer := None; audioBuffer := None;
     isPlaying := false; isProcessing := false;
     params := App.DEFAULT_PARAMS; paramsRef := App.DEFAULT_PARAMS;
     makeupGain := false; makeupGainRef := false;
     sourceRef := None;
     showWaveform := true; showEnvelope := false;
     showGainReduction := true; showThresholdKnee := true |}.

Definition setBuffers (original audio : option AudioBuffer) (s : state) : state :=
  {| originalBuffer := original; audioBuffer := audio;
     isPlaying := isPlaying s; isProcessing := isProcessing s;
     params := params s; paramsRef := paramsRef s;
     makeupGain := makeupGain s; makeupGainRef := makeupGainRef s;
     sourceRef := sourceRef s;
     showWaveform := showWaveform s; showEnvelope := showEnvelope s;
     showGainReduction := showGainReduction s;
     showThresholdKnee := showThresholdKnee s |}.

Definition setPlayback (source : option AudioBuffer) (playing : bool) (s : state)
  : state :=
  {| originalBuffer := originalBuffer s; audioBuffer := audioBuffer s;
     isPlaying := playing; isProcessing := isProcessing s;
     params := params s; paramsRef := paramsRef s;
     makeupGain := makeupGain s; makeupGainRef := makeupGainRef s;
     sourceRef := source;
     showWaveform := showWaveform s; showEnvelope := showEnvelope s;
     showGainReduction := showGainReduction s;
     showThresholdKnee := showThresholdKnee s |}.

Definition setIsProcessing (b : bool) (s : state) : state :=
  {| originalBuffer := originalBuffer s; audioBuffer := audioBuffer s;
     isPlaying := isPlaying s; isProcessing := b;
     params := params s; paramsRef := paramsRef s;
     makeupGain := makeupGain s; makeupGainRef := makeupGainRef s;
     sourceRef := sourceRef s;
     showWaveform := showWaveform s; showEnvelope := showEnvelope s;
     showGainReduction := showGainReduction s;
     showThresholdKnee := showThresholdKnee s |}.

(** [paramsRef.current = p; setParams(p)] *)
Definition setParamsBoth (p : ICompressorParams) (s : state) : state :=
  {| originalBuffer := originalBuffer s; audioBuffer := audioBuffer s;
     isPlaying := isPlaying s; isProcessing := isProcessing s;
     params := p; paramsRef := p;
     makeupGain := makeupGain s; makeupGainRef := makeupGainRef s;
     sourceRef := sourceRef s;
     showWaveform := showWaveform s; showEnvelope := showEnvelope s;
     showGainReduction := showGainReduction s;
     showThresholdKnee := showThresholdKnee s |}.

(** [makeupGainRef.current = b; setMakeupGain(b)] *)
Definition setMakeupBoth (b : bool) (s : state) : state :=
  {| originalBuffer := originalBuffer s; audioBuffer := audioBuffer s;
     isPlaying := isPlaying s; isProcessing := isProcessing s;
     params := params s; paramsRef := paramsRef s;
     makeupGain := b; makeupGainRef := b;
     sourceRef := sourceRef s;
     showWaveform := showWaveform s; showEnvelope := showEnvelope s;
     showGainReduction := showGainReduction s;
     showThresholdKnee := showThresholdKnee s |}.

Definition setLayer (l : layer) (v : bool) (s : state) : state :=
  {| originalBuffer := originalBuffer s; audioBuffer := audioBuffer s;
     isPlaying := isPlaying s; isProcessing := isProcessing s;
     params := params s; paramsRef := paramsRef s;
     makeupGain := makeupGain s; makeupGainRef := makeupGainRef s;
     sourceRef := sourceRef s;
     showWaveform := match l with Waveform => v | _ => showWaveform s end;
     showEnvelope := match l with Envelope => v | _ => showEnvelope s end;
     showGainReduction :=
       match l with GainReduction => v | _ => showGainReduction s end;
     showThresholdKnee :=
       match l with ThresholdKnee => v | _ => showThresholdKnee s end |}.

(** Lines 162 to 169. *)
Definition stopPlayback (s : state) : state := setPlayback None false s.

(** Lines 171 to 181: [handleFileChange] up to its first await, for a
    file that was chosen (without a file the handler returns at once). *)
Definition fileChosen (s : state) : state :=
  setMakeupBoth false (setParamsBoth App.DEFAULT_PARAMS (stopPlayback s)).

(** Lines 184 to 186: [handleFileChange] after the buffer was decoded. *)
Definition decoded (buffer : AudioBuffer) (s : state) : state :=
  setBuffers (Some buffer) (Some buffer) s.

(** Lines 189 to 208. *)
Definition togglePlayback (s : state) : state :=
  if isPlaying s then stopPlayback s
  else
    match audioBuffer s with
    | None => s
    | Some buffer => setPlayback (Some buffer) true s
    end.

(** Lines 201 to 204: [source.onended]. *)
Definition ended (s : state) : state := setPlayback None false s.

(** Lines 210 to 214: [{ ...paramsRef.current, [key]: value }]. *)
Definition updateParam (key : paramKey) (value : num) (s : state) : state :=
  let c := paramsRef s in
  let newParams :=
    {| threshold := match key with Threshold => value | _ => threshold c end;
       knee := match key with Knee => value | _ => knee c end;
       ratio := match key with Ratio => value | _ => ratio c end;
       attack := match key with Attack => value | _ => attack c end;
       release := match key with Release => value | _ => release c end |} in
  setParamsBoth newParams s.

(** Lines 305 to 316: [applyCompression], a callback that closes over the
    [originalBuffer] of the render that made it.  With makeup gain the
    offline renderer is started and its result arrives with [rendered]. *)
Definition applyCompression (originalBuffer0 : option AudioBuffer) (s : state)
  : state :=
  match originalBuffer0 with
  | None => s
  | Some original =>
      if makeupGainRef s then setIsProcessing true s
      else
        setIsProcessing false
          (setBuffers (originalBuffer s)
             (Some (App.applyCustomCompression (paramsRef s) original)) s)
  end.

(** Lines 314 and 315, after the offline renderer returned [outputBuffer]. *)
Definition rendered (outputBuffer : AudioBuffer) (s : state) : state :=
  setIsProcessing false (setBuffers (originalBuffer s) (Some outputBuffer) s).

(** Lines 318 to 324. *)
Definition handleMakeupGainToggle (checked : bool) (s : state) : state :=
  let s := setMakeupBoth checked s in
  match originalBuffer s with
  | Some _ => applyCompression (originalBuffer s) s
  | None => s
  end.

(** Lines 326 to 330. *)
Definition resetToDefault (s : state) : state :=
  setBuffers (originalBuffer s) (originalBuffer s)
    (setParamsBoth App.DEFAULT_PARAMS s).

(** Lines 332 to 343. *)
Definition clearFile (s : state) : state :=
  setMakeupBoth false
    (setParamsBoth App.DEFAULT_PARAMS (setBuffers None None (stopPlayback s))).

(** Lines 536 to 594: the bounds and the step of the knob of each
    parameter. *)
Definition knobMin (key : paramKey) : R :=
  match key with
  | Threshold => -100
  | Knee => 0
  | Ratio => 1
  | Attack => 0
  | Release => 0
  end.

Definition knobMax (key : paramKey) : R :=
  match key with
  | Threshold => 0
  | Knee => 40
  | Ratio => 20
  | Attack => 1
  | Release => 1
  end.

Definition knobStep (key : paramKey) : R :=
  match key with
  | Threshold => 1
  | Knee => 1
  | Ratio => 0.5
  | Attack => 0.001
  | Release => 0.01
  end.

(** What the user and the collaborators can make happen.  A knob keeps the
    callbacks of the render in which its drag started: [KnobUp] carries the
    [originalBuffer] of that render. *)
Inductive event : Type :=
| FileChosen
| Decoded (buffer : AudioBuffer)
| TogglePlayback
| Ended
| KnobMove (key : paramKey) (startY startValue clientY : R)
| KnobUp (originalBuffer0 : option AudioBuffer)
| Rendered (outputBuffer : AudioBuffer)
| MakeupGainToggle (checked : bool)
| Reset
| ClearFile
| LayerToggle (l : layer) (checked : bool).

Definition handle (e : event) (s : state) : state :=
  match e with
  | FileChosen => fileChosen s
  | Decoded buffer => decoded buffer s
  | TogglePlayback => togglePlayback s
  | Ended => ended s
  | KnobMove key startY startValue clientY =>
      updateParam key
        (Knob.handleMouseMove (Fin (knobMin key)) (Fin (knobMax key))
           (Fin (knobStep key)) (Fin startY) (Fin startValue) (Fin clientY))
        s
  | KnobUp originalBuffer0 => applyCompression originalBuffer0 s
  | Rendered outputBuffer => rendered outputBuffer s
  | MakeupGainToggle checked => handleMakeupGainToggle checked s
  | Reset => resetToDefault s
  | ClearFile => clearFile s
  | LayerToggle l checked => setLayer l checked s
  end.

(** The states that a run of events reaches from the state at mount. *)
Inductive reachable : state -> Prop :=
| reachable_initial : reachable initial
| reachable_handle (e : event) (s : state) :
    reachable s -> reachable (handle e s).

(** Lines 422 to 434: the layers of the [Waveshape] that [App] renders, at
    the default width of 800 and height of 600 of the component. *)
Definition view (fuel : nat) (s : state) (ctx : list cmd) : option (list cmd) :=
  let width := 800%nat in
  let height := Fin 600 in
  let amp := (height / Fin 2)%num in
  Canvas.drawLayers fuel (audioBuffer s) (originalBuffer s) (params s)
    (showWaveform s) (showEnvelope s) (showGainReduction s)
    (showThresholdKnee s) width amp ctx.

(** The ranges of the knobs. *)
Definition inRange (p : ICompressorParams) : Prop :=
  exists t k r a rl,
    p = {| threshold := Fin t; knee := Fin k; ratio := Fin r;
           attack := Fin a; release := Fin rl |}
    /\ -100 <= t <= 0 /\ 0 <= k <= 40 /\ 1 <= r <= 20
    /\ 0 <= a <= 1 /\ 0 <= rl <= 1.

End AppState.

(** A colour that a canvas accepts as written: whole channels from 0 to
    255, here in the narrower ranges of the code, and an alpha in [0, 1]. *)
Definition validColor (c : rgba) : Prop :=
  exists (r g : Z) (a : R),
    c = {| red := Fin (IZR r); green := Fin (IZR g); blue := Fin (IZR r);
           alpha := Fin a |}
    /\ (80 <= r <= 130)%Z /\ (200 <= g <= 255)%Z /\ 0.35 <= a <= 0.85.

Definition validPaint (c : cmd) : Prop :=
  match c with
  | SetStrokeStyle (Solid (Rgba col)) | SetFillStyle (Solid (Rgba col)) =>
      validColor col
  | _ => True
  end.

(** Samples within full scale. *)
Definition fullScale (x : num) : Prop := exists v, x = Fin v /\ -1 <= v <= 1.

(** Threshold 0 dB, hard knee, ratio 4, default attack and release. *)
Definition thresholdAtFullScale : ICompressorParams :=
  {| threshold := Fin 0; knee := Fin 0; ratio := Fin 4;
     attack := Fin 0.003; release := Fin 0.01 |}.

(** * Properties *)

(** ** Arithmetic of finite numbers *)

Section NumFacts.

Lemma div_unfold (x y : R) :
  (Fin x / Fin y)%num
  = if decide (y = 0) then Num.bySign x NInf NaN PInf else Fin (x / y).
Proof. reflexivity. Qed.

Lemma bySign_neg {A : Type} (r : R) (a b c : A) : r < 0 -> Num.bySign r a b c = a.
Proof.
  intros H. unfold Num.bySign.
  destruct (total_order_T r 0) as [[?|?]|?]; [reflexivity | lra | lra].
Qed.

Lemma bySign_zero {A : Type} (a b c : A) : Num.bySign 0 a b c = b.
Proof.
  unfold Num.bySign.
  destruct (total_order_T 0 0) as [[?|?]|?]; [lra | reflexivity | lra].
Qed.

Lemma bySign_pos {A : Type} (r : R) (a b c : A) : 0 < r -> Num.bySign r a b c = c.
Proof.
  intros H. unfold Num.bySign.
  destruct (total_order_T r 0) as [[?|?]|?]; [lra | lra | reflexivity].
Qed.

Lemma div_fin (x y : R) : y <> 0 -> (Fin x / Fin y)%num = Fin (x / y).
Proof. intros H. unfold Num.div. rewrite decide_False; auto. Qed.


Lemma gt_fin_false (x y : R) : x <= y -> (Fin x >? Fin y)%num = false.
Proof. intros H. simpl. apply bool_decide_eq_false_2. lra. Qed.

Lemma le_fin_true (x y : R) : x <= y -> (Fin x <=? Fin y)%num = true.
Proof. intros H. simpl. apply bool_decide_eq_true_2, H. Qed.

Lemma le_fin_iff (x y : R) : (Fin x <=? Fin y)%num = true <-> x <= y.
Proof. simpl. apply bool_decide_eq_true. Qed.

Lemma log10_fin (x : R) : 0 < x -> Num.log10 (Fin x) = Fin (ln x / ln 10).
Proof. intros H. simpl. apply bySign_pos, H. Qed.

End NumFacts.

#[global] Arguments Num.div : simpl never.
#[global] Arguments Num.log10 : simpl never.

(** Case analysis on every comparison of finite numbers in the goal. *)
Ltac cmp_cases :=
  repeat match goal with
    | |- context [bool_decide ?P] =>
        destruct (bool_decide_reflect P)
    | |- context [decide ?P] => destruct (decide P)
    end.

(** Reduce the operations of the goal on finite numbers whose divisors are
    non-zero by [lra], then split on the comparisons. *)
Ltac num_fin :=
  simpl; repeat (rewrite div_fin by lra; simpl); cmp_cases; simpl.

(** ** Loops *)

Lemma for_range_empty {St : Type} (lo hi : nat) (body : nat -> St -> St) (s : St) :
  (hi <= lo)%nat -> for_range lo hi body s = s.
Proof.
  intros H. unfold for_range.
  replace (hi - lo)%nat with 0%nat by lia. reflexivity.
Qed.

Lemma for_range_snoc {St : Type} (lo hi : nat) (body : nat -> St -> St) (s : St) :
  (lo <= hi)%nat ->
  for_range lo (S hi) body s = body hi (for_range lo hi body s).
Proof.
  intros H. unfold for_range.
  replace (S hi - lo)%nat with (S (hi - lo)) by lia.
  rewrite seq_S, fold_left_app. simpl.
  replace (lo + (hi - lo))%nat with hi by lia. reflexivity.
Qed.

Lemma for_range_cons {St : Type} (lo hi : nat) (body : nat -> St -> St) (s : St) :
  (lo < hi)%nat ->
  for_range lo hi body s = for_range (S lo) hi body (body lo s).
Proof.
  intros H. unfold for_range.
  replace (hi - lo)%nat with (S (hi - S lo)) by lia.
  reflexivity.
Qed.

(** A loop that reads a list front to back is a fold over the part read. *)
Lemma for_range_fold {St A : Type} (d : A) (f : A -> St -> St) (l : list A)
    (lo hi : nat) (s : St) :
  (hi <= length l)%nat ->
  for_range lo hi (fun i s' => f (default d (l !! i)) s') s
  = fold_left (fun s' x => f x s') (take (hi - lo) (drop lo l)) s.
Proof.
  intros Hhi. remember (hi - lo)%nat as n eqn:En.
  revert lo s En. induction n as [|n IH]; intros lo s En.
  - rewrite for_range_empty by lia. reflexivity.
  - rewrite for_range_cons by lia.
    destruct (lookup_lt_is_Some_2 l lo) as [x Hx]; [lia|].
    rewrite (drop_S _ _ _ Hx). simpl. rewrite Hx. simpl.
    apply IH. lia.
Qed.

(** A loop that threads a state and writes cell [i] in round [i]. *)
Lemma for_range_scan {St A : Type} (body : nat -> St * list A -> St * list A)
    (next : nat -> St -> St) (cell : nat -> St -> A) (n : nat) (s0 : St) (a0 : list A) :
  (forall i s a, body i (s, a) = (next i s, <[i := cell i (next i s)]> a)) ->
  length a0 = n ->
  for_range 0 n body (s0, a0)
  = (run next n s0, map (fun i => cell i (run next (S i) s0)) (seq 0 n)).
Proof.
  intros Hbody Hlen.
  assert (Hk : forall k, (k <= n)%nat ->
            for_range 0 k body (s0, a0)
            = (run next k s0,
               map (fun i => cell i (run next (S i) s0)) (seq 0 k)
                 ++ drop k a0)).
  { induction k as [|k IH]; intros Hle.
    - simpl. rewrite drop_0. reflexivity.
    - rewrite for_range_snoc by lia. rewrite IH by lia. rewrite Hbody.
      f_equal.
      destruct (lookup_lt_is_Some_2 a0 k) as [x Hx]; [lia|].
      rewrite (drop_S _ _ _ Hx).
      rewrite insert_app_r_alt; rewrite length_map, length_seq; [|lia].
      replace (k - k)%nat with 0%nat by lia.
      rewrite seq_S, map_app, <- app_assoc. reflexivity. }
  rewrite (Hk n) by lia. rewrite drop_ge by lia. rewrite app_nil_r.
  reflexivity.
Qed.

(** A loop that rewrites every cell of a list from its own content. *)
Lemma for_range_inplace {A : Type} (d : A) (g : nat -> A -> A) (l : list A) :
  for_range 0 (length l) (fun i l' => <[i := g i (default d (l' !! i))]> l') l
  = imap g l.
Proof.
  assert (Hk : forall k, (k <= length l)%nat ->
            for_range 0 k (fun i l' => <[i := g i (default d (l' !! i))]> l') l
            = imap g (take k l) ++ drop k l).
  { induction k as [|k IH]; intros Hle.
    - simpl. rewrite drop_0. reflexivity.
    - rewrite for_range_snoc by lia. rewrite IH by lia.
      destruct (lookup_lt_is_Some_2 l k) as [x Hx]; [lia|].
      assert (Hlen : length (imap g (take k l)) = k).
      { rewrite length_imap, length_take. lia. }
      rewrite lookup_app_r by lia. rewrite Hlen.
      replace (k - k)%nat with 0%nat by lia.
      rewrite insert_app_r_alt by lia. rewrite Hlen.
      replace (k - k)%nat with 0%nat by lia.
      rewrite (drop_S _ _ _ Hx). simpl.
      rewrite (take_S_r _ _ _ Hx), imap_app. simpl.
      rewrite length_take. replace (k `min` length l)%nat with k by lia.
      rewrite Nat.add_0_r, <- app_assoc. reflexivity. }
  rewrite (Hk (length l)) by lia.
  rewrite firstn_all, drop_all, app_nil_r. reflexivity.
Qed.

(** ** The gain-reduction curve *)

Section GainCurve.

Lemma ratio_factor (r : R) : 1 <= r -> 0 <= 1 - 1 / r < 1.
Proof.
  intros Hr.
  assert (H1 : r * / r = 1) by (apply Rinv_r; lra).
  assert (H2 : 0 < / r) by (apply Rinv_0_lt_compat; lra).
  unfold Rdiv. rewrite Rmult_1_l. split; nra.
Qed.

(** Inside the knee the quadratic is non-negative, non-decreasing, and
    below the line it meets at the end of the knee. *)
Lemma knee_quad_mono (c x y k : R) :
  0 <= c -> 0 < k -> 0 <= x <= y ->
  c * (x * x) / (2 * k) <= c * (y * y) / (2 * k).
Proof.
  intros Hc Hk Hxy. apply Rmult_le_compat_r.
  - left. apply Rinv_0_lt_compat. lra.
  - apply Rmult_le_compat_l; [exact Hc | nra].
Qed.

Lemma knee_quad_nonneg (c x k : R) :
  0 <= c -> 0 < k -> 0 <= c * (x * x) / (2 * k).
Proof.
  intros Hc Hk. apply Rmult_le_pos.
  - apply Rmult_le_pos; [exact Hc | nra].
  - left. apply Rinv_0_lt_compat. lra.
Qed.

Lemma knee_quad_end (c k : R) : 0 < k -> c * (k * k) / (2 * k) = c * (k / 2).
Proof. intros Hk. field. lra. Qed.

Section CurveReal.

Variables (t k r : R).

Lemma curve_below (l : R) : 0 <= k -> l <= t - k / 2 -> curve t k r l = 0.
Proof.
  intros Hk0 Hl. unfold curve. rewrite decide_False by lra.
  rewrite decide_False by lra. reflexivity.
Qed.

Lemma curve_above (l : R) :
  0 <= k -> t + k / 2 <= l -> curve t k r l = (l - t) * (1 - 1 / r).
Proof.
  intros Hk0 Hl. unfold curve.
  destruct (decide (t + k / 2 < l)) as [|Hn]; [reflexivity|].
  assert (El : l = t + k / 2) by lra. subst l.
  destruct (decide (t - k / 2 < t + k / 2 /\ 0 < k)) as [[_ Hpos]|Hno].
  - replace (t + k / 2 - (t - k / 2)) with k by lra.
    rewrite knee_quad_end by exact Hpos. lra.
  - assert (Ek : k = 0) by lra. rewrite Ek. lra.
Qed.

Lemma curve_nonneg (l : R) : 0 <= k -> 1 <= r -> 0 <= curve t k r l.
Proof.
  intros Hk0 Hr1. pose proof (ratio_factor r Hr1) as [Hc _]. unfold curve.
  destruct (decide (t + k / 2 < l)).
  - apply Rmult_le_pos; lra.
  - destruct (decide (t - k / 2 < l /\ 0 < k)) as [[_ Hpos]|_]; [|lra].
    apply knee_quad_nonneg; assumption.
Qed.

Lemma curve_ratio_one (l : R) : r = 1 -> curve t k r l = 0.
Proof.
  intros E. rewrite E. unfold curve.
  replace (1 - 1 / 1) with 0 by lra.
  destruct (decide (t + k / 2 < l)); [lra|].
  destruct (decide (t - k / 2 < l /\ 0 < k)); [|reflexivity].
  unfold Rdiv. rewrite !Rmult_0_l. reflexivity.
Qed.

Lemma curve_mono (l1 l2 : R) :
  0 <= k -> 1 <= r -> l1 <= l2 -> curve t k r l1 <= curve t k r l2.
Proof.
  intros Hk0 Hr1 Hl. pose proof (ratio_factor r Hr1) as [Hc _].
  pose proof (curve_nonneg l2 Hk0 Hr1) as Hpos2. unfold curve in *.
  destruct (decide (t + k / 2 < l1)) as [A1|A1].
  - rewrite decide_True by lra. apply Rmult_le_compat_r; lra.
  - destruct (decide (t - k / 2 < l1 /\ 0 < k)) as [[B1 Hpos]|B1].
    + destruct (decide (t + k / 2 < l2)) as [A2|A2].
      * apply Rle_trans with ((1 - 1 / r) * (k * k) / (2 * k)).
        -- apply knee_quad_mono; try assumption. lra.
        -- rewrite knee_quad_end by exact Hpos. nra.
      * rewrite decide_True by (split; lra).
        apply knee_quad_mono; try assumption. lra.
    + exact Hpos2.
Qed.

End CurveReal.

Variables (p : ICompressorParams) (t k r : R).
Hypothesis Ht : threshold p = Fin t.
Hypothesis Hk : knee p = Fin k.
Hypothesis Hr : ratio p = Fin r.

(** The curve of the compressor on finite arguments: the three branches. *)
Lemma App_curve_cases (l : R) :
  r <> 0 ->
  App.gainReductionDb p (App.kneeStart p) (App.kneeEnd p) (Fin l)
  = Fin (curve t k r l).
Proof.
  intros Hr0. unfold App.gainReductionDb, App.kneeStart, App.kneeEnd, curve.
  rewrite Ht, Hk, Hr. num_fin; try (f_equal; lra); try lra.
  - rewrite div_fin by lra. f_equal. f_equal; lra.
Qed.

Lemma Waveshape_gr_cases (l : R) :
  r <> 0 ->
  Waveshape.gr (Fin t) (Fin k) (Fin r) (Fin l) = Fin (curve t k r l).
Proof.
  intros Hr0. unfold Waveshape.gr, curve.
  num_fin; try (f_equal; lra); try lra.
  - rewrite div_fin by lra. f_equal. f_equal; lra.
Qed.

(** C1. For a knee of at least 0 and a ratio above 1, the gain reduction
    computed by the compressor and by the visualisation is 0 for a level of
    at most [threshold - knee/2], and
    [(levelDb - threshold) * (1 - 1/ratio)] for a level of at least
    [threshold + knee/2]. *)
Theorem gain_curve_piecewise (l : R) :
  0 <= k -> 1 < r ->
  (l <= t - k / 2 ->
   App.gainReductionDb p (App.kneeStart p) (App.kneeEnd p) (Fin l) = Fin 0
   /\ Waveshape.gr (Fin t) (Fin k) (Fin r) (Fin l) = Fin 0)
  /\ (t + k / 2 <= l ->
      App.gainReductionDb p (App.kneeStart p) (App.kneeEnd p) (Fin l)
      = Fin ((l - t) * (1 - 1 / r))
      /\ Waveshape.gr (Fin t) (Fin k) (Fin r) (Fin l)
         = Fin ((l - t) * (1 - 1 / r))).
Proof.
  intros Hk0 Hr1.
  rewrite App_curve_cases, Waveshape_gr_cases by lra.
  split; intros Hl.
  - rewrite curve_below by assumption. split; reflexivity.
  - rewrite curve_above by assumption. split; reflexivity.
Qed.

(** C6. For a knee of at least 0 and a ratio of at least 1, the gain
    reduction computed by the compressor and by the visualisation does not
    decrease when the level increases. *)
Theorem gain_curve_monotone (l1 l2 : R) :
  0 <= k -> 1 <= r -> l1 <= l2 ->
  (App.gainReductionDb p (App.kneeStart p) (App.kneeEnd p) (Fin l1)
   <=? App.gainReductionDb p (App.kneeStart p) (App.kneeEnd p) (Fin l2))%num = true
  /\ (Waveshape.gr (Fin t) (Fin k) (Fin r) (Fin l1)
      <=? Waveshape.gr (Fin t) (Fin k) (Fin r) (Fin l2))%num = true.
Proof.
  intros Hk0 Hr1 Hl.
  rewrite !App_curve_cases, !Waveshape_gr_cases by lra.
  split; apply le_fin_true, curve_mono; assumption.
Qed.

End GainCurve.

(** ** Exponentials and decibels *)

Lemma ln10_pos : 0 < ln 10.
Proof. rewrite <- ln_1. apply ln_increasing; lra. Qed.

Lemma exp_le_1 (z : R) : z <= 0 -> exp z <= 1.
Proof.
  intros [Hz| ->].
  - left. rewrite <- exp_0. apply exp_increasing, Hz.
  - rewrite exp_0. lra.
Qed.

Lemma exp_lt_1 (z : R) : z < 0 -> exp z < 1.
Proof. intros Hz. rewrite <- exp_0. apply exp_increasing, Hz. Qed.

(** A gain reduction of at least 0 dB is a linear gain in (0, 1]. *)
Lemma pow10_gain (g : R) : 0 <= g -> 0 < Rpower 10 (- g / 20) <= 1.
Proof.
  intros Hg. unfold Rpower. split; [apply exp_pos|].
  apply exp_le_1. pose proof ln10_pos. nra.
Qed.

Lemma pow10_zero : Rpower 10 (- 0 / 20) = 1.
Proof. replace (- 0 / 20) with 0 by lra. apply Rpower_O. lra. Qed.

Lemma timeCoeff_fin (rate t : R) :
  App.timeCoeff (Fin rate) (Fin t) = Fin (coeff rate t).
Proof.
  unfold App.timeCoeff, coeff. simpl. rewrite div_unfold.
  destruct (decide (rate * t = 0)).
  - rewrite bySign_neg by lra. reflexivity.
  - reflexivity.
Qed.

Lemma follow_fin (a r e x : R) :
  App.follow (Fin a) (Fin r) (Fin e) (Fin x)
  = Fin (x + (e - x) * (if decide (e < x) then a else r)).
Proof. unfold App.follow. num_fin; try lra; f_equal; lra. Qed.

Lemma toDb_fin (e : R) : App.toDb (Fin e) = Fin (dB e).
Proof.
  unfold App.toDb, dB. simpl. cmp_cases; try lra.
  - rewrite log10_fin by assumption. reflexivity.
  - reflexivity.
Qed.

Lemma Waveshape_toDb_fin (e : R) : Waveshape.toDb (Fin e) = Fin (dB e).
Proof. apply toDb_fin. Qed.

(** ** The sample-accurate compressor *)

Section SampleCompressor.

Variables (p : ICompressorParams) (buffer : AudioBuffer).

Let attackCoeff : num := App.timeCoeff (sampleRate buffer) (attack p).
Let releaseCoeff : num := App.timeCoeff (sampleRate buffer) (release p).

(** One channel of the output: sample [i] times the gain for the envelope
    after sample [i]. *)
Lemma channel_loop (input : Float32Array) :
  snd (for_range 0 (bufLength buffer)
         (App.sampleStep p attackCoeff releaseCoeff (App.kneeStart p)
            (App.kneeEnd p) input)
         (Fin 0, newFloat32Array (bufLength buffer)))
  = map (fun i =>
           (get input i
            * gainLinOf p (envFollowerAt attackCoeff releaseCoeff input (S i)))%num)
      (seq 0 (bufLength buffer)).
Proof.
  erewrite (for_range_scan _
              (fun i env => App.follow attackCoeff releaseCoeff env
                              (Num.abs (get input i)))
              (fun i env => (get input i * gainLinOf p env)%num)).
  - reflexivity.
  - intros i s a. reflexivity.
  - apply length_replicate.
Qed.

Lemma applyCustomCompression_channelData :
  channelData (App.applyCustomCompression p buffer)
  = map (fun input =>
           map (fun i =>
                  (get input i
                   * gainLinOf p
                       (envFollowerAt attackCoeff releaseCoeff input (S i)))%num)
             (seq 0 (bufLength buffer)))
      (channelData buffer).
Proof.
  unfold App.applyCustomCompression. simpl.
  set (zeros := newFloat32Array (bufLength buffer)).
  set (g := fun (ch : nat) (output : Float32Array) =>
              snd (for_range 0 (bufLength buffer)
                     (App.sampleStep p attackCoeff releaseCoeff (App.kneeStart p)
                        (App.kneeEnd p) (getChannelData buffer ch))
                     (Fin 0, output))).
  pose proof (for_range_inplace [] g
                (replicate (numberOfChannels buffer) zeros)) as H.
  rewrite length_replicate in H.
  etrans; [exact H|].
  apply list_eq. intros ch.
  rewrite list_lookup_imap, list_lookup_fmap.
  unfold numberOfChannels.
  destruct (channelData buffer !! ch) as [input|] eqn:Hch.
  - rewrite lookup_replicate_2 by (eapply lookup_lt_Some; eassumption).
    simpl. f_equal. unfold g, getChannelData. rewrite Hch. simpl.
    apply channel_loop.
  - apply lookup_ge_None_1 in Hch.
    rewrite (proj1 (lookup_replicate_None _ _ _)) by lia. reflexivity.
Qed.

End SampleCompressor.

(** The envelope follower stays finite on finite samples. *)
Lemma envFollowerAt_fin (a r : R) (input : Float32Array) (n : nat) :
  Forall Num.finite input -> (n <= length input)%nat ->
  Num.finite (envFollowerAt (Fin a) (Fin r) input n).
Proof.
  intros Hfin. induction n as [|n IH]; intros Hn.
  - exists 0. reflexivity.
  - destruct IH as [e He]; [lia|].
    destruct (lookup_lt_is_Some_2 input n) as [s Hs]; [lia|].
    destruct (Forall_lookup_1 _ _ _ _ Hfin Hs) as [x ->].
    unfold envFollowerAt in *. simpl. rewrite He.
    unfold get. rewrite Hs. simpl. rewrite follow_fin. eexists. reflexivity.
Qed.

Lemma gainLinOf_fin (p : ICompressorParams) (t k r e : R) :
  threshold p = Fin t -> knee p = Fin k -> ratio p = Fin r -> r <> 0 ->
  gainLinOf p (Fin e) = Fin (Rpower 10 (- curve t k r (dB e) / 20)).
Proof.
  intros Ht Hk Hr Hr0. unfold gainLinOf.
  rewrite toDb_fin, (App_curve_cases p t k r Ht Hk Hr) by exact Hr0.
  simpl. rewrite div_fin by lra. reflexivity.
Qed.

Section CompressorOutput.

Variables (p : ICompressorParams) (buffer : AudioBuffer).
Variables (ch i : nat) (input : Float32Array).
Hypothesis Hch : channelData buffer !! ch = Some input.
Hypothesis Hi : (i < bufLength buffer)%nat.

Lemma output_sample :
  get (getChannelData (App.applyCustomCompression p buffer) ch) i
  = (get input i
     * gainLinOf p
         (envFollowerAt (App.timeCoeff (sampleRate buffer) (attack p))
            (App.timeCoeff (sampleRate buffer) (release p)) input (S i)))%num.
Proof.
  unfold getChannelData. rewrite applyCustomCompression_channelData.
  rewrite list_lookup_fmap, Hch. simpl. unfold get at 1.
  rewrite list_lookup_fmap, lookup_seq_lt by exact Hi. reflexivity.
Qed.

End CompressorOutput.

(** Every sample of a well-formed buffer of real samples is a real. *)
Lemma sample_lookup (buffer : AudioBuffer) (ch i : nat) :
  wellFormed buffer -> finiteBuffer buffer ->
  (ch < numberOfChannels buffer)%nat -> (i < bufLength buffer)%nat ->
  exists input x,
    channelData buffer !! ch = Some input
    /\ length input = bufLength buffer
    /\ Forall Num.finite input
    /\ input !! i = Some (Fin x).
Proof.
  intros Hwf [_ Hfin] Hch Hi.
  destruct (lookup_lt_is_Some_2 (channelData buffer) ch Hch) as [input Hin].
  pose proof (Forall_lookup_1 _ _ _ _ Hwf Hin) as Hlen. simpl in Hlen.
  pose proof (Forall_lookup_1 _ _ _ _ Hfin Hin) as Hf. simpl in Hf.
  destruct (lookup_lt_is_Some_2 input i) as [s Hs]; [lia|].
  destruct (Forall_lookup_1 _ _ _ _ Hf Hs) as [x ->].
  exists input, x. auto.
Qed.

Section CompressorClaims.

Variables (p : ICompressorParams) (buffer : AudioBuffer).
Hypothesis Hwf : wellFormed buffer.
Hypothesis Hbuf : finiteBuffer buffer.
Hypothesis Hpar : finiteParams p.

(** The gain applied to sample [i] of a channel, when the ratio is not 0. *)
Lemma output_gain (ch i : nat) :
  ratio p <> Fin 0 ->
  (ch < numberOfChannels buffer)%nat -> (i < bufLength buffer)%nat ->
  exists t k r x e,
    threshold p = Fin t /\ knee p = Fin k /\ ratio p = Fin r
    /\ get (getChannelData buffer ch) i = Fin x
    /\ get (getChannelData (App.applyCustomCompression p buffer) ch) i
       = Fin (x * Rpower 10 (- curve t k r (dB e) / 20)).
Proof.
  intros Hr0 Hch Hi.
  destruct Hpar as ([t Ht] & [k Hk] & [r Hr] & [a Ha] & [rl Hrl]).
  destruct (sample_lookup buffer ch i Hwf Hbuf Hch Hi)
    as (input & x & Hin & Hlen & Hfin & Hx).
  destruct Hbuf as [(rate & Hrate & _) _].
  rewrite (output_sample p buffer ch i input Hin Hi).
  rewrite Hrate, Ha, Hrl, !timeCoeff_fin.
  destruct (envFollowerAt_fin (coeff rate a) (coeff rate rl) input (S i) Hfin)
    as [e He]; [lia|].
  rewrite He.
  assert (Hr0' : r <> 0) by (intros ->; apply Hr0; exact Hr).
  rewrite (gainLinOf_fin p t k r e Ht Hk Hr Hr0').
  exists t, k, r, x, e. unfold getChannelData. rewrite Hin. simpl.
  unfold get. rewrite Hx. simpl. auto.
Qed.

(** C3. For a ratio of at least 1 and a knee of at least 0, no sample of the
    output of the compressor is larger in magnitude than the sample of the
    input at the same channel and index. *)
Theorem compress_bounded (ch i : nat) :
  (Fin 1 <=? ratio p)%num = true -> (Fin 0 <=? knee p)%num = true ->
  (ch < numberOfChannels buffer)%nat -> (i < bufLength buffer)%nat ->
  (Num.abs (get (getChannelData (App.applyCustomCompression p buffer) ch) i)
   <=? Num.abs (get (getChannelData buffer ch) i))%num = true.
Proof.
  intros Hratio Hknee Hch Hi.
  assert (Hr0 : ratio p <> Fin 0).
  { intros E. rewrite E in Hratio. apply le_fin_iff in Hratio. lra. }
  destruct (output_gain ch i Hr0 Hch Hi)
    as (t & k & r & x & e & Ht & Hk & Hr & Hx & Hout).
  rewrite Hr in Hratio. rewrite Hk in Hknee.
  apply le_fin_iff in Hratio. apply le_fin_iff in Hknee.
  rewrite Hx, Hout. apply le_fin_true.
  pose proof (pow10_gain (curve t k r (dB e))
                (curve_nonneg t k r (dB e) Hknee Hratio)) as [Hg0 Hg1].
  rewrite Rabs_mult, (Rabs_pos_eq (Rpower _ _)) by lra.
  pose proof (Rabs_pos x). nra.
Qed.

(** C2. With a ratio of 1 the compressor returns a buffer equal to its
    input, for every threshold, knee, attack and release: the gain reduction
    is 0 and the linear gain is 1 at every sample. *)
Theorem compress_identity :
  ratio p = Fin 1 ->
  App.applyCustomCompression p buffer = buffer
  /\ forall e : R,
      App.gainReductionDb p (App.kneeStart p) (App.kneeEnd p) (App.toDb (Fin e))
      = Fin 0
      /\ gainLinOf p (Fin e) = Fin 1.
Proof.
  intros Hone. split.
  - assert (Hcd : channelData (App.applyCustomCompression p buffer)
                  = channelData buffer).
    { apply list_eq. intros ch.
      destruct (decide (ch < numberOfChannels buffer)%nat) as [Hch|Hch].
      - destruct (lookup_lt_is_Some_2 (channelData buffer) ch Hch) as [input Hin].
        assert (Hlen : length (channelData (App.applyCustomCompression p buffer))
                       = numberOfChannels buffer).
        { rewrite applyCustomCompression_channelData. apply length_map. }
        destruct (lookup_lt_is_Some_2
                    (channelData (App.applyCustomCompression p buffer)) ch)
          as [output Hout]; [lia|].
        rewrite Hin, Hout. f_equal.
        pose proof (Forall_lookup_1 _ _ _ _ Hwf Hin) as Hil. simpl in Hil.
        assert (Hol : length output = bufLength buffer).
        { rewrite applyCustomCompression_channelData, list_lookup_fmap, Hin in Hout.
          simpl in Hout. injection Hout as <-.
          rewrite length_map, length_seq. reflexivity. }
        apply list_eq. intros i.
        destruct (decide (i < bufLength buffer)%nat) as [Hi|Hi].
        + assert (Hr0 : ratio p <> Fin 0) by (rewrite Hone; intros [=]; lra).
          destruct (output_gain ch i Hr0 Hch Hi)
            as (t & k & r & x & e & Ht & Hk & Hr & Hx & Hg).
          unfold getChannelData in Hx, Hg. rewrite Hin in Hx. rewrite Hout in Hg.
          simpl in Hx, Hg. unfold get in Hx, Hg.
          destruct (lookup_lt_is_Some_2 input i) as [s Hs]; [lia|].
          destruct (lookup_lt_is_Some_2 output i) as [o Ho]; [lia|].
          rewrite Hs in Hx. rewrite Ho in Hg. simpl in Hx, Hg.
          rewrite Hs, Ho, Hx, Hg. do 2 f_equal.
          assert (Er : r = 1) by congruence.
          rewrite (curve_ratio_one t k r _ Er), pow10_zero. lra.
        + rewrite !lookup_ge_None_2 by lia. reflexivity.
      - rewrite !lookup_ge_None_2; [reflexivity| |].
        + unfold numberOfChannels in Hch. lia.
        + rewrite applyCustomCompression_channelData, length_map.
          unfold numberOfChannels in Hch. lia. }
    destruct buffer as [rate len chans]. unfold App.applyCustomCompression in *.
    simpl in *. f_equal. exact Hcd.
  - intros e. destruct Hpar as ([t Ht] & [k Hk] & [r Hr] & _).
    assert (Er : r = 1) by congruence.
    assert (Hr0 : r <> 0) by lra.
    rewrite (gainLinOf_fin p t k r e Ht Hk Hr Hr0).
    rewrite toDb_fin, (App_curve_cases p t k r Ht Hk Hr) by exact Hr0.
    rewrite (curve_ratio_one t k r _ Er), pow10_zero. auto.
Qed.

End CompressorClaims.

(** The output of the compressor has the shape of its input. *)
Lemma applyCustomCompression_shape (p : ICompressorParams) (buffer : AudioBuffer) :
  wellFormed (App.applyCustomCompression p buffer)
  /\ numberOfChannels (App.applyCustomCompression p buffer) = numberOfChannels buffer
  /\ bufLength (App.applyCustomCompression p buffer) = bufLength buffer
  /\ sampleRate (App.applyCustomCompression p buffer) = sampleRate buffer.
Proof.
  unfold wellFormed, numberOfChannels.
  rewrite applyCustomCompression_channelData.
  split; [|split; [apply length_map | split; reflexivity]].
  apply Forall_fmap, Forall_forall. intros input _. simpl.
  rewrite length_map, length_seq. reflexivity.
Qed.




(** ** The envelope series of the visualisation *)

Section Envelope.

Lemma segmentPeak_segment (data : Float32Array) (step i : nat) :
  Waveshape.segmentPeak data (i * step)
    (Nat.min (i * step + step) (length data))
  = peakOf (segment data step i).
Proof.
  unfold Waveshape.segmentPeak, peakOf, segment, get.
  rewrite (for_range_fold NaN
             (fun x peak => if (Num.abs x >? peak)%num then Num.abs x else peak))
    by lia.
  f_equal.
  destruct (decide (i * step <= length data)%nat) as [Hle|Hgt].
  - replace (Nat.min (i * step + step) (length data) - i * step)%nat
      with (Nat.min step (length (drop (i * step) data)))
      by (rewrite length_drop; lia).
    rewrite <- take_take. f_equal. apply take_ge. lia.
  - rewrite drop_ge by lia. rewrite !take_nil. reflexivity.
Qed.

Lemma envelope_state (data : Float32Array) (step : nat) (a r : num) (n : nat) :
  run (fun i env =>
         Waveshape.smooth a r env
           (Waveshape.segmentPeak data (i * step)
              (Nat.min (i * step + step) (length data))))
    n (Fin 0)
  = segmentState codeUpdate a r (fun j => peakOf (segment data step j)) n.
Proof.
  induction n as [|n IH]; [reflexivity|].
  simpl. rewrite IH, segmentPeak_segment.
  unfold Waveshape.smooth, codeUpdate.
  destruct (_ >? _)%num; reflexivity.
Qed.

(** The loop of [calculateEnvelope], round by round. *)
Lemma calculateEnvelope_scan (data : Float32Array) (rate attack release : num)
    (outputLength : nat) :
  Waveshape.calculateEnvelope data rate attack release outputLength
  = segmentEnvelope codeUpdate data rate attack release outputLength.
Proof.
  unfold Waveshape.calculateEnvelope, segmentEnvelope.
  set (step := ceilDiv (length data) outputLength).
  set (a := Num.exp _). set (r := Num.exp _).
  erewrite (for_range_scan _
              (fun i env =>
                 Waveshape.smooth a r env
                   (Waveshape.segmentPeak data (i * step)
                      (Nat.min (i * step + step) (length data))))
              (fun _ env => Num.min env (Fin 1))).
  - cbn [snd]. apply map_ext_in. intros i _. f_equal.
    apply (envelope_state data step a r (S i)).
  - intros i s arr. reflexivity.
  - apply length_replicate.
Qed.

End Envelope.

(** The running maximum of a finite segment is its largest absolute
    sample, or its start value. *)
Lemma peak_fold_fin (seg : list num) (m0 : R) :
  Forall Num.finite seg ->
  exists m,
    fold_left
      (fun peak x => if (Num.abs x >? peak)%num then Num.abs x else peak)
      seg (Fin m0) = Fin m
    /\ m0 <= m
    /\ (forall x, Fin x ∈ seg -> Rabs x <= m)
    /\ (m = m0 \/ exists x, Fin x ∈ seg /\ m = Rabs x).
Proof.
  intros Hfin. revert m0. induction Hfin as [|s seg [x ->] _ IH]; intros m0.
  - exists m0. simpl. split; [reflexivity|]. split; [lra|].
    split; [|left; reflexivity]. intros x Hx. inversion Hx.
  - simpl. destruct (bool_decide_reflect (m0 < Rabs x)) as [Hlt|Hge].
    + destruct (IH (Rabs x)) as (m & Em & Hm & Hall & Hwit).
      exists m. split; [exact Em|]. split; [lra|]. split.
      * intros y Hy. apply elem_of_cons in Hy as [[= ->]|Hy]; [lra|auto].
      * right. destruct Hwit as [->|(y & Hy & ->)].
        -- exists x. split; [left|reflexivity].
        -- exists y. split; [right; exact Hy|reflexivity].
    + destruct (IH m0) as (m & Em & Hm & Hall & Hwit).
      exists m. split; [exact Em|]. split; [lra|]. split.
      * intros y Hy. apply elem_of_cons in Hy as [[= ->]|Hy]; [lra|auto].
      * destruct Hwit as [->|(y & Hy & ->)]; [left; reflexivity|].
        right. exists y. split; [right; exact Hy|reflexivity].
Qed.

Lemma peakOf_max (seg : list num) :
  Forall Num.finite seg ->
  exists m,
    peakOf seg = Fin m
    /\ 0 <= m
    /\ (forall x, Fin x ∈ seg -> Rabs x <= m)
    /\ (m = 0 \/ exists x, Fin x ∈ seg /\ m = Rabs x).
Proof. apply peak_fold_fin. Qed.

Lemma ceilDiv_covers (n d : nat) : (0 < d)%nat -> (n <= ceilDiv n d * d)%nat.
Proof.
  intros Hd. unfold ceilDiv.
  pose proof (Nat.div_mod (n + d - 1) d) as E.
  pose proof (Nat.mod_upper_bound (n + d - 1) d) as U. nia.
Qed.

(** The segments are contiguous and cover the data. *)
Lemma segments_concat (data : Float32Array) (step n : nat) :
  concat (map (segment data step) (seq 0 n)) = take (n * step) data.
Proof.
  induction n as [|n IH]; [reflexivity|].
  rewrite seq_S, map_app, concat_app, IH. simpl. rewrite app_nil_r.
  unfold segment. rewrite take_take_drop. f_equal. lia.
Qed.

Lemma codeUpdate_fin (c s x : R) :
  codeUpdate (Fin c) (Fin s) (Fin x) = Fin (x + (s - x) * c).
Proof. unfold codeUpdate. simpl. f_equal. lra. Qed.

Lemma specUpdate_fin (c s x : R) :
  specUpdate (Fin c) (Fin s) (Fin x) = Fin (x + (s - x) * (1 - c)).
Proof. unfold specUpdate. simpl. f_equal. Qed.

Lemma safe_fin (t : R) : Waveshape.safe (Fin t) = Fin (Rmax t 0.00001).
Proof.
  unfold Waveshape.safe, Num.max. simpl. unfold Rmax.
  case_bool_decide; destruct (Rle_dec t 0.00001); try lra; reflexivity.
Qed.

(** One sample at full scale, drawn on one pixel with the default attack
    and release: the code stores [1 - c] and the update of the
    specification gives [c], for [c = exp (-1 / (44100 * 0.003))]. *)
Lemma one_sample_envelope (update : num -> num -> num -> num) :
  segmentEnvelope update [Fin 1] (Fin 44100) (Fin 0.003) (Fin 0.01) 1
  = [Num.min (update (Fin (exp (-1 / (44100 * 0.003)))) (Fin 0) (Fin 1)) (Fin 1)].
Proof.
  unfold segmentEnvelope, segment, peakOf. simpl.
  rewrite Rabs_R1.
  repeat (rewrite bool_decide_eq_true_2 by lra; simpl).
  rewrite div_fin by lra. reflexivity.
Qed.

Lemma default_attack_coeff : 0.99 < exp (-1 / (44100 * 0.003)) < 1.
Proof.
  split.
  - pose proof (exp_ineq1 (-1 / (44100 * 0.003))) as H. lra.
  - apply exp_lt_1. lra.
Qed.

(** C4, as stated, fails: on one full-scale sample and one output position
    the series of the code differs from the series of the update
    [s' = x + (s - x) * (1 - coeff)]. *)
Lemma envelope_spec_update_differs :
  Waveshape.calculateEnvelope [Fin 1] (Fin 44100) (Fin 0.003) (Fin 0.01) 1
  <> segmentEnvelope specUpdate [Fin 1] (Fin 44100) (Fin 0.003) (Fin 0.01) 1.
Proof.
  rewrite calculateEnvelope_scan, !one_sample_envelope.
  rewrite codeUpdate_fin, specUpdate_fin.
  pose proof default_attack_coeff as [Hlo Hhi].
  unfold Num.min. simpl.
  rewrite !bool_decide_eq_false_2 by lra.
  intros [= E]. lra.
Qed.

(** C4, amended. The envelope of the visualisation cuts the data into
    [outputLength] contiguous segments, segment [i] holding the at most
    [ceil(totalSamples / outputLength)] samples from index
    [i * ceil(totalSamples / outputLength)] on; it takes for [x] the largest
    absolute sample of the segment (0 for an empty one), and advances the
    state once per segment by [s' = s + (x - s) * (1 - coeff)], which is
    [x + (s - x) * coeff], where [coeff] is the attack coefficient when
    [x > s] and the release coefficient otherwise; it stores [min(s', 1)]. *)
Theorem envelope_segment_peak (data : Float32Array) (rate attack release : num)
    (outputLength : nat) :
  Waveshape.calculateEnvelope data rate attack release outputLength
  = segmentEnvelope codeUpdate data rate attack release outputLength
  /\ ((0 < outputLength)%nat ->
      concat (map (segment data (ceilDiv (length data) outputLength))
                (seq 0 outputLength)) = data)
  /\ (forall i : nat,
        Forall Num.finite data ->
        exists m,
          peakOf (segment data (ceilDiv (length data) outputLength) i) = Fin m
          /\ 0 <= m
          /\ (forall x,
                Fin x ∈ segment data (ceilDiv (length data) outputLength) i ->
                Rabs x <= m)
          /\ (m = 0
              \/ exists x,
                  Fin x ∈ segment data (ceilDiv (length data) outputLength) i
                  /\ m = Rabs x))
  /\ (forall c s x : R,
        codeUpdate (Fin c) (Fin s) (Fin x) = Fin (s + (x - s) * (1 - c))
        /\ codeUpdate (Fin c) (Fin s) (Fin x) = Fin (x + (s - x) * c)).
Proof.
  split; [apply calculateEnvelope_scan|]. split; [|split].
  - intros Hpos. rewrite segments_concat. apply take_ge.
    pose proof (ceilDiv_covers (length data) outputLength Hpos). lia.
  - intros i Hfin. apply peakOf_max. unfold segment.
    apply Forall_take, Forall_drop, Hfin.
  - intros c s x. split; [reflexivity|apply codeUpdate_fin].
Qed.

(** ** The drawn series: lengths and ranges *)

Lemma calculateEnvelope_length (data : Float32Array) (rate attack release : num)
    (outputLength : nat) :
  length (Waveshape.calculateEnvelope data rate attack release outputLength)
  = outputLength.
Proof.
  rewrite calculateEnvelope_scan. unfold segmentEnvelope.
  rewrite length_map, length_seq. reflexivity.
Qed.

(** The smoothing coefficients of the visualisation are in (0, 1). *)
Lemma safe_coeff_range (rate t scale : R) :
  0 < rate -> 0 < scale ->
  exists c,
    Num.exp (Fin (-1) / (Fin rate * (Waveshape.safe (Fin t) * Fin scale)))%num = Fin c
    /\ 0 < c < 1.
Proof.
  intros Hrate Hscale. rewrite safe_fin. simpl.
  assert (Hm : 0 < Rmax t 0.00001).
  { apply Rlt_le_trans with 0.00001; [lra | apply Rmax_r]. }
  assert (Hp : 0 < rate * (Rmax t 0.00001 * scale)).
  { repeat apply Rmult_lt_0_compat; assumption. }
  rewrite div_fin by lra. simpl. eexists. split; [reflexivity|].
  split; [apply exp_pos|]. apply exp_lt_1. unfold Rdiv.
  assert (0 < / (rate * (Rmax t 0.00001 * scale)))
    by (apply Rinv_0_lt_compat; exact Hp).
  lra.
Qed.

Lemma envelope_coeff_range (rate t : R) :
  0 < rate ->
  exists c,
    Num.exp (Fin (-1) / (Fin rate * Waveshape.safe (Fin t)))%num = Fin c
    /\ 0 < c < 1.
Proof.
  intros Hrate.
  destruct (safe_coeff_range rate t 1 Hrate Rlt_0_1) as (c & E & Hc).
  exists c. split; [|exact Hc]. rewrite <- E, safe_fin. simpl.
  rewrite Rmult_1_r. reflexivity.
Qed.

(** The state of the envelope stays a non-negative real. *)
Lemma segmentState_nonneg (a r : R) (peaks : nat -> num) (n : nat) :
  0 < a < 1 -> 0 < r < 1 ->
  (forall j, exists m, peaks j = Fin m /\ 0 <= m) ->
  exists s, segmentState codeUpdate (Fin a) (Fin r) peaks n = Fin s /\ 0 <= s.
Proof.
  intros Ha Hr Hpeaks. induction n as [|n (s & Es & Hs)].
  - exists 0. split; [reflexivity|lra].
  - cbn [segmentState]. rewrite Es. destruct (Hpeaks n) as (m & Em & Hm).
    rewrite Em. destruct (Fin m >? Fin s)%num; rewrite codeUpdate_fin;
      (eexists; split; [reflexivity|nra]).
Qed.

Lemma calculateEnvelope_range (data : Float32Array) (rate attack release : R)
    (outputLength : nat) :
  0 < rate -> Forall Num.finite data ->
  Forall (fun v => exists x, v = Fin x /\ 0 <= x <= 1)
    (Waveshape.calculateEnvelope data (Fin rate) (Fin attack) (Fin release)
       outputLength).
Proof.
  intros Hrate Hfin. rewrite calculateEnvelope_scan. unfold segmentEnvelope.
  destruct (envelope_coeff_range rate attack Hrate) as (a & Ea & Ha).
  destruct (envelope_coeff_range rate release Hrate) as (r & Er & Hr).
  unfold Waveshape.safe in Ea, Er. rewrite Ea, Er.
  apply Forall_fmap, Forall_forall. intros i _. unfold compose.
  destruct (segmentState_nonneg a r
              (fun j => peakOf (segment data
                                  (ceilDiv (length data) outputLength) j))
              (S i) Ha Hr) as (s & Es & Hs).
  - intros j.
    destruct (peakOf_max (segment data (ceilDiv (length data) outputLength) j))
      as (m & Em & Hm & _).
    + unfold segment. apply Forall_take, Forall_drop, Hfin.
    + exists m. auto.
  - rewrite Es. unfold Num.min. simpl.
    case_bool_decide; eexists; (split; [reflexivity|lra]).
Qed.

Lemma run_invariant {St : Type} (P : St -> Prop) (next : nat -> St -> St)
    (n : nat) (s : St) :
  P s -> (forall i s', P s' -> P (next i s')) -> P (run next n s).
Proof. intros H0 Hstep. induction n as [|n IH]; simpl; auto. Qed.

Lemma getZ_cases (a : Float32Array) (z : Z) :
  Forall Num.finite a -> getZ a z = NaN \/ exists v, getZ a z = Fin v.
Proof.
  intros Hfin. unfold getZ, get. destruct (z <? 0)%Z; [left; reflexivity|].
  destruct (a !! Z.to_nat z) as [s|] eqn:Hs; [|left; reflexivity].
  destruct (Forall_lookup_1 _ _ _ _ Hfin Hs) as [v ->]. right. exists v.
  reflexivity.
Qed.

Lemma smoothGr_fin (a r g x : R) :
  Waveshape.smoothGr (Fin a) (Fin r) (Fin g) (Fin x)
  = Fin (x + (g - x) * (if decide (g < x) then a else r)).
Proof. unfold Waveshape.smoothGr. num_fin; try lra; f_equal; lra. Qed.

(** The instantaneous gain reduction of a drawn envelope value is a real of
    at least 0, also where the envelope is read out of range. *)
Lemma gr_of_envelope_nonneg (t k r : R) (v : num) :
  0 <= k -> 1 <= r ->
  v = NaN \/ (exists e, v = Fin e) ->
  exists x, Waveshape.gr (Fin t) (Fin k) (Fin r) (Waveshape.toDb v) = Fin x /\ 0 <= x.
Proof.
  intros Hk Hr [->|[e ->]].
  - change (Waveshape.toDb NaN) with (Fin (-100)).
    rewrite Waveshape_gr_cases by lra. eexists. split; [reflexivity|].
    apply curve_nonneg; assumption.
  - rewrite Waveshape_toDb_fin, Waveshape_gr_cases by lra.
    eexists. split; [reflexivity|]. apply curve_nonneg; assumption.
Qed.

(** The loop of [calculateGainReduction], round by round, for a ratio that
    is not at most 1. *)
Lemma calculateGainReduction_scan (envelope : Float32Array)
    (rate thresholdDb kneeDb ratio attack release : num) (outputLength : nat) :
  (ratio <=? Fin 1)%num = false ->
  exists (step : nat) (attackCoeff releaseCoeff : num),
    attackCoeff
    = Num.exp (Fin (-1) / (rate * (Waveshape.safe attack * Fin 0.001)))%num
    /\ releaseCoeff
       = Num.exp (Fin (-1) / (rate * (Waveshape.safe release * Fin 0.001)))%num
    /\ Waveshape.calculateGainReduction envelope rate thresholdDb kneeDb ratio
         attack release outputLength
       = map (fun i =>
                run (fun j grSmoothed =>
                       Waveshape.smoothGr attackCoeff releaseCoeff grSmoothed
                         (Waveshape.gr thresholdDb kneeDb ratio
                            (Waveshape.toDb
                               (getZ envelope
                                  (Z.min (Z.of_nat (j * step))
                                     (Z.of_nat (length envelope) - 1))))))
                  (S i) (Fin 0))
           (seq 0 outputLength).
Proof.
  intros Hratio. unfold Waveshape.calculateGainReduction. rewrite Hratio.
  eexists _, _, _. split; [reflexivity|]. split; [reflexivity|].
  erewrite (for_range_scan _ _ (fun _ g => g)).
  - reflexivity.
  - intros i s a. reflexivity.
  - apply length_replicate.
Qed.

Lemma calculateGainReduction_length (envelope : Float32Array)
    (rate thresholdDb kneeDb ratio attack release : num) (outputLength : nat) :
  length (Waveshape.calculateGainReduction envelope rate thresholdDb kneeDb
            ratio attack release outputLength) = outputLength.
Proof.
  destruct (ratio <=? Fin 1)%num eqn:Hratio.
  - unfold Waveshape.calculateGainReduction. rewrite Hratio.
    apply length_replicate.
  - destruct (calculateGainReduction_scan envelope rate thresholdDb kneeDb
                ratio attack release outputLength Hratio)
      as (step & a & r & _ & _ & ->).
    rewrite length_map, length_seq. reflexivity.
Qed.

Lemma calculateGainReduction_range (envelope : Float32Array)
    (rate t k r attack release : R) (outputLength : nat) :
  0 < rate -> 0 <= k -> Forall Num.finite envelope ->
  Forall (fun v => exists x, v = Fin x /\ 0 <= x)
    (Waveshape.calculateGainReduction envelope (Fin rate) (Fin t) (Fin k)
       (Fin r) (Fin attack) (Fin release) outputLength).
Proof.
  intros Hrate Hk Hfin.
  destruct (Fin r <=? Fin 1)%num eqn:Hratio.
  - unfold Waveshape.calculateGainReduction. rewrite Hratio.
    apply Forall_replicate. exists 0. split; [reflexivity|lra].
  - destruct (calculateGainReduction_scan envelope (Fin rate) (Fin t) (Fin k)
                (Fin r) (Fin attack) (Fin release) outputLength Hratio)
      as (step & a & c & Ea & Ec & ->).
    simpl in Hratio. apply bool_decide_eq_false in Hratio.
    destruct (safe_coeff_range rate attack 0.001 Hrate) as (a' & Ea' & Ha); [lra|].
    destruct (safe_coeff_range rate release 0.001 Hrate) as (c' & Ec' & Hc); [lra|].
    rewrite Ea' in Ea. rewrite Ec' in Ec. subst a c.
    apply Forall_fmap, Forall_forall. intros i _. unfold compose.
    apply (run_invariant (fun v => exists x, v = Fin x /\ 0 <= x)).
    + exists 0. split; [reflexivity|lra].
    + intros j s (g & -> & Hg).
      destruct (gr_of_envelope_nonneg t k r
                  (getZ envelope
                     (Z.min (Z.of_nat (j * step))
                        (Z.of_nat (length envelope) - 1))))
        as (x & Ex & Hx); [lra | lra | apply getZ_cases, Hfin |].
      rewrite Ex, smoothGr_fin. eexists. split; [reflexivity|].
      destruct (decide (g < x)); nra.
Qed.

(** C7. For a buffer of real samples at a positive sample rate, real
    parameters with a knee of at least 0, and every width, the component
    computes an envelope series and a gain-reduction series of exactly
    [width] values each; every envelope value is in [0, 1] and every
    gain-reduction value is at least 0. *)
Theorem visualization_series (b : AudioBuffer) (p : ICompressorParams)
    (width : nat) :
  finiteBuffer b -> finiteParams p -> (Fin 0 <=? knee p)%num = true ->
  exists env gr : Float32Array,
    Waveshape.envelope (Some b) p width = Some env
    /\ Waveshape.gainReduction (Some b) p width = Some gr
    /\ length env = width
    /\ length gr = width
    /\ Forall (fun v => exists x, v = Fin x /\ 0 <= x <= 1) env
    /\ Forall (fun v => exists x, v = Fin x /\ 0 <= x) gr.
Proof.
  intros [(rate & Hrate & Hpos) Hfin] ([t Ht] & [k Hk] & [r Hr] & [a Ha] & [rl Hrl])
    Hknee.
  rewrite Hk in Hknee. apply le_fin_iff in Hknee.
  unfold Waveshape.gainReduction, Waveshape.envelope.
  rewrite Hrate, Ht, Hk, Hr, Ha, Hrl.
  assert (Hdata : Forall Num.finite (getChannelData b 0)).
  { unfold getChannelData. destruct (channelData b !! 0%nat) as [data|] eqn:E.
    - exact (Forall_lookup_1 _ _ _ _ Hfin E).
    - constructor. }
  pose proof (calculateEnvelope_range (getChannelData b 0) rate a rl width
                Hpos Hdata) as Henv.
  eexists _, _. split; [reflexivity|]. split; [reflexivity|].
  split; [apply calculateEnvelope_length|].
  split; [apply calculateGainReduction_length|].
  split; [exact Henv|].
  apply calculateGainReduction_range; [exact Hpos | exact Hknee |].
  eapply Forall_impl; [exact Henv|]. intros v (x & -> & _). exists x.
  reflexivity.
Qed.

(** C8. For a ratio of at most 1 the gain-reduction series is the zero-filled
    array of the requested length, whatever the envelope, the sample rate
    and the other parameters are: the smoothing pass has no part in it. *)
Theorem gain_reduction_ratio_one (envelope : Float32Array)
    (rate thresholdDb kneeDb r attack release : num) (outputLength : nat) :
  (r <=? Fin 1)%num = true ->
  Waveshape.calculateGainReduction envelope rate thresholdDb kneeDb r
    attack release outputLength
  = replicate outputLength (Fin 0)
  /\ forall (b : AudioBuffer) (p : ICompressorParams),
      ratio p = r ->
      Waveshape.gainReduction (Some b) p outputLength
      = Some (replicate outputLength (Fin 0)).
Proof.
  intros Hratio. split.
  - unfold Waveshape.calculateGainReduction. rewrite Hratio. reflexivity.
  - intros b p Hp. unfold Waveshape.gainReduction, Waveshape.envelope.
    unfold Waveshape.calculateGainReduction. rewrite Hp, Hratio. reflexivity.
Qed.

(** ** Peak normalisation *)

Section Normalizer.

Local Abbreviation upd :=
  (fun peak x => if (Num.abs x >? peak)%num then Num.abs x else peak).

Lemma maxPeak_concat (b : AudioBuffer) :
  Compressor.maxPeak b = peakOf (concat (channelData b)).
Proof.
  unfold Compressor.maxPeak, peakOf, getChannelData, numberOfChannels.
  rewrite (for_range_fold []
             (fun data m =>
                for_range 0 (length data)
                  (fun i m' =>
                     if (Num.abs (get data i) >? m')%num
                     then Num.abs (get data i) else m') m))
    by lia.
  rewrite Nat.sub_0_r, drop_0, firstn_all.
  generalize (Fin 0). induction (channelData b) as [|data chans IH]; intros acc.
  - reflexivity.
  - simpl. rewrite fold_left_app, IH. f_equal.
    unfold get.
    rewrite (for_range_fold NaN
               (fun x m => if (Num.abs x >? m)%num then Num.abs x else m))
      by lia.
    rewrite Nat.sub_0_r, drop_0, firstn_all. reflexivity.
Qed.

Lemma scale_channelData (gain : num) (b : AudioBuffer) :
  Compressor.scale gain b = mapSamples (fun x => (x * gain)%num) b.
Proof.
  unfold Compressor.scale, mapSamples. f_equal.
  pose proof (for_range_inplace []
                (fun (_ : nat) (data : Float32Array) =>
                   for_range 0 (length data)
                     (fun i data' => set data' i (get data' i * gain)%num) data)
                (channelData b)) as H.
  etrans; [exact H|].
  rewrite (imap_const
             (fun data : Float32Array =>
                for_range 0 (length data)
                  (fun i data' => set data' i (get data' i * gain)%num) data)).
  apply map_ext. intros data.
  pose proof (for_range_inplace NaN (fun (_ : nat) x => (x * gain)%num) data) as G.
  etrans; [exact G|]. apply (imap_const (fun x => (x * gain)%num)).
Qed.

Lemma peak_fold_PInf (l : list num) : fold_left upd l PInf = PInf.
Proof.
  induction l as [|x l IH]; [reflexivity|]. simpl.
  destruct x; simpl; exact IH.
Qed.

Lemma peak_fold_within (l : list num) (m0 m : R) :
  fold_left upd l (Fin m0) = Fin m -> m0 <= m /\ Forall (within m) l.
Proof.
  revert m0. induction l as [|x l IH]; intros m0 E.
  - simpl in E. injection E as <-. split; [lra|constructor].
  - simpl in E. destruct x as [r| | |]; simpl in E.
    + case_bool_decide.
      * destruct (IH _ E) as [Hm Hl]. split; [lra|].
        constructor; [|exact Hl]. right. exists r. split; [reflexivity|lra].
      * destruct (IH _ E) as [Hm Hl]. split; [lra|].
        constructor; [|exact Hl]. right. exists r. split; [reflexivity|lra].
    + rewrite peak_fold_PInf in E. discriminate.
    + rewrite peak_fold_PInf in E. discriminate.
    + destruct (IH _ E) as [Hm Hl]. split; [lra|].
      constructor; [left; reflexivity|exact Hl].
Qed.

Lemma peak_fold_cases (l : list num) (m0 : R) :
  0 <= m0 ->
  fold_left upd l (Fin m0) = PInf
  \/ exists m, fold_left upd l (Fin m0) = Fin m /\ 0 <= m.
Proof.
  revert m0. induction l as [|x l IH]; intros m0 H0.
  - right. exists m0. split; [reflexivity|exact H0].
  - simpl. destruct x as [r| | |]; simpl.
    + case_bool_decide; apply IH; [apply Rabs_pos|exact H0].
    + left. apply peak_fold_PInf.
    + left. apply peak_fold_PInf.
    + apply IH, H0.
Qed.

(** Samples within 1 have a peak of at most 1. *)
Lemma peak_fold_bounded (l : list num) (m0 : R) :
  m0 <= 1 -> Forall (within 1) l ->
  exists m, fold_left upd l (Fin m0) = Fin m /\ m <= 1.
Proof.
  intros H0 Hl. revert m0 H0.
  induction Hl as [|x l [->|(r & -> & Hr)] _ IH]; intros m0 H0.
  - exists m0. split; [reflexivity|exact H0].
  - simpl. apply IH, H0.
  - simpl. case_bool_decide; apply IH; assumption.
Qed.

Lemma scaled_within (m : R) (l : list num) :
  1 < m -> Forall (within m) l ->
  Forall (within 1) (map (fun x => (x * Fin (1 / m))%num) l).
Proof.
  intros Hm Hl. apply Forall_fmap. eapply Forall_impl; [exact Hl|].
  intros x [->|(r & -> & Hr)]; [left; reflexivity|].
  right. exists (r * (1 / m)). split; [reflexivity|].
  rewrite Rabs_mult, (Rabs_pos_eq (1 / m)).
  - unfold Rdiv. rewrite Rmult_1_l.
    assert (Hi : 0 < / m) by (apply Rinv_0_lt_compat; lra).
    assert (E : m * / m = 1) by (apply Rinv_r; lra).
    pose proof (Rabs_pos r). nra.
  - unfold Rdiv. rewrite Rmult_1_l. left. apply Rinv_0_lt_compat. lra.
Qed.

Lemma zeroed_within (l : list num) :
  Forall (within 1) (map (fun x => (x * Fin 0)%num) l).
Proof.
  apply Forall_fmap, Forall_forall. intros x _. unfold compose.
  destruct x as [r| | |]; simpl.
  - right. exists (r * 0). split; [reflexivity|].
    rewrite Rmult_0_r, Rabs_R0. lra.
  - left. apply bySign_zero.
  - left. apply bySign_zero.
  - left. reflexivity.
Qed.

Lemma normalize_cases (b : AudioBuffer) :
  Compressor.normalize b
  = if (Compressor.maxPeak b >? Fin 1)%num
    then mapSamples (fun x => (x * (Fin 1 / Compressor.maxPeak b))%num) b
    else b.
Proof.
  unfold Compressor.normalize. destruct (_ >? _)%num; [|reflexivity].
  apply scale_channelData.
Qed.

(** After a rescaling the peak is no longer above 1. *)
Lemma normalized_peak (b : AudioBuffer) :
  (Compressor.maxPeak b >? Fin 1)%num = true ->
  (Compressor.maxPeak
     (mapSamples (fun x => (x * (Fin 1 / Compressor.maxPeak b))%num) b)
   >? Fin 1)%num = false.
Proof.
  intros Hgt. rewrite (maxPeak_concat (mapSamples _ _)). simpl.
  rewrite <- concat_map.
  assert (Hw : Forall (within 1)
                 (map (fun x => (x * (Fin 1 / Compressor.maxPeak b))%num)
                    (concat (channelData b)))).
  { rewrite maxPeak_concat in *. unfold peakOf in *.
    destruct (peak_fold_cases (concat (channelData b)) 0) as [E|(m & E & H0)];
      [lra| |].
    - rewrite E. apply zeroed_within.
    - rewrite E in *. simpl in Hgt. apply bool_decide_eq_true in Hgt.
      rewrite div_fin by lra. apply scaled_within; [exact Hgt|].
      apply (peak_fold_within _ 0 m E). }
  destruct (peak_fold_bounded _ 0 ltac:(lra) Hw) as (m' & E' & Hm').
  unfold peakOf. rewrite E'. apply gt_fin_false, Hm'.
Qed.

End Normalizer.

(** C9. The normaliser takes for [maxPeak] the largest absolute sample over
    all channels, multiplies every sample of every channel by [1 / maxPeak]
    when [maxPeak > 1] and leaves the buffer as it is otherwise; normalising
    twice gives the buffer that normalising once gives. *)
Theorem normalize_idempotent (b : AudioBuffer) :
  Compressor.maxPeak b = peakOf (concat (channelData b))
  /\ (Forall (Forall Num.finite) (channelData b) ->
      exists m,
        Compressor.maxPeak b = Fin m
        /\ 0 <= m
        /\ (forall x, Fin x ∈ concat (channelData b) -> Rabs x <= m)
        /\ (m = 0 \/ exists x, Fin x ∈ concat (channelData b) /\ m = Rabs x))
  /\ Compressor.normalize b
     = (if (Compressor.maxPeak b >? Fin 1)%num
        then mapSamples (fun x => (x * (Fin 1 / Compressor.maxPeak b))%num) b
        else b)
  /\ Compressor.normalize (Compressor.normalize b) = Compressor.normalize b.
Proof.
  split; [apply maxPeak_concat|]. split; [|split; [apply normalize_cases|]].
  - intros Hfin. rewrite maxPeak_concat. apply peakOf_max.
    apply Forall_concat, Hfin.
  - rewrite (normalize_cases b).
    destruct (Compressor.maxPeak b >? Fin 1)%num eqn:Hgt.
    + rewrite normalize_cases, normalized_peak by exact Hgt. reflexivity.
    + rewrite normalize_cases, Hgt. reflexivity.
Qed.

(** ** Attack and release of zero *)

Section ZeroAttack.

(** The passes of the visualisation floor the time: the series for an
    attack or a release of 0 are those for 0.00001. *)
Lemma visualisation_floors (data : Float32Array) (rate t : num) (n : nat) :
  Waveshape.safe (Fin 0) = Fin 0.00001
  /\ Waveshape.calculateEnvelope data rate (Fin 0) t n
     = Waveshape.calculateEnvelope data rate (Fin 0.00001) t n
  /\ Waveshape.calculateEnvelope data rate t (Fin 0) n
     = Waveshape.calculateEnvelope data rate t (Fin 0.00001) n.
Proof.
  assert (E0 : Waveshape.safe (Fin 0) = Fin 0.00001).
  { rewrite safe_fin. f_equal. apply Rmax_right. lra. }
  assert (E1 : Waveshape.safe (Fin 0.00001) = Fin 0.00001).
  { rewrite safe_fin. f_equal. apply Rmax_left. lra. }
  unfold Waveshape.calculateEnvelope. rewrite E0, E1. auto.
Qed.

(** The coefficient of the visualisation at the floor, for 44100 Hz. *)
Lemma floor_coeff : 0 < coeff 44100 0.00001 < / 3.
Proof.
  unfold coeff. rewrite decide_False by lra. split; [apply exp_pos|].
  replace (-1 / (44100 * 0.00001)) with (- (1 / 0.441)) by lra.
  rewrite exp_Ropp. apply Rinv_lt_contravar.
  - apply Rmult_lt_0_compat; [lra | apply exp_pos].
  - pose proof (exp_ineq1 (1 / 0.441)) as H. lra.
Qed.

(** The level in dB of a real between 0.1 and 1 is between -20 and 0. *)
Lemma dB_range (e : R) : / 10 < e < 1 -> -20 < dB e < 0.
Proof.
  intros [Hlo Hhi]. unfold dB. rewrite decide_True by lra.
  pose proof ln10_pos as H10.
  assert (Hl : - ln 10 < ln e).
  { rewrite <- ln_Rinv by lra. apply ln_increasing; lra. }
  assert (Hu : ln e < 0) by (rewrite <- ln_1; apply ln_increasing; lra).
  assert (Hi : 0 < / ln 10) by (apply Rinv_0_lt_compat; exact H10).
  assert (E : ln 10 * / ln 10 = 1) by (apply Rinv_r; lra).
  unfold Rdiv. split; nra.
Qed.

Lemma dB_one : dB 1 = 0.
Proof.
  unfold dB. rewrite decide_True by lra. rewrite ln_1. unfold Rdiv. lra.
Qed.

(** The only sample of the output for [unitImpulse]. *)
Lemma unitImpulse_output (a : R) :
  0 <= coeff 44100 a < 1 ->
  get (getChannelData (App.applyCustomCompression (hardKnee a) unitImpulse) 0) 0
  = Fin (1 * Rpower 10 (- curve (-20) 0 4 (dB (1 - coeff 44100 a)) / 20)).
Proof.
  intros Hc.
  rewrite (output_sample (hardKnee a) unitImpulse 0 0 [Fin 1])
    by (reflexivity || (simpl; lia)).
  simpl sampleRate. simpl attack. simpl release.
  rewrite !timeCoeff_fin. unfold envFollowerAt.
  cbn [run get lookup list_lookup default from_option].
  unfold Datatypes.id. cbn [Num.abs].
  rewrite Rabs_R1, follow_fin, decide_True by lra.
  rewrite (gainLinOf_fin (hardKnee a) (-20) 0 4 _ eq_refl eq_refl eq_refl)
    by lra.
  replace (1 + (0 - 1) * coeff 44100 a) with (1 - coeff 44100 a) by lra.
  reflexivity.
Qed.

End ZeroAttack.

(** C5, on the code. With an attack of 0 the compressor multiplies the
    sample rate by 0 and divides by the product: its coefficient is 0, not
    the coefficient of an attack of 0.00001 that the floored passes of the
    visualisation use, and its output on one full-scale sample is not its
    output for an attack of 0.00001. *)
Theorem zero_attack_not_floored :
  (sampleRate unitImpulse * attack (hardKnee 0))%num = Fin 0
  /\ App.timeCoeff (sampleRate unitImpulse) (attack (hardKnee 0)) = Fin 0
  /\ Num.exp (Fin (-1) / (sampleRate unitImpulse * Waveshape.safe (attack (hardKnee 0))))%num
     = Fin (exp (-1 / (44100 * 0.00001)))
  /\ App.applyCustomCompression (hardKnee 0) unitImpulse
     <> App.applyCustomCompression (hardKnee 0.00001) unitImpulse.
Proof.
  assert (E0 : coeff 44100 0 = 0).
  { unfold coeff. apply decide_True. lra. }
  split; [simpl; f_equal; lra|].
  split; [simpl sampleRate; simpl attack; rewrite timeCoeff_fin, E0; reflexivity|].
  split.
  - simpl sampleRate. simpl attack.
    destruct (visualisation_floors [] NaN NaN 0) as [-> _].
    simpl. rewrite div_fin by lra. reflexivity.
  - intros Heq.
    pose proof (unitImpulse_output 0 ltac:(rewrite E0; lra)) as H0.
    pose proof floor_coeff as Hc.
    pose proof (unitImpulse_output 0.00001 ltac:(lra)) as H1.
    rewrite Heq, H1, E0 in H0. injection H0 as H0.
    replace (1 - 0) with 1 in H0 by lra. rewrite dB_one in H0.
    pose proof (dB_range (1 - coeff 44100 0.00001) ltac:(lra)) as Hd.
    unfold curve in H0.
    rewrite !decide_True in H0 by lra.
    pose proof (Rpower_lt 10
                  (- ((0 - -20) * (1 - 1 / 4)) / 20)
                  (- ((dB (1 - coeff 44100 0.00001) - -20) * (1 - 1 / 4)) / 20)
                  ltac:(lra) ltac:(lra)) as Hlt.
    lra.
Qed.

(** ** The theorems at concrete inputs *)

Ltac finite_buffer :=
  split; [exists 44100; split; [reflexivity | lra]
         | repeat constructor; eexists; reflexivity].

Ltac finite_params := repeat split; eexists; reflexivity.

Lemma gain_curve_piecewise_witness :
  (App.gainReductionDb softKnee (App.kneeStart softKnee) (App.kneeEnd softKnee)
     (Fin (-30)) = Fin 0
   /\ Waveshape.gr (Fin (-20)) (Fin 10) (Fin 4) (Fin (-30)) = Fin 0)
  /\ (App.gainReductionDb softKnee (App.kneeStart softKnee) (App.kneeEnd softKnee)
        (Fin (-10)) = Fin ((-10 - -20) * (1 - 1 / 4))
      /\ Waveshape.gr (Fin (-20)) (Fin 10) (Fin 4) (Fin (-10))
         = Fin ((-10 - -20) * (1 - 1 / 4))).
Proof.
  split.
  - apply (gain_curve_piecewise softKnee (-20) 10 4 eq_refl eq_refl eq_refl (-30));
      lra.
  - apply (gain_curve_piecewise softKnee (-20) 10 4 eq_refl eq_refl eq_refl (-10));
      lra.
Defined.

Lemma gain_curve_monotone_witness :
  (App.gainReductionDb softKnee (App.kneeStart softKnee) (App.kneeEnd softKnee)
     (Fin (-22))
   <=? App.gainReductionDb softKnee (App.kneeStart softKnee) (App.kneeEnd softKnee)
         (Fin (-12)))%num = true
  /\ (Waveshape.gr (Fin (-20)) (Fin 10) (Fin 4) (Fin (-22))
      <=? Waveshape.gr (Fin (-20)) (Fin 10) (Fin 4) (Fin (-12)))%num = true.
Proof.
  apply (gain_curve_monotone softKnee (-20) 10 4 eq_refl eq_refl eq_refl
           (-22) (-12)); lra.
Defined.

Lemma compress_identity_witness :
  App.applyCustomCompression App.DEFAULT_PARAMS twoSamples = twoSamples.
Proof.
  apply (compress_identity App.DEFAULT_PARAMS twoSamples).
  - repeat constructor.
  - finite_buffer.
  - finite_params.
  - reflexivity.
Defined.

Lemma compress_bounded_witness :
  (Num.abs (get (getChannelData (App.applyCustomCompression softKnee twoSamples) 0) 1)
   <=? Num.abs (get (getChannelData twoSamples 0) 1))%num = true.
Proof.
  apply (compress_bounded softKnee twoSamples).
  - repeat constructor.
  - finite_buffer.
  - finite_params.
  - apply le_fin_true. lra.
  - apply le_fin_true. lra.
  - unfold numberOfChannels. simpl. lia.
  - simpl. lia.
Defined.


Lemma envelope_segment_peak_witness :
  concat (map (segment [Fin 0.5; Fin (-1); Fin 0.25] 2) (seq 0 2))
  = [Fin 0.5; Fin (-1); Fin 0.25]
  /\ exists m, peakOf (segment [Fin 0.5; Fin (-1); Fin 0.25] 2 0) = Fin m /\ 0 <= m.
Proof.
  destruct (envelope_segment_peak [Fin 0.5; Fin (-1); Fin 0.25]
              (Fin 44100) (Fin 0.003) (Fin 0.01) 2) as (_ & Hcat & Hpeak & _).
  split.
  - apply Hcat. lia.
  - destruct (Hpeak 0%nat) as (m & Em & Hm & _).
    + repeat constructor; eexists; reflexivity.
    + exists m. split; [exact Em | exact Hm].
Defined.

Lemma visualization_series_witness :
  exists env gr : Float32Array,
    Waveshape.envelope (Some twoSamples) softKnee 800 = Some env
    /\ Waveshape.gainReduction (Some twoSamples) softKnee 800 = Some gr
    /\ length env = 800%nat
    /\ length gr = 800%nat
    /\ Forall (fun v => exists x, v = Fin x /\ 0 <= x <= 1) env
    /\ Forall (fun v => exists x, v = Fin x /\ 0 <= x) gr.
Proof.
  apply (visualization_series twoSamples softKnee 800).
  - finite_buffer.
  - finite_params.
  - apply le_fin_true. lra.
Defined.

Lemma gain_reduction_ratio_one_witness :
  Waveshape.calculateGainReduction [Fin 0.5; NaN] (Fin 44100) (Fin (-20))
    (Fin 10) (Fin 1) NaN PInf 4
  = [Fin 0; Fin 0; Fin 0; Fin 0]
  /\ Waveshape.gainReduction (Some twoSamples) App.DEFAULT_PARAMS 4
     = Some [Fin 0; Fin 0; Fin 0; Fin 0].
Proof.
  destruct (gain_reduction_ratio_one [Fin 0.5; NaN] (Fin 44100) (Fin (-20))
              (Fin 10) (Fin 1) NaN PInf 4) as [Hseries Hcomp].
  - apply le_fin_true. lra.
  - split; [exact Hseries|]. apply Hcomp. reflexivity.
Defined.

Lemma normalize_idempotent_witness :
  (exists m, Compressor.maxPeak clipping = Fin m /\ 0 <= m)
  /\ Compressor.normalize (Compressor.normalize clipping)
     = Compressor.normalize clipping.
Proof.
  destruct (normalize_idempotent clipping) as (_ & Hmax & _ & Hidem).
  split; [|exact Hidem].
  destruct Hmax as (m & Em & Hm & _).
  - repeat constructor; eexists; reflexivity.
  - exists m. split; [exact Em | exact Hm].
Defined.

(** * Further properties of the code *)

(** ** The two gain-reduction curves *)

(** X1. The curve of the compressor and the curve of the visualisation are
    the same function of the level, for a real threshold and knee and every
    ratio: what is drawn is the reduction that is applied. *)
Theorem curves_agree (p : ICompressorParams) (t k : R) (l : num) :
  threshold p = Fin t -> knee p = Fin k ->
  App.gainReductionDb p (App.kneeStart p) (App.kneeEnd p) l
  = Waveshape.gr (threshold p) (knee p) (ratio p) l
  /\ App.toDb l = Waveshape.toDb l.
Proof.
  intros Ht Hk. split; [|reflexivity].
  unfold App.gainReductionDb, Waveshape.gr, App.kneeStart, App.kneeEnd.
  rewrite Ht, Hk. rewrite !div_fin by lra. simpl.
  destruct (l >? Fin (t + k / 2))%num; [reflexivity|].
  destruct (l >? Fin (t + - (k / 2)))%num; [|reflexivity]. simpl.
  case_bool_decide as Hpos; [|reflexivity].
  rewrite bool_decide_eq_true_2 by lra. reflexivity.
Qed.

Lemma curves_agree_witness :
  App.gainReductionDb softKnee (App.kneeStart softKnee) (App.kneeEnd softKnee) PInf
  = Waveshape.gr (threshold softKnee) (knee softKnee) (ratio softKnee) PInf
  /\ App.toDb PInf = Waveshape.toDb PInf.
Proof. apply (curves_agree softKnee (-20) 10 PInf); reflexivity. Defined.

(** The reduction grows at most [1 - 1/ratio] dB per dB of level. *)
Lemma curve_slope (t k r l1 l2 : R) :
  0 <= k -> 1 <= r -> l1 <= l2 ->
  curve t k r l2 - curve t k r l1 <= (1 - 1 / r) * (l2 - l1).
Proof.
  intros Hk0 Hr1 Hl. pose proof (ratio_factor r Hr1) as [Hc _].
  set (c := 1 - 1 / r) in *. unfold curve. fold c.
  destruct (decide (t + k / 2 < l1)) as [A1|A1].
  - rewrite decide_True by lra. nra.
  - destruct (decide (t - k / 2 < l1 /\ 0 < k)) as [[B1 Hpos]|B1].
    + set (x1 := l1 - (t - k / 2)) in *.
      assert (Hx1 : 0 < x1 <= k) by (unfold x1; lra).
      assert (Hi : 0 < / (2 * k)) by (apply Rinv_0_lt_compat; lra).
      assert (Ei : 2 * k * / (2 * k) = 1) by (apply Rinv_r; lra).
      destruct (decide (t + k / 2 < l2)) as [A2|A2].
      * assert (Hq : x1 - k / 2 <= x1 * x1 * / (2 * k)).
        { assert (0 <= (x1 - k) * (x1 - k)) by nra. nra. }
        unfold Rdiv at 1. unfold x1 in *. nra.
      * rewrite decide_True by (split; lra).
        set (x2 := l2 - (t - k / 2)) in *.
        assert (Hx2 : x1 <= x2 <= k) by (unfold x1, x2; lra).
        assert (Hq : x2 * x2 * / (2 * k) - x1 * x1 * / (2 * k) <= x2 - x1).
        { assert (0 <= (x2 - x1) * (2 * k - x1 - x2)) by nra. nra. }
        unfold Rdiv. replace (l2 - l1) with (x2 - x1) by (unfold x1, x2; lra).
        nra.
    + assert (Hl1 : l1 <= t - k / 2 \/ (k = 0 /\ l1 <= t)) by lra.
      destruct (decide (t + k / 2 < l2)) as [A2|A2].
      * nra.
      * destruct (decide (t - k / 2 < l2 /\ 0 < k)) as [[B2 Hpos]|B2]; [|nra].
        set (x2 := l2 - (t - k / 2)) in *.
        assert (Hx2 : 0 < x2 <= k) by (unfold x2; lra).
        assert (Hi : 0 < / (2 * k)) by (apply Rinv_0_lt_compat; lra).
        assert (Ei : 2 * k * / (2 * k) = 1) by (apply Rinv_r; lra).
        assert (Hq : x2 * x2 * / (2 * k) <= x2).
        { assert (0 <= x2 * (2 * k - x2)) by nra. nra. }
        assert (Hd : x2 <= l2 - l1) by (unfold x2; lra).
        unfold Rdiv. nra.
Qed.

(** X2. For a knee of at least 0 and a ratio of at least 1 the reduction is
    never negative and grows by at most [1 - 1/ratio] dB per dB of level, so
    that the level after reduction never falls when the level rises. *)
Theorem output_level_monotone (p : ICompressorParams) (t k r l1 l2 : R) :
  threshold p = Fin t -> knee p = Fin k -> ratio p = Fin r ->
  0 <= k -> 1 <= r -> l1 <= l2 ->
  exists g1 g2,
    App.gainReductionDb p (App.kneeStart p) (App.kneeEnd p) (Fin l1) = Fin g1
    /\ App.gainReductionDb p (App.kneeStart p) (App.kneeEnd p) (Fin l2) = Fin g2
    /\ 0 <= g1
    /\ g2 - g1 <= (1 - 1 / r) * (l2 - l1)
    /\ l1 - g1 <= l2 - g2.
Proof.
  intros Ht Hk Hr Hk0 Hr1 Hl.
  exists (curve t k r l1), (curve t k r l2).
  rewrite !(App_curve_cases p t k r Ht Hk Hr) by lra.
  split; [reflexivity|]. split; [reflexivity|].
  pose proof (curve_nonneg t k r l1 Hk0 Hr1) as H0.
  pose proof (curve_slope t k r l1 l2 Hk0 Hr1 Hl) as Hs.
  pose proof (ratio_factor r Hr1) as [Hc0 Hc1].
  split; [exact H0|]. split; [exact Hs|]. nra.
Qed.

Lemma output_level_monotone_witness :
  exists g1 g2,
    App.gainReductionDb softKnee (App.kneeStart softKnee) (App.kneeEnd softKnee)
      (Fin (-22)) = Fin g1
    /\ App.gainReductionDb softKnee (App.kneeStart softKnee) (App.kneeEnd softKnee)
         (Fin (-12)) = Fin g2
    /\ 0 <= g1
    /\ g2 - g1 <= (1 - 1 / 4) * (-12 - -22)
    /\ -22 - g1 <= -12 - g2.
Proof.
  apply (output_level_monotone softKnee (-20) 10 4 (-22) (-12));
    (reflexivity || lra).
Defined.

(** ** The sample-accurate compressor: shape, causality, polarity *)

(** X3. For every buffer and all parameters the output of the compressor
    has the sample rate, the channel count and the length of the input, and
    every channel of it holds [length] samples. *)
Theorem compress_shape (p : ICompressorParams) (buffer : AudioBuffer) :
  sampleRate (App.applyCustomCompression p buffer) = sampleRate buffer
  /\ numberOfChannels (App.applyCustomCompression p buffer)
     = numberOfChannels buffer
  /\ bufLength (App.applyCustomCompression p buffer) = bufLength buffer
  /\ wellFormed (App.applyCustomCompression p buffer).
Proof.
  destruct (applyCustomCompression_shape p buffer) as (Hw & Hn & Hl & Hs).
  auto.
Qed.

(** The envelope after [n] samples depends on these samples only. *)
Lemma envFollowerAt_prefix (a r : num) (in1 in2 : Float32Array) (n : nat) :
  (forall j, (j < n)%nat -> get in1 j = get in2 j) ->
  envFollowerAt a r in1 n = envFollowerAt a r in2 n.
Proof.
  intros Hsame. unfold envFollowerAt. induction n as [|n IH]; [reflexivity|].
  simpl. rewrite IH by (intros j Hj; apply Hsame; lia).
  rewrite (Hsame n) by lia. reflexivity.
Qed.

(** X4. The compressor is causal and treats channels independently: sample
    [i] of channel [ch] of the output is determined by the parameters, the
    sample rate and the samples 0 to [i] of channel [ch] of the input. *)
Theorem compress_causal (p : ICompressorParams) (b1 b2 : AudioBuffer)
    (ch i : nat) :
  sampleRate b1 = sampleRate b2 ->
  (ch < numberOfChannels b1)%nat -> (ch < numberOfChannels b2)%nat ->
  (i < bufLength b1)%nat -> (i < bufLength b2)%nat ->
  (forall j, (j <= i)%nat ->
     get (getChannelData b1 ch) j = get (getChannelData b2 ch) j) ->
  get (getChannelData (App.applyCustomCompression p b1) ch) i
  = get (getChannelData (App.applyCustomCompression p b2) ch) i.
Proof.
  intros Hrate Hc1 Hc2 Hi1 Hi2 Hsame.
  destruct (lookup_lt_is_Some_2 (channelData b1) ch Hc1) as [in1 E1].
  destruct (lookup_lt_is_Some_2 (channelData b2) ch Hc2) as [in2 E2].
  rewrite (output_sample p b1 ch i in1 E1 Hi1).
  rewrite (output_sample p b2 ch i in2 E2 Hi2).
  unfold getChannelData in Hsame. rewrite E1, E2 in Hsame. simpl in Hsame.
  rewrite Hrate, (Hsame i) by lia.
  rewrite (envFollowerAt_prefix _ _ in1 in2 (S i))
    by (intros j Hj; apply Hsame; lia).
  reflexivity.
Qed.

Lemma compress_causal_witness :
  get (getChannelData (App.applyCustomCompression softKnee twoSamples) 0) 0
  = get (getChannelData (App.applyCustomCompression softKnee
                           {| sampleRate := Fin 44100; bufLength := 3;
                              channelData := [[Fin 0.5; Fin 1; NaN]; []] |}) 0) 0.
Proof.
  apply (compress_causal softKnee twoSamples).
  - reflexivity.
  - unfold numberOfChannels. simpl. lia.
  - unfold numberOfChannels. simpl. lia.
  - simpl. lia.
  - simpl. lia.
  - intros j Hj. assert (j = 0%nat) as -> by lia. reflexivity.
Defined.

(** X5. For real samples and parameters with a ratio other than 0 the
    compressor never flips the polarity of a sample: the product of an
    input sample and the output sample at its place is never negative, and
    a sample of 0 gives an output sample of 0. *)
Theorem compress_polarity (p : ICompressorParams) (buffer : AudioBuffer)
    (ch i : nat) :
  wellFormed buffer -> finiteBuffer buffer -> finiteParams p ->
  ratio p <> Fin 0 ->
  (ch < numberOfChannels buffer)%nat -> (i < bufLength buffer)%nat ->
  exists x y,
    get (getChannelData buffer ch) i = Fin x
    /\ get (getChannelData (App.applyCustomCompression p buffer) ch) i = Fin y
    /\ 0 <= x * y
    /\ (x = 0 -> y = 0).
Proof.
  intros Hwf Hbuf Hpar Hr0 Hch Hi.
  destruct (output_gain p buffer Hwf Hbuf Hpar ch i Hr0 Hch Hi)
    as (t & k & r & x & e & _ & _ & _ & Hx & Hout).
  exists x, (x * Rpower 10 (- curve t k r (dB e) / 20)).
  assert (Hg : 0 < Rpower 10 (- curve t k r (dB e) / 20))
    by (unfold Rpower; apply exp_pos).
  split; [exact Hx|]. split; [exact Hout|].
  split; [nra|]. intros ->. lra.
Qed.

Lemma compress_polarity_witness :
  exists x y,
    get (getChannelData twoSamples 0) 1 = Fin x
    /\ get (getChannelData (App.applyCustomCompression softKnee twoSamples) 0) 1
       = Fin y
    /\ 0 <= x * y
    /\ (x = 0 -> y = 0).
Proof.
  apply (compress_polarity softKnee twoSamples).
  - repeat constructor.
  - finite_buffer.
  - finite_params.
  - intros [= E]. lra.
  - unfold numberOfChannels. simpl. lia.
  - simpl. lia.
Defined.

(** ** The envelope follower *)

(** For a positive sample rate and a time of at least 0 the coefficient is
    in [0, 1). *)
Lemma coeff_unit (rate t : R) : 0 < rate -> 0 <= t -> 0 <= coeff rate t < 1.
Proof.
  intros Hrate Ht. unfold coeff.
  destruct (decide (rate * t = 0)) as [|Hne]; [lra|].
  assert (Hp : 0 < rate * t) by nra.
  split; [left; apply exp_pos|]. apply exp_lt_1. unfold Rdiv.
  assert (0 < / (rate * t)) by (apply Rinv_0_lt_compat; exact Hp). lra.
Qed.

Lemma peakOf_snoc (l : list num) (x : num) :
  peakOf (l ++ [x])
  = if (Num.abs x >? peakOf l)%num then Num.abs x else peakOf l.
Proof. unfold peakOf. rewrite fold_left_app. reflexivity. Qed.

(** The envelope stays between 0 and the largest absolute sample so far,
    and is 0 after a sample only if that sample is 0. *)
Lemma envFollowerAt_bound (a r : R) (input : Float32Array) (n : nat) :
  0 <= a < 1 -> 0 <= r < 1 ->
  Forall Num.finite input -> (n <= length input)%nat ->
  exists e m,
    envFollowerAt (Fin a) (Fin r) input n = Fin e
    /\ peakOf (take n input) = Fin m
    /\ 0 <= e <= m
    /\ forall n' x, n = S n' -> input !! n' = Some (Fin x) -> e = 0 -> x = 0.
Proof.
  intros Ha Hr Hfin. induction n as [|n IH]; intros Hn.
  - exists 0, 0. split; [reflexivity|]. split; [reflexivity|].
    split; [lra|]. intros n' x [=].
  - destruct IH as (e & m & He & Hm & Hem & _); [lia|].
    destruct (lookup_lt_is_Some_2 input n) as [s Hs]; [lia|].
    destruct (Forall_lookup_1 _ _ _ _ Hfin Hs) as [x ->].
    rewrite (take_S_r _ _ _ Hs), peakOf_snoc, Hm.
    unfold envFollowerAt in *. cbn [run]. rewrite He.
    unfold get. rewrite Hs. cbn [default from_option]. unfold Datatypes.id.
    cbn [Num.abs]. rewrite follow_fin.
    pose proof (Rabs_pos x) as Hx.
    exists (Rabs x + (e - Rabs x) * (if decide (e < Rabs x) then a else r)),
      (if decide (m < Rabs x) then Rabs x else m).
    split; [reflexivity|]. split.
    { simpl. case_bool_decide; destruct (decide (m < Rabs x)); (reflexivity || lra). }
    split.
    + destruct (decide (e < Rabs x)); destruct (decide (m < Rabs x)); nra.
    + intros n' x' [= <-] Hs'. rewrite Hs in Hs'. injection Hs' as <-.
      intros E. assert (E0 : Rabs x = 0) by (destruct (decide (e < Rabs x)); nra).
      destruct (Req_dec x 0) as [|Hne]; [assumption|].
      apply Rabs_no_R0 in Hne. contradiction.
Qed.

(** X6. For a positive sample rate, an attack and a release of at least 0
    and real samples, the envelope follower of the compressor stays between
    0 and the largest absolute sample met so far. *)
Theorem envelope_below_peak (p : ICompressorParams) (rate a r : R)
    (input : Float32Array) (n : nat) :
  0 < rate -> 0 <= a -> 0 <= r ->
  Forall Num.finite input -> (n <= length input)%nat ->
  exists e m,
    fst (for_range 0 n
           (App.sampleStep p (App.timeCoeff (Fin rate) (Fin a))
              (App.timeCoeff (Fin rate) (Fin r)) (App.kneeStart p)
              (App.kneeEnd p) input)
           (Fin 0, newFloat32Array n)) = Fin e
    /\ peakOf (take n input) = Fin m
    /\ 0 <= e <= m.
Proof.
  intros Hrate Ha Hr Hfin Hn.
  erewrite (for_range_scan _
              (fun i env =>
                 App.follow (App.timeCoeff (Fin rate) (Fin a))
                   (App.timeCoeff (Fin rate) (Fin r)) env
                   (Num.abs (get input i)))
              (fun i env => (get input i * gainLinOf p env)%num));
    [| intros i s arr; reflexivity | apply length_replicate].
  cbn [fst]. rewrite !timeCoeff_fin.
  destruct (envFollowerAt_bound (coeff rate a) (coeff rate r) input n)
    as (e & m & He & Hm & Hem & _);
    [apply coeff_unit; lra | apply coeff_unit; lra | exact Hfin | exact Hn |].
  exists e, m. auto.
Qed.

Lemma envelope_below_peak_witness :
  exists e m,
    fst (for_range 0 2
           (App.sampleStep softKnee (App.timeCoeff (Fin 44100) (Fin 0))
              (App.timeCoeff (Fin 44100) (Fin 0.01)) (App.kneeStart softKnee)
              (App.kneeEnd softKnee) [Fin 0.5; Fin (-1)])
           (Fin 0, newFloat32Array 2)) = Fin e
    /\ peakOf (take 2 [Fin 0.5; Fin (-1)]) = Fin m
    /\ 0 <= e <= m.
Proof.
  apply (envelope_below_peak softKnee 44100 0 0.01 [Fin 0.5; Fin (-1)] 2).
  - lra.
  - lra.
  - lra.
  - repeat constructor; eexists; reflexivity.
  - simpl. lia.
Defined.

(** Two well-formed buffers of one shape with the same samples are equal. *)
Lemma buffer_ext (b1 b2 : AudioBuffer) :
  wellFormed b1 -> wellFormed b2 ->
  sampleRate b1 = sampleRate b2 -> bufLength b1 = bufLength b2 ->
  numberOfChannels b1 = numberOfChannels b2 ->
  (forall ch i, (ch < numberOfChannels b2)%nat -> (i < bufLength b2)%nat ->
     get (getChannelData b1 ch) i = get (getChannelData b2 ch) i) ->
  b1 = b2.
Proof.
  destruct b1 as [r1 l1 c1], b2 as [r2 l2 c2].
  unfold wellFormed, numberOfChannels, getChannelData, get. simpl.
  intros Hw1 Hw2 -> -> Hn Hsame. f_equal.
  apply list_eq. intros ch.
  destruct (decide (ch < length c2)%nat) as [Hch|Hch].
  - destruct (lookup_lt_is_Some_2 c1 ch) as [d1 E1]; [lia|].
    destruct (lookup_lt_is_Some_2 c2 ch Hch) as [d2 E2].
    rewrite E1, E2. f_equal.
    pose proof (Forall_lookup_1 _ _ _ _ Hw1 E1) as L1.
    pose proof (Forall_lookup_1 _ _ _ _ Hw2 E2) as L2. simpl in L1, L2.
    apply list_eq. intros i.
    destruct (decide (i < l2)%nat) as [Hi|Hi].
    + specialize (Hsame ch i Hch Hi). rewrite E1, E2 in Hsame. simpl in Hsame.
      destruct (lookup_lt_is_Some_2 d1 i) as [x1 X1]; [lia|].
      destruct (lookup_lt_is_Some_2 d2 i) as [x2 X2]; [lia|].
      rewrite X1, X2 in *. simpl in Hsame. congruence.
    + rewrite !lookup_ge_None_2 by lia. reflexivity.
  - rewrite !lookup_ge_None_2 by lia. reflexivity.
Qed.

(** A level at or below the knee start, in dB. *)
Lemma dB_below (e d : R) : 0 < e <= Rpower 10 (d / 20) -> dB e <= d.
Proof.
  intros [Hpos Hle]. unfold dB. rewrite decide_True by exact Hpos.
  pose proof ln10_pos as H10.
  assert (Hln : ln e <= d / 20 * ln 10).
  { destruct Hle as [Hlt|Heq].
    - left. rewrite <- (ln_exp (d / 20 * ln 10)).
      apply ln_increasing; [exact Hpos | exact Hlt].
    - right. rewrite Heq. unfold Rpower. apply ln_exp. }
  assert (Hq : ln e * / ln 10 <= d / 20).
  { apply (Rmult_le_reg_r (ln 10)); [exact H10|].
    rewrite Rmult_assoc, Rinv_l by lra. lra. }
  unfold Rdiv in *. lra.
Qed.

(** X7. A signal that stays at or below the knee start passes unchanged:
    for real samples none of which exceeds [10^(kneeStart / 20)] in
    magnitude, a knee, an attack and a release of at least 0 and a ratio
    other than 0, the compressor returns a buffer equal to its input. *)
Theorem compress_transparent_below_knee (p : ICompressorParams)
    (buffer : AudioBuffer) :
  wellFormed buffer -> finiteBuffer buffer -> finiteParams p ->
  ratio p <> Fin 0 ->
  (Fin 0 <=? knee p)%num = true ->
  (Fin 0 <=? attack p)%num = true -> (Fin 0 <=? release p)%num = true ->
  Forall (Forall (fun x =>
            (Num.abs x <=? Num.pow10 (App.kneeStart p / Fin 20))%num = true))
    (channelData buffer) ->
  App.applyCustomCompression p buffer = buffer.
Proof.
  intros Hwf Hbuf Hpar Hr0 Hknee Hatt Hrel Hquiet.
  destruct (applyCustomCompression_shape p buffer) as (Hw & Hn & Hl & Hs).
  apply buffer_ext; try assumption.
  intros ch i Hch Hi.
  destruct Hpar as ([t Ht] & [k Hk] & [r Hr] & [a Ha] & [rl Hrl]).
  destruct (sample_lookup buffer ch i Hwf Hbuf Hch Hi)
    as (input & x & Hin & Hlen & Hfin & Hx).
  destruct Hbuf as [(rate & Hrate & Hpos) _].
  rewrite Hk in Hknee. rewrite Ha in Hatt. rewrite Hrl in Hrel.
  apply le_fin_iff in Hknee. apply le_fin_iff in Hatt. apply le_fin_iff in Hrel.
  assert (Hr0' : r <> 0) by (intros ->; apply Hr0; exact Hr).
  rewrite (output_sample p buffer ch i input Hin Hi).
  rewrite Hrate, Ha, Hrl, !timeCoeff_fin.
  destruct (envFollowerAt_bound (coeff rate a) (coeff rate rl) input (S i))
    as (e & m & He & Hm & Hem & Hzero);
    [apply coeff_unit; lra | apply coeff_unit; lra | exact Hfin | lia |].
  rewrite He, (gainLinOf_fin p t k r e Ht Hk Hr Hr0').
  unfold getChannelData. rewrite Hin. simpl. unfold get. rewrite Hx. simpl.
  f_equal.
  destruct (decide (e = 0)) as [E0|Hne].
  - rewrite (Hzero i x eq_refl Hx E0). lra.
  - assert (Hks : App.kneeStart p = Fin (t - k / 2)).
    { unfold App.kneeStart. rewrite Ht, Hk, div_fin by lra. reflexivity. }
    assert (Hbound : m <= Rpower 10 ((t - k / 2) / 20)).
    { pose proof (Forall_lookup_1 _ _ _ _ Hquiet Hin) as Hq. simpl in Hq.
      rewrite Hks, div_fin in Hq by lra. simpl in Hq.
      destruct (peakOf_max (take (S i) input)) as (m' & Em & _ & _ & Hwit);
        [apply Forall_take, Hfin|].
      rewrite Hm in Em. injection Em as <-.
      destruct Hwit as [->|(y & Hy & ->)].
      - left. unfold Rpower. apply exp_pos.
      - assert (Hy' : Fin y ∈ input).
        { eapply list_elem_of_lookup. apply list_elem_of_lookup in Hy as [j Hj].
          exists j. apply lookup_take_Some in Hj as [Hj _]. exact Hj. }
        rewrite Forall_forall in Hq. specialize (Hq _ Hy'). simpl in Hq.
        apply bool_decide_eq_true in Hq. exact Hq. }
    rewrite curve_below; [rewrite pow10_zero; lra | exact Hknee |].
    apply dB_below. lra.
Qed.

Lemma compress_transparent_below_knee_witness :
  App.applyCustomCompression thresholdAtFullScale twoSamples = twoSamples.
Proof.
  assert (Hle : forall x : R, Rabs x <= 1 ->
            (Num.abs (Fin x)
             <=? Num.pow10 (App.kneeStart thresholdAtFullScale / Fin 20))%num
            = true).
  { intros x Hx. unfold App.kneeStart. simpl.
    repeat (rewrite div_fin by lra; simpl).
    apply bool_decide_eq_true_2.
    replace ((0 + - (0 / 2)) / 20) with 0 by lra.
    rewrite Rpower_O by lra. exact Hx. }
  apply (compress_transparent_below_knee thresholdAtFullScale twoSamples).
  - repeat constructor.
  - finite_buffer.
  - finite_params.
  - intros [= E]. lra.
  - apply le_fin_true. lra.
  - apply le_fin_true. lra.
  - apply le_fin_true. lra.
  - repeat constructor; apply Hle.
    + rewrite Rabs_pos_eq; lra.
    + rewrite Rabs_left; lra.
Defined.

(** ** The drawn series: bounds and the floor of the times *)

Lemma segment_subset (data : Float32Array) (step i : nat) (x : num) :
  x ∈ segment data step i -> x ∈ data.
Proof.
  unfold segment. intros Hx. apply list_elem_of_lookup in Hx as [j Hj].
  apply lookup_take_Some in Hj as [Hj _]. rewrite lookup_drop in Hj.
  eapply list_elem_of_lookup. eauto.
Qed.

Lemma segmentState_bound (a r M : R) (peaks : nat -> num) (n : nat) :
  0 < a < 1 -> 0 < r < 1 ->
  (forall j, exists m, peaks j = Fin m /\ 0 <= m <= M) ->
  exists s, segmentState codeUpdate (Fin a) (Fin r) peaks n = Fin s /\ 0 <= s <= M.
Proof.
  intros Ha Hr Hpeaks.
  assert (HM : 0 <= M) by (destruct (Hpeaks 0%nat) as (m & _ & Hm); lra).
  induction n as [|n (s & Es & Hs)].
  - exists 0. split; [reflexivity|lra].
  - cbn [segmentState]. rewrite Es. destruct (Hpeaks n) as (m & Em & Hm).
    rewrite Em. destruct (Fin m >? Fin s)%num; rewrite codeUpdate_fin;
      (eexists; split; [reflexivity|nra]).
Qed.

(** X8. For a positive sample rate and real samples, every value of the
    envelope series is between 0 and the largest absolute sample of the
    data (and at most 1): silence, or no data at all, gives an envelope of
    zeros. *)
Theorem envelope_series_below_peak (data : Float32Array) (rate attack release : R)
    (outputLength : nat) :
  0 < rate -> Forall Num.finite data ->
  exists M,
    peakOf data = Fin M
    /\ Forall (fun v => exists x, v = Fin x /\ 0 <= x /\ x <= M /\ x <= 1)
         (Waveshape.calculateEnvelope data (Fin rate) (Fin attack) (Fin release)
            outputLength).
Proof.
  intros Hrate Hfin.
  destruct (peakOf_max data Hfin) as (M & EM & HM & Hall & _).
  exists M. split; [exact EM|].
  rewrite calculateEnvelope_scan. unfold segmentEnvelope.
  destruct (envelope_coeff_range rate attack Hrate) as (a & Ea & Ha).
  destruct (envelope_coeff_range rate release Hrate) as (r & Er & Hr).
  unfold Waveshape.safe in Ea, Er. rewrite Ea, Er.
  apply Forall_fmap, Forall_forall. intros i _. unfold compose.
  destruct (segmentState_bound a r M
              (fun j => peakOf (segment data
                                  (ceilDiv (length data) outputLength) j))
              (S i) Ha Hr) as (s & Es & Hs).
  - intros j.
    destruct (peakOf_max (segment data (ceilDiv (length data) outputLength) j))
      as (m & Em & Hm & _ & Hwit).
    + unfold segment. apply Forall_take, Forall_drop, Hfin.
    + exists m. split; [exact Em|]. split; [exact Hm|].
      destruct Hwit as [->|(y & Hy & ->)]; [exact HM|].
      apply Hall. eapply segment_subset. exact Hy.
  - rewrite Es. unfold Num.min. simpl.
    case_bool_decide; eexists; (split; [reflexivity|lra]).
Qed.

Lemma envelope_series_below_peak_witness :
  exists M,
    peakOf [Fin 0.5; Fin (-1); Fin 0.25] = Fin M
    /\ Forall (fun v => exists x, v = Fin x /\ 0 <= x /\ x <= M /\ x <= 1)
         (Waveshape.calculateEnvelope [Fin 0.5; Fin (-1); Fin 0.25] (Fin 44100)
            (Fin 0.003) (Fin 0.01) 2).
Proof.
  apply (envelope_series_below_peak [Fin 0.5; Fin (-1); Fin 0.25] 44100
           0.003 0.01 2).
  - lra.
  - repeat constructor; eexists; reflexivity.
Defined.

Lemma dB_unit (v : R) : 0 <= v <= 1 -> dB v <= 0.
Proof.
  intros Hv. destruct (decide (0 < v)) as [Hpos|Hz].
  - apply dB_below. split; [exact Hpos|].
    replace (0 / 20) with 0 by lra. rewrite Rpower_O by lra. lra.
  - unfold dB. rewrite decide_False by exact Hz. lra.
Qed.

(** X9. For a positive sample rate, a knee of at least 0, a ratio of at
    least 1 and envelope values in [0, 1], every value of the gain-reduction
    series is between 0 and the reduction that the curve gives to a
    full-scale level of 0 dB. *)
Theorem gain_reduction_series_bound (envelope : Float32Array)
    (rate t k r attack release : R) (outputLength : nat) :
  0 < rate -> 0 <= k -> 1 <= r ->
  Forall (fun v => exists x, v = Fin x /\ 0 <= x <= 1) envelope ->
  exists G,
    Waveshape.gr (Fin t) (Fin k) (Fin r) (Fin 0) = Fin G
    /\ Forall (fun v => exists x, v = Fin x /\ 0 <= x <= G)
         (Waveshape.calculateGainReduction envelope (Fin rate) (Fin t) (Fin k)
            (Fin r) (Fin attack) (Fin release) outputLength).
Proof.
  intros Hrate Hk Hr1 Henv.
  exists (curve t k r 0). split; [apply Waveshape_gr_cases; lra|].
  pose proof (curve_nonneg t k r 0 Hk Hr1) as HG.
  destruct (Fin r <=? Fin 1)%num eqn:Hratio.
  - unfold Waveshape.calculateGainReduction. rewrite Hratio.
    apply Forall_replicate. exists 0. split; [reflexivity|lra].
  - destruct (calculateGainReduction_scan envelope (Fin rate) (Fin t) (Fin k)
                (Fin r) (Fin attack) (Fin release) outputLength Hratio)
      as (step & a & c & Ea & Ec & ->).
    destruct (safe_coeff_range rate attack 0.001 Hrate) as (a' & Ea' & Ha); [lra|].
    destruct (safe_coeff_range rate release 0.001 Hrate) as (c' & Ec' & Hc); [lra|].
    rewrite Ea' in Ea. rewrite Ec' in Ec. subst a c.
    apply Forall_fmap, Forall_forall. intros i _. unfold compose.
    apply (run_invariant (fun v => exists x, v = Fin x /\ 0 <= x <= curve t k r 0)).
    + exists 0. split; [reflexivity|lra].
    + intros j s (g & -> & Hg).
      set (z := Z.min (Z.of_nat (j * step)) (Z.of_nat (length envelope) - 1)).
      assert (Hx : exists x,
                 Waveshape.gr (Fin t) (Fin k) (Fin r)
                   (Waveshape.toDb (getZ envelope z)) = Fin x
                 /\ 0 <= x <= curve t k r 0).
      { unfold getZ, get. destruct (z <? 0)%Z.
        - change (Waveshape.toDb NaN) with (Fin (-100)).
          rewrite Waveshape_gr_cases by lra. eexists. split; [reflexivity|].
          split; [apply curve_nonneg; assumption|].
          apply curve_mono; (assumption || lra).
        - destruct (envelope !! Z.to_nat z) as [v|] eqn:Ev.
          + destruct (Forall_lookup_1 _ _ _ _ Henv Ev) as (x & -> & Hx).
            simpl. rewrite Waveshape_toDb_fin, Waveshape_gr_cases by lra.
            eexists. split; [reflexivity|].
            split; [apply curve_nonneg; assumption|].
            apply curve_mono; try assumption. apply dB_unit, Hx.
          + simpl. change (Waveshape.toDb NaN) with (Fin (-100)).
            rewrite Waveshape_gr_cases by lra. eexists. split; [reflexivity|].
            split; [apply curve_nonneg; assumption|].
            apply curve_mono; (assumption || lra). }
      destruct Hx as (x & Ex & Hx).
      rewrite Ex, smoothGr_fin. eexists. split; [reflexivity|].
      destruct (decide (g < x)); nra.
Qed.

Lemma gain_reduction_series_bound_witness :
  exists G,
    Waveshape.gr (Fin (-20)) (Fin 10) (Fin 4) (Fin 0) = Fin G
    /\ Forall (fun v => exists x, v = Fin x /\ 0 <= x <= G)
         (Waveshape.calculateGainReduction [Fin 0.5; Fin 1] (Fin 44100)
            (Fin (-20)) (Fin 10) (Fin 4) (Fin 0.003) (Fin 0.01) 2).
Proof.
  apply (gain_reduction_series_bound [Fin 0.5; Fin 1] 44100 (-20) 10 4
           0.003 0.01 2).
  - lra.
  - lra.
  - lra.
  - repeat constructor; eexists; (split; [reflexivity|lra]).
Defined.

Lemma safe_floor (a : R) : a <= 0.00001 -> Waveshape.safe (Fin a) = Fin 0.00001.
Proof. intros Ha. rewrite safe_fin. f_equal. apply Rmax_right, Ha. Qed.

(** X10. The passes of the visualisation floor the attack and the release
    at 0.00001 s: for every time at or below the floor, 0 and negative times
    included, both series are the series for 0.00001. *)
Theorem visualisation_time_floor (data envelope : Float32Array)
    (rate thresholdDb kneeDb r other : num) (outputLength : nat) (a : R) :
  a <= 0.00001 ->
  Waveshape.calculateEnvelope data rate (Fin a) other outputLength
  = Waveshape.calculateEnvelope data rate (Fin 0.00001) other outputLength
  /\ Waveshape.calculateEnvelope data rate other (Fin a) outputLength
     = Waveshape.calculateEnvelope data rate other (Fin 0.00001) outputLength
  /\ Waveshape.calculateGainReduction envelope rate thresholdDb kneeDb r
       (Fin a) other outputLength
     = Waveshape.calculateGainReduction envelope rate thresholdDb kneeDb r
         (Fin 0.00001) other outputLength
  /\ Waveshape.calculateGainReduction envelope rate thresholdDb kneeDb r
       other (Fin a) outputLength
     = Waveshape.calculateGainReduction envelope rate thresholdDb kneeDb r
         other (Fin 0.00001) outputLength.
Proof.
  intros Ha.
  pose proof (safe_floor a Ha) as E.
  pose proof (safe_floor 0.00001 ltac:(lra)) as E'.
  unfold Waveshape.calculateEnvelope, Waveshape.calculateGainReduction.
  rewrite E, E'. auto.
Qed.

Lemma visualisation_time_floor_witness :
  Waveshape.calculateEnvelope [Fin 0.5] (Fin 44100) (Fin 0) (Fin 0.01) 3
  = Waveshape.calculateEnvelope [Fin 0.5] (Fin 44100) (Fin 0.00001) (Fin 0.01) 3.
Proof.
  apply (visualisation_time_floor [Fin 0.5] [] (Fin 44100) NaN NaN NaN
           (Fin 0.01) 3 0).
  lra.
Defined.

(** ** The knob *)

Lemma round_range (lo hi : Z) (x : R) :
  IZR lo <= x <= IZR hi -> (lo <= Zfloor (x + / 2) <= hi)%Z.
Proof.
  intros [Hlo Hhi]. split.
  - apply Zfloor_lub. lra.
  - pose proof (Zfloor_bound (x + / 2)) as [Hf _].
    assert (Hlt : IZR (Zfloor (x + / 2)) < IZR (hi + 1)).
    { rewrite plus_IZR. lra. }
    apply lt_IZR in Hlt. lia.
Qed.

Lemma round_near (x : R) : Rabs (IZR (Zfloor (x + / 2)) - x) <= / 2.
Proof.
  pose proof (Zfloor_bound (x + / 2)) as [Hlo Hhi].
  apply Rabs_le. lra.
Qed.

(** [Math.max(lo, Math.min(hi, v))] on reals with [lo <= hi]. *)
Lemma clamp_fin (lo hi v : R) :
  lo <= hi ->
  exists c, Num.max (Fin lo) (Num.min (Fin hi) (Fin v)) = Fin c /\ lo <= c <= hi.
Proof.
  intros Hle. unfold Num.max, Num.min. simpl.
  destruct (bool_decide_reflect (v < hi)); simpl;
    case_bool_decide; eexists; (split; [reflexivity|lra]).
Qed.

(** The value of a mouse move, for bounds that are multiples of the step. *)
Lemma handleMouseMove_fin (m M : Z) (min max step startY startValue clientY : R) :
  0 < step -> min = IZR m * step -> max = IZR M * step -> (m <= M)%Z ->
  exists n : Z,
    Knob.handleMouseMove (Fin min) (Fin max) (Fin step) (Fin startY)
      (Fin startValue) (Fin clientY) = Fin (IZR n * step)
    /\ (m <= n <= M)%Z.
Proof.
  intros Hstep Hmin Hmax HmM.
  assert (HmM' : IZR m <= IZR M) by (apply IZR_le; exact HmM).
  assert (Hle : min <= max) by (subst min max; nra).
  unfold Knob.handleMouseMove. cbn [Num.sub Num.add Num.neg].
  rewrite div_fin by lra. cbn [Num.mul Num.add].
  destruct (clamp_fin min max
              (startValue + (startY + - clientY) * ((max + - min) / 150)) Hle)
    as (c & -> & Hc).
  rewrite div_fin by lra. cbn [mathRound Num.mul].
  assert (Hq : IZR m <= c / step <= IZR M).
  { unfold Rdiv. subst min max. split.
    - apply (Rmult_le_reg_r step); [exact Hstep|].
      rewrite Rmult_assoc, Rinv_l by lra. lra.
    - apply (Rmult_le_reg_r step); [exact Hstep|].
      rewrite Rmult_assoc, Rinv_l by lra. lra. }
  exists (Zfloor (c / step + / 2)). split; [reflexivity|].
  apply round_range, Hq.
Qed.

(** X11. A mouse move on a knob whose bounds are whole multiples of its
    positive step passes to [onChange] a whole multiple of the step that
    lies within the bounds, whatever the drag is. *)
Theorem knob_value_in_range (m M : Z) (min max step startY startValue clientY : R) :
  0 < step -> min = IZR m * step -> max = IZR M * step -> (m <= M)%Z ->
  exists n : Z,
    Knob.handleMouseMove (Fin min) (Fin max) (Fin step) (Fin startY)
      (Fin startValue) (Fin clientY) = Fin (IZR n * step)
    /\ (m <= n <= M)%Z
    /\ min <= IZR n * step <= max.
Proof.
  intros Hstep Hmin Hmax HmM.
  destruct (handleMouseMove_fin m M min max step startY startValue clientY
              Hstep Hmin Hmax HmM) as (n & E & Hn1 & Hn2).
  exists n. split; [exact E|]. split; [lia|].
  apply IZR_le in Hn1. apply IZR_le in Hn2. subst min max. split; nra.
Qed.

Lemma knob_value_in_range_witness :
  exists n : Z,
    Knob.handleMouseMove (Fin 1) (Fin 20) (Fin 0.5) (Fin 300) (Fin 4) (Fin 120)
    = Fin (IZR n * 0.5)
    /\ (2 <= n <= 40)%Z
    /\ 1 <= IZR n * 0.5 <= 20.
Proof.
  apply (knob_value_in_range 2 40 1 20 0.5 300 4 120); (lra || lia).
Defined.

(** ** Colours *)

Lemma ratioInfluence_fin (ratio : R) :
  exists ri, Canvas.ratioInfluence (Fin ratio) = Fin ri /\ 0 <= ri <= 1.
Proof.
  unfold Canvas.ratioInfluence. cbn [Num.le Num.sub Num.add Num.neg].
  case_bool_decide as Hr.
  - exists 0. split; [reflexivity|lra].
  - rewrite div_fin by lra. unfold Num.min. cbn [Num.gt].
    case_bool_decide; eexists; (split; [reflexivity|lra]).
Qed.

Lemma unit_fraction (lo hi v : R) : lo <= v < hi -> 0 <= (v - lo) / (hi - lo) < 1.
Proof.
  intros [Hlo Hhi].
  assert (Hd : 0 < hi - lo) by lra.
  assert (Hi : 0 < / (hi - lo)) by (apply Rinv_0_lt_compat; exact Hd).
  assert (E : (hi - lo) * / (hi - lo) = 1) by (apply Rinv_r; lra).
  unfold Rdiv. split; nra.
Qed.

(** The colour for a saturation sum [s >= 0] and an alpha sum
    [al >= 0.35]. *)
Lemma color_tail (s al : R) :
  0 <= s -> 0.35 <= al ->
  exists (r g : Z) (a : R),
    {| red := mathRound (Fin 80 + Num.min (Fin s) (Fin 1) * Fin 50);
       green := mathRound (Fin 200 + Num.min (Fin s) (Fin 1) * Fin 55);
       blue := mathRound (Fin 80 + Num.min (Fin s) (Fin 1) * Fin 50);
       alpha := Num.min (Fin al) (Fin 0.85) |}
    = {| red := Fin (IZR r); green := Fin (IZR g); blue := Fin (IZR r);
         alpha := Fin a |}
    /\ (80 <= r <= 130)%Z /\ (200 <= g <= 255)%Z /\ 0.35 <= a <= 0.85.
Proof.
  intros Hs Hal.
  assert (Hsat : exists fs, Num.min (Fin s) (Fin 1) = Fin fs /\ 0 <= fs <= 1).
  { unfold Num.min. cbn [Num.gt].
    case_bool_decide; eexists; (split; [reflexivity|lra]). }
  assert (Halpha : exists a, Num.min (Fin al) (Fin 0.85) = Fin a /\ 0.35 <= a <= 0.85).
  { unfold Num.min. cbn [Num.gt].
    case_bool_decide; eexists; (split; [reflexivity|lra]). }
  destruct Hsat as (fs & -> & Hfs). destruct Halpha as (a & -> & Ha).
  cbn [Num.mul Num.add mathRound].
  exists (Zfloor (80 + fs * 50 + / 2)), (Zfloor (200 + fs * 55 + / 2)), a.
  split; [reflexivity|].
  split; [apply round_range; simpl; lra|].
  split; [apply round_range; simpl; lra|exact Ha].
Qed.

Lemma getEnvelopeColor_fin (env thr ks ke ri : R) :
  0 <= ri <= 1 ->
  validColor (Canvas.getEnvelopeColor (Fin env) (Fin thr) (Fin ks) (Fin ke) (Fin ri)).
Proof.
  intros Hri. unfold validColor, Canvas.getEnvelopeColor. cbn [Num.gt].
  assert (Hboost : exists rb,
             (if bool_decide (thr < env) then (Fin ri * Fin 0.3)%num else Fin 0)
             = Fin rb /\ 0 <= rb <= 0.3).
  { case_bool_decide; eexists; (split; [reflexivity|lra]). }
  destruct Hboost as (rb & -> & Hrb).
  destruct (bool_decide_reflect (env < ks)) as [H1|H1].
  - cbn [Num.add]. apply color_tail; lra.
  - destruct (bool_decide_reflect (env < thr)) as [H2|H2].
    + cbn [Num.sub Num.add Num.neg]. rewrite div_fin by lra.
      cbn [Num.mul Num.add].
      pose proof (unit_fraction ks thr env ltac:(lra)) as Ht.
      unfold Rminus in Ht. apply color_tail; nra.
    + destruct (bool_decide_reflect (env < ke)) as [H3|H3].
      * cbn [Num.sub Num.add Num.neg]. rewrite div_fin by lra.
        cbn [Num.mul Num.add].
        pose proof (unit_fraction thr ke env ltac:(lra)) as Ht.
        unfold Rminus in Ht. apply color_tail; nra.
      * cbn [Num.add]. apply color_tail; lra.
Qed.

(** X12. For real arguments, [getEnvelopeColor] with the ratio influence of
    line 474 always gives a valid colour: red and blue are the same whole
    number between 80 and 130, green is a whole number between 200 and 255,
    and alpha is between 0.35 and 0.85; no quotient of it divides by zero,
    and the ratio influence is between 0 and 1. *)
Theorem envelope_color_valid (env thr ks ke ratio : R) :
  validColor
    (Canvas.getEnvelopeColor (Fin env) (Fin thr) (Fin ks) (Fin ke)
       (Canvas.ratioInfluence (Fin ratio)))
  /\ exists ri, Canvas.ratioInfluence (Fin ratio) = Fin ri /\ 0 <= ri <= 1.
Proof.
  destruct (ratioInfluence_fin ratio) as (ri & E & Hri).
  split; [|exists ri; auto]. rewrite E. apply getEnvelopeColor_fin, Hri.
Qed.

(** ** The canvas *)

Lemma for_range_zero_run {St : Type} (n : nat) (next : nat -> St -> St) (s : St) :
  for_range 0 n next s = run next n s.
Proof.
  induction n as [|n IH]; [reflexivity|].
  rewrite for_range_snoc by lia. simpl. rewrite IH. reflexivity.
Qed.

(** A loop that only appends to the context. *)
Lemma for_range_append {A : Type} (body : nat -> list A -> list A)
    (f : nat -> list A) (lo hi : nat) (ctx : list A) :
  (forall i c, body i c = c ++ f i) ->
  for_range lo hi body ctx = ctx ++ concat (map f (seq lo (hi - lo))).
Proof.
  intros Hbody. unfold for_range. generalize (seq lo (hi - lo)). intros l.
  revert ctx. induction l as [|i l IH]; intros ctx.
  - simpl. rewrite app_nil_r. reflexivity.
  - simpl. rewrite Hbody, IH, <- app_assoc. reflexivity.
Qed.

Lemma Forall_concat_map {A B : Type} (P : B -> Prop) (f : A -> list B) (l : list A) :
  (forall x, x ∈ l -> Forall P (f x)) -> Forall P (concat (map f l)).
Proof.
  intros H. apply Forall_concat, Forall_fmap, Forall_forall.
  intros x Hx. apply H, Hx.
Qed.

Lemma length_concat_map_const {A B : Type} (f : A -> list B) (l : list A) (k : nat) :
  (forall x, length (f x) = k) -> length (concat (map f l)) = (k * length l)%nat.
Proof.
  intros H. induction l as [|x l IH]; simpl; [lia|].
  rewrite length_app, H, IH. lia.
Qed.

(** A column that lies past the end of the data keeps the start values. *)
Lemma column_without_data (data : Float32Array) (step i : nat) :
  (length data <= i * step)%nat ->
  Canvas.columnMinMax data step i = (Fin 1, Fin (-1)).
Proof.
  intros Hend. unfold Canvas.columnMinMax. rewrite for_range_zero_run.
  apply (run_invariant (fun mm => mm = (Fin 1, Fin (-1)))); [reflexivity|].
  intros j mm ->. unfold get. rewrite lookup_ge_None_2 by lia. reflexivity.
Qed.

(** A column of samples within full scale has its extremes within it. *)
Lemma column_full_scale (data : Float32Array) (step i : nat) :
  Forall fullScale data ->
  exists a b,
    Canvas.columnMinMax data step i = (Fin a, Fin b)
    /\ -1 <= a <= 1 /\ -1 <= b <= 1.
Proof.
  intros Hdata. unfold Canvas.columnMinMax. rewrite for_range_zero_run.
  apply (run_invariant
           (fun mm => exists a b, mm = (Fin a, Fin b)
                                  /\ -1 <= a <= 1 /\ -1 <= b <= 1)).
  - exists 1, (-1). split; [reflexivity|lra].
  - intros j mm (a & b & -> & Ha & Hb). unfold get.
    destruct (data !! (i * step + j)%nat) as [x|] eqn:Ex.
    + destruct (Forall_lookup_1 _ _ _ _ Hdata Ex) as (v & -> & Hv).
      simpl. do 2 case_bool_decide; eexists _, _;
        (split; [reflexivity|lra]).
    + simpl. exists a, b. split; [reflexivity|lra].
Qed.

(** The waveform as a list of calls. *)
Lemma drawWaveform_calls (buffer : AudioBuffer) (width : nat) (amp : num)
    (ctx : list cmd) :
  Canvas.drawWaveform true (Some buffer) width amp ctx
  = ctx
    ++ [BeginPath; MoveTo Canvas.SCALE_WIDTH amp;
        SetStrokeStyle (Css "rgba(0, 217, 255, 0.8)"); SetLineWidth (Fin 1)]
    ++ concat
         (map (fun i =>
                 [LineTo (Canvas.SCALE_WIDTH + Fin (INR i))%num
                    ((Fin 1
                      + fst (Canvas.columnMinMax (getChannelData buffer 0)
                               (ceilDiv (length (getChannelData buffer 0)) width) i))
                     * amp)%num;
                  LineTo (Canvas.SCALE_WIDTH + Fin (INR i))%num
                    ((Fin 1
                      + snd (Canvas.columnMinMax (getChannelData buffer 0)
                               (ceilDiv (length (getChannelData buffer 0)) width) i))
                     * amp)%num])
            (seq 0 width))
    ++ [Stroke].
Proof.
  unfold Canvas.drawWaveform.
  erewrite for_range_append.
  - rewrite Nat.sub_0_r, <- !app_assoc. reflexivity.
  - intros i c. cbv beta.
    destruct (Canvas.columnMinMax _ _ i) as [mn mx]. reflexivity.
Qed.

Lemma lookup_concat_pairs {B : Type} (p q : nat -> B) (n i : nat) :
  (i < n)%nat ->
  concat (map (fun j => [p j; q j]) (seq 0 n)) !! (2 * i)%nat = Some (p i)
  /\ concat (map (fun j => [p j; q j]) (seq 0 n)) !! (2 * i + 1)%nat = Some (q i).
Proof.
  induction n as [|n IH]; intros Hi; [lia|].
  rewrite seq_S, map_app, concat_app. cbn [map concat].
  rewrite app_nil_r, Nat.add_0_l.
  assert (Hlen : length (concat (map (fun j => [p j; q j]) (seq 0 n))) = (2 * n)%nat).
  { rewrite (length_concat_map_const _ _ 2) by reflexivity.
    rewrite length_seq. reflexivity. }
  destruct (decide (i < n)%nat) as [Hlt|Hge].
  - rewrite !lookup_app_l by lia. apply IH, Hlt.
  - assert (i = n) as -> by lia.
    rewrite !lookup_app_r by lia. rewrite Hlen.
    replace (2 * n - 2 * n)%nat with 0%nat by lia.
    replace (2 * n + 1 - 2 * n)%nat with 1%nat by lia.
    split; reflexivity.
Qed.

(** The waveform inside the wave area. *)
Lemma drawWaveform_in_canvas (buffer : AudioBuffer) (width : nat) (amp : R)
    (ctx : list cmd) :
  0 <= amp -> Forall fullScale (getChannelData buffer 0) ->
  exists drawn,
    Canvas.drawWaveform true (Some buffer) width (Fin amp) ctx = ctx ++ drawn
    /\ length drawn = (5 + 2 * width)%nat
    /\ Forall (pointIn 50 (50 + INR width) 0 (2 * amp)) drawn.
Proof.
  intros Hamp Hdata. rewrite drawWaveform_calls.
  eexists. split; [reflexivity|].
  pose proof (pos_INR width) as Hw.
  split.
  - rewrite !length_app, (length_concat_map_const _ _ 2) by reflexivity.
    rewrite length_seq. simpl. lia.
  - apply Forall_app. split.
    { repeat constructor. simpl. exists 50, amp.
      split; [reflexivity|]. split; [reflexivity|]. lra. }
    apply Forall_app. split; [|repeat constructor].
    apply Forall_concat_map. intros i Hi.
    apply elem_of_seq in Hi as [_ Hi]. simpl in Hi.
    assert (Hle : INR i <= INR width) by (apply le_INR; lia).
    pose proof (pos_INR i) as Hi0.
    destruct (column_full_scale (getChannelData buffer 0)
                (ceilDiv (length (getChannelData buffer 0)) width) i Hdata)
      as (a & b & -> & Ha & Hb).
    repeat constructor; simpl; eexists _, _;
      (split; [reflexivity|]; split; [reflexivity|]; split; [lra|nra]).
Qed.

(** X13. For samples within full scale and a height of at least 0, the
    waveform is drawn by [5 + 2 * width] calls appended to the context, and
    every point of its path lies inside the wave area of the canvas: x from
    50 to [50 + width], y from 0 to the height [2 * amp]. *)
Theorem waveform_in_canvas (buffer : AudioBuffer) (width : nat) (amp : R)
    (ctx : list cmd) :
  0 <= amp -> Forall fullScale (getChannelData buffer 0) ->
  exists drawn,
    Canvas.drawWaveform true (Some buffer) width (Fin amp) ctx = ctx ++ drawn
    /\ length drawn = (5 + 2 * width)%nat
    /\ Forall (pointIn 50 (50 + INR width) 0 (2 * amp)) drawn.
Proof. exact (drawWaveform_in_canvas buffer width amp ctx). Qed.

Lemma waveform_in_canvas_witness :
  exists drawn,
    Canvas.drawWaveform true (Some twoSamples) 3 (Fin 300) [] = [] ++ drawn
    /\ length drawn = (5 + 2 * 3)%nat
    /\ Forall (pointIn 50 (50 + INR 3) 0 (2 * 300)) drawn.
Proof.
  apply (waveform_in_canvas twoSamples 3 300 []).
  - lra.
  - repeat constructor; eexists; (split; [reflexivity|lra]).
Defined.

(** X14. A column of the waveform that starts at or past the end of the
    data (there are fewer samples than the columns cover) is drawn as a
    line over the full height: its two line ends are
    [(50 + i, 2 * amp)] and [(50 + i, 0)]. *)
Theorem waveform_column_without_data (buffer : AudioBuffer) (width : nat)
    (amp : R) (ctx : list cmd) (i : nat) :
  (i < width)%nat ->
  (length (getChannelData buffer 0)
   <= i * ceilDiv (length (getChannelData buffer 0)) width)%nat ->
  Canvas.drawWaveform true (Some buffer) width (Fin amp) ctx
    !! (length ctx + 4 + 2 * i)%nat
  = Some (LineTo (Fin (50 + INR i)) (Fin (2 * amp)))
  /\ Canvas.drawWaveform true (Some buffer) width (Fin amp) ctx
       !! (length ctx + 4 + 2 * i + 1)%nat
     = Some (LineTo (Fin (50 + INR i)) (Fin 0)).
Proof.
  intros Hi Hend. rewrite drawWaveform_calls.
  set (data := getChannelData buffer 0) in *.
  set (p := fun j =>
              LineTo (Canvas.SCALE_WIDTH + Fin (INR j))%num
                ((Fin 1 + fst (Canvas.columnMinMax data
                                 (ceilDiv (length data) width) j)) * Fin amp)%num).
  set (q := fun j =>
              LineTo (Canvas.SCALE_WIDTH + Fin (INR j))%num
                ((Fin 1 + snd (Canvas.columnMinMax data
                                 (ceilDiv (length data) width) j)) * Fin amp)%num).
  change (map _ (seq 0 width)) with (map (fun j => [p j; q j]) (seq 0 width)).
  destruct (lookup_concat_pairs p q width i Hi) as [Hp Hq].
  assert (Hlen : length (concat (map (fun j => [p j; q j]) (seq 0 width)))
                 = (2 * width)%nat).
  { rewrite (length_concat_map_const _ _ 2) by reflexivity.
    rewrite length_seq. reflexivity. }
  assert (Ep : p i = LineTo (Fin (50 + INR i)) (Fin (2 * amp))).
  { unfold p. rewrite (column_without_data data _ i Hend). simpl.
    replace ((1 + 1) * amp) with (2 * amp) by lra. reflexivity. }
  assert (Eq : q i = LineTo (Fin (50 + INR i)) (Fin 0)).
  { unfold q. rewrite (column_without_data data _ i Hend). simpl.
    replace ((1 + -1) * amp) with 0 by lra. reflexivity. }
  split.
  - rewrite lookup_app_r by lia.
    replace (length ctx + 4 + 2 * i - length ctx)%nat with (4 + 2 * i)%nat by lia.
    rewrite lookup_app_r by (simpl; lia). simpl length.
    replace (4 + 2 * i - 4)%nat with (2 * i)%nat by lia.
    rewrite lookup_app_l by lia. rewrite Hp, Ep. reflexivity.
  - rewrite lookup_app_r by lia.
    replace (length ctx + 4 + 2 * i + 1 - length ctx)%nat
      with (4 + (2 * i + 1))%nat by lia.
    rewrite lookup_app_r by (simpl; lia). simpl length.
    replace (4 + (2 * i + 1) - 4)%nat with (2 * i + 1)%nat by lia.
    rewrite lookup_app_l by lia. rewrite Hq, Eq. reflexivity.
Qed.

Lemma waveform_column_without_data_witness :
  Canvas.drawWaveform true (Some twoSamples) 3 (Fin 300) [] !! 8%nat
  = Some (LineTo (Fin (50 + INR 2)) (Fin (2 * 300)))
  /\ Canvas.drawWaveform true (Some twoSamples) 3 (Fin 300) [] !! 9%nat
     = Some (LineTo (Fin (50 + INR 2)) (Fin 0)).
Proof.
  apply (waveform_column_without_data twoSamples 3 300 [] 2).
  - lia.
  - vm_compute. lia.
Defined.

(** A line end of the gain-reduction overlay. *)
Lemma gr_line_end (gainReduction : Float32Array) (width i : nat) (amp : R) :
  0 <= amp -> (width <= length gainReduction)%nat -> (i < width)%nat ->
  Forall (fun v => exists x, v = Fin x /\ 0 <= x) gainReduction ->
  lineEndIn 50 (50 + INR width) 0 amp
    (LineTo (Canvas.SCALE_WIDTH + Fin (INR i))%num
       (Num.min (get gainReduction i / Canvas.MAX_GAIN_REDUCTION_DB * Fin amp)
          (Fin amp))%num).
Proof.
  intros Hamp Hlen Hi Hgr.
  destruct (lookup_lt_is_Some_2 gainReduction i) as [v Hv]; [lia|].
  destruct (Forall_lookup_1 _ _ _ _ Hgr Hv) as (x & -> & Hx).
  unfold get. rewrite Hv. cbn [default from_option]. unfold Datatypes.id.
  unfold Canvas.MAX_GAIN_REDUCTION_DB, Canvas.SCALE_WIDTH.
  rewrite div_fin by lra. unfold Num.min. cbn [Num.mul Num.add Num.gt lineEndIn].
  assert (Hle : INR i <= INR width) by (apply le_INR; lia).
  pose proof (pos_INR i) as Hi0.
  case_bool_decide; eexists _, _;
    (split; [reflexivity|]; split; [reflexivity|]; split; [lra|]).
  - lra.
  - split; [|lra]. apply Rmult_le_pos; [|exact Hamp]. unfold Rdiv. lra.
Qed.

(** The line ends of the gain-reduction overlay. *)
Lemma drawGainReduction_clamped (gainReduction : Float32Array)
    (ratio : num) (width : nat) (amp : R) (ctx : list cmd) :
  0 <= amp -> (width <= length gainReduction)%nat ->
  Forall (fun v => exists x, v = Fin x /\ 0 <= x) gainReduction ->
  exists drawn,
    Canvas.drawGainReduction true (Some gainReduction) ratio width (Fin amp) ctx
    = ctx ++ drawn
    /\ Forall (lineEndIn 50 (50 + INR width) 0 amp) drawn.
Proof.
  intros Hamp Hlen Hgr. unfold Canvas.drawGainReduction.
  destruct (ratio >? Fin 1)%num.
  - rewrite (for_range_append _
               (fun i =>
                  [LineTo (Canvas.SCALE_WIDTH + Fin (INR i))%num
                     (Num.min
                        (get gainReduction i / Canvas.MAX_GAIN_REDUCTION_DB * Fin amp)
                        (Fin amp))%num]) 1 width)
      by (intros i c; reflexivity).
    rewrite (for_range_append _
               (fun i =>
                  [LineTo (Canvas.SCALE_WIDTH + Fin (INR i))%num
                     (Num.min
                        (get gainReduction i / Canvas.MAX_GAIN_REDUCTION_DB * Fin amp)
                        (Fin amp))%num]) 0 width)
      by (intros i c; reflexivity).
    rewrite <- !app_assoc. eexists. split; [reflexivity|].
    pose proof (pos_INR width) as Hw.
    repeat (apply Forall_app; split); try (repeat constructor; fail).
    + apply Forall_concat_map. intros i Hi.
      apply elem_of_seq in Hi as [_ Hi]. constructor; [|constructor].
      apply gr_line_end; (assumption || lia).
    + repeat constructor. simpl. exists (50 + INR width), 0.
      split; [reflexivity|]. split; [reflexivity|]. lra.
    + apply Forall_concat_map. intros i Hi.
      apply elem_of_seq in Hi as [Hi1 Hi]. constructor; [|constructor].
      apply gr_line_end; (assumption || lia).
  - exists []. rewrite app_nil_r. split; [reflexivity|constructor].
Qed.



(** The envelope overlay inside the wave area. *)
Lemma drawEnvelope_in_canvas (envelope : Float32Array) (b : AudioBuffer)
    (t k r : R) (width : nat) (amp : R) (ctx : list cmd) :
  0 <= amp -> (width <= length envelope)%nat ->
  Forall (fun v => exists x, v = Fin x /\ 0 <= x <= 1) envelope ->
  exists drawn,
    Canvas.drawEnvelope true (Some envelope) (Some b) (Fin t) (Fin k) (Fin r)
      width (Fin amp) ctx = ctx ++ drawn
    /\ length drawn = (12 * (width - 1))%nat
    /\ Forall (pointIn 50 (50 + INR width) 0 (2 * amp)) drawn
    /\ Forall validPaint drawn.
Proof.
  intros Hamp Hlen Henv. unfold Canvas.drawEnvelope.
  destruct (ratioInfluence_fin r) as (ri & -> & Hri).
  assert (Hthr : exists thr,
             (if (Fin t <? Fin 0)%num then Num.pow10 (Fin t / Fin 20)%num else Fin 1)
             = Fin thr).
  { cbn [Num.gt]. case_bool_decide.
    - rewrite div_fin by lra. eexists. reflexivity.
    - eexists. reflexivity. }
  destruct Hthr as (thr & ->).
  assert (Hks : exists ks,
             Num.pow10 ((Fin t - Fin k / Fin 2) / Fin 20)%num = Fin ks).
  { rewrite div_fin by lra. cbn [Num.sub Num.add Num.neg].
    rewrite div_fin by lra. eexists. reflexivity. }
  destruct Hks as (ks & ->).
  assert (Hke : exists ke,
             Num.pow10 (Num.min (Fin t + Fin k / Fin 2) (Fin 0) / Fin 20)%num
             = Fin ke).
  { rewrite div_fin by lra. unfold Num.min. cbn [Num.add Num.gt].
    case_bool_decide; rewrite div_fin by lra; eexists; reflexivity. }
  destruct Hke as (ke & ->).
  erewrite for_range_append by (intros i c; reflexivity).
  eexists. split; [reflexivity|]. rewrite Nat.sub_0_r.
  split; [|split].
  - rewrite (length_concat_map_const _ _ 12) by reflexivity.
    rewrite length_seq. reflexivity.
  - apply Forall_concat_map. intros i Hi.
    apply elem_of_seq in Hi as [_ Hi].
    destruct (lookup_lt_is_Some_2 envelope i) as [v Hv]; [lia|].
    destruct (lookup_lt_is_Some_2 envelope (i + 1)) as [v' Hv']; [lia|].
    destruct (Forall_lookup_1 _ _ _ _ Henv Hv) as (e & -> & He).
    destruct (Forall_lookup_1 _ _ _ _ Henv Hv') as (e' & -> & He').
    unfold get. rewrite Hv, Hv'. cbn [default from_option]. unfold Datatypes.id.
    assert (Hle : INR i + 1 <= INR width).
    { rewrite <- S_INR. apply le_INR. lia. }
    pose proof (pos_INR i) as Hi0.
    unfold Canvas.SCALE_WIDTH.
    repeat constructor; simpl; eexists _, _;
      (split; [reflexivity|]; split; [reflexivity|]; split; [lra|nra]).
  - apply Forall_concat_map. intros i Hi.
    apply elem_of_seq in Hi as [_ Hi].
    destruct (lookup_lt_is_Some_2 envelope i) as [v Hv]; [lia|].
    destruct (Forall_lookup_1 _ _ _ _ Henv Hv) as (e & -> & He).
    unfold get. rewrite Hv. cbn [default from_option]. unfold Datatypes.id.
    pose proof (getEnvelopeColor_fin e thr ks ke ri Hri) as Hcol.
    repeat (apply List.Forall_cons; [first [exact I | exact Hcol]|]).
    apply List.Forall_nil.
Qed.

(** X16. For envelope values in [0, 1], one per column, real parameters and
    a height of at least 0, the envelope overlay is drawn by
    [12 * (width - 1)] calls appended to the context; every point of its
    paths lies inside the wave area of the canvas, and every stroke colour
    is a valid colour. *)
Theorem envelope_overlay_in_canvas (envelope : Float32Array) (b : AudioBuffer)
    (t k r : R) (width : nat) (amp : R) (ctx : list cmd) :
  0 <= amp -> (width <= length envelope)%nat ->
  Forall (fun v => exists x, v = Fin x /\ 0 <= x <= 1) envelope ->
  exists drawn,
    Canvas.drawEnvelope true (Some envelope) (Some b) (Fin t) (Fin k) (Fin r)
      width (Fin amp) ctx = ctx ++ drawn
    /\ length drawn = (12 * (width - 1))%nat
    /\ Forall (pointIn 50 (50 + INR width) 0 (2 * amp)) drawn
    /\ Forall validPaint drawn.
Proof. exact (drawEnvelope_in_canvas envelope b t k r width amp ctx). Qed.

Lemma envelope_overlay_in_canvas_witness :
  exists drawn,
    Canvas.drawEnvelope true (Some [Fin 0.5; Fin 1; Fin 0]) (Some twoSamples)
      (Fin (-20)) (Fin 10) (Fin 4) 3 (Fin 300) [] = [] ++ drawn
    /\ length drawn = (12 * (3 - 1))%nat
    /\ Forall (pointIn 50 (50 + INR 3) 0 (2 * 300)) drawn
    /\ Forall validPaint drawn.
Proof.
  apply (envelope_overlay_in_canvas [Fin 0.5; Fin 1; Fin 0] twoSamples
           (-20) 10 4 3 300 []).
  - lra.
  - simpl. lia.
  - repeat constructor; eexists; (split; [reflexivity|lra]).
Defined.

(** ** The component: its refs, its flags and the ranges of its parameters *)

Lemma knob_config (key : AppState.paramKey) :
  exists m M : Z,
    AppState.knobMin key = IZR m * AppState.knobStep key
    /\ AppState.knobMax key = IZR M * AppState.knobStep key
    /\ (m <= M)%Z /\ 0 < AppState.knobStep key.
Proof.
  destruct key; simpl.
  - exists (-100)%Z, 0%Z. repeat split; (lra || lia).
  - exists 0%Z, 40%Z. repeat split; (lra || lia).
  - exists 2%Z, 40%Z. repeat split; (lra || lia).
  - exists 0%Z, 1000%Z. repeat split; (lra || lia).
  - exists 0%Z, 100%Z. repeat split; (lra || lia).
Qed.

(** The value that a knob passes on is within the bounds of the knob. *)
Lemma knob_move_value (key : AppState.paramKey) (startY startValue clientY : R) :
  exists v,
    Knob.handleMouseMove (Fin (AppState.knobMin key)) (Fin (AppState.knobMax key))
      (Fin (AppState.knobStep key)) (Fin startY) (Fin startValue) (Fin clientY)
    = Fin v
    /\ AppState.knobMin key <= v <= AppState.knobMax key.
Proof.
  destruct (knob_config key) as (m & M & Hmin & Hmax & HmM & Hstep).
  destruct (handleMouseMove_fin m M _ _ _ startY startValue clientY
              Hstep Hmin Hmax HmM) as (n & E & Hn1 & Hn2).
  exists (IZR n * AppState.knobStep key). split; [exact E|].
  apply IZR_le in Hn1. apply IZR_le in Hn2. rewrite Hmin, Hmax. split; nra.
Qed.

Lemma default_inRange : AppState.inRange App.DEFAULT_PARAMS.
Proof.
  exists 0, 0, 1, 0.003, 0.01. split; [reflexivity|]. lra.
Qed.

Lemma updateParam_inRange (key : AppState.paramKey) (v : R) (s : AppState.state) :
  AppState.knobMin key <= v <= AppState.knobMax key ->
  AppState.inRange (AppState.paramsRef s) ->
  AppState.inRange (AppState.params (AppState.updateParam key (Fin v) s)).
Proof.
  intros Hv (t & k & r & a & rl & E & Ht & Hk & Hr & Ha & Hrl).
  unfold AppState.updateParam. rewrite E. simpl.
  destruct key; simpl in Hv;
    eexists _, _, _, _, _; (split; [reflexivity|]); lra.
Qed.

(** What every handler keeps. *)
Lemma handle_invariant (s : AppState.state) :
  AppState.reachable s ->
  AppState.paramsRef s = AppState.params s
  /\ AppState.makeupGainRef s = AppState.makeupGain s
  /\ (AppState.isPlaying s = true <-> AppState.sourceRef s <> None)
  /\ AppState.inRange (AppState.params s).
Proof.
  assert (Hstopped : false = true <-> @None AudioBuffer <> None)
    by (split; [discriminate | congruence]).
  assert (Hstarted : forall b : AudioBuffer, true = true <-> Some b <> None)
    by (intros b; split; [discriminate | reflexivity]).
  induction 1 as [|e s Hs (Hp & Hm & Hplay & Hrange)].
  - simpl. (split; [|split; [|split]]; auto using default_inRange).
  - destruct e; simpl.
    + (split; [|split; [|split]]; auto using default_inRange).
    + split; [|split; [|split]]; auto.
    + unfold AppState.togglePlayback.
      destruct (AppState.isPlaying s) eqn:Eplay; simpl.
      * split; [|split; [|split]]; auto.
      * destruct (AppState.audioBuffer s); simpl.
        -- split; [|split; [|split]]; auto.
        -- rewrite Eplay. split; [|split; [|split]]; auto.
    + split; [|split; [|split]]; auto.
    + destruct (knob_move_value key startY startValue clientY) as (v & -> & Hv).
      split; [reflexivity|]. split; [exact Hm|]. split; [exact Hplay|].
      apply updateParam_inRange; [exact Hv|]. rewrite Hp. exact Hrange.
    + unfold AppState.applyCompression.
      destruct originalBuffer0; [|split; [|split; [|split]]; auto].
      destruct (AppState.makeupGainRef s) eqn:Emk; simpl;
        (split; [|split; [|split]]; auto; congruence).
    + split; [|split; [|split]]; auto.
    + unfold AppState.handleMakeupGainToggle, AppState.applyCompression. simpl.
      destruct (AppState.originalBuffer s); simpl.
      * destruct checked; simpl; (split; [|split; [|split]]; auto; congruence).
      * split; [|split; [|split]]; auto.
    + (split; [|split; [|split]]; auto using default_inRange).
    + (split; [|split; [|split]]; auto using default_inRange).
    + split; [|split; [|split]]; auto.
Qed.

(** X17. In every state that the component reaches, whatever the user does
    and whenever the decoder and the renderer answer: [paramsRef.current]
    equals the [params] state, [makeupGainRef.current] equals the
    [makeupGain] state, and [isPlaying] is true exactly when a source node
    is held in [sourceRef]. *)
Theorem refs_mirror_state (s : AppState.state) :
  AppState.reachable s ->
  AppState.paramsRef s = AppState.params s
  /\ AppState.makeupGainRef s = AppState.makeupGain s
  /\ (AppState.isPlaying s = true <-> AppState.sourceRef s <> None).
Proof.
  intros Hs. destruct (handle_invariant s Hs) as (Hp & Hm & Hplay & _). auto.
Qed.

Lemma refs_mirror_state_witness :
  let s :=
    AppState.handle AppState.TogglePlayback
      (AppState.handle (AppState.Decoded clipping)
         (AppState.handle AppState.FileChosen AppState.initial)) in
  AppState.reachable s
  /\ AppState.isPlaying s = true
  /\ AppState.paramsRef s = AppState.params s
  /\ AppState.makeupGainRef s = AppState.makeupGain s
  /\ (AppState.isPlaying s = true <-> AppState.sourceRef s <> None).
Proof.
  intros s.
  assert (Hs : AppState.reachable s)
    by (repeat apply AppState.reachable_handle; apply AppState.reachable_initial).
  split; [exact Hs|]. split; [reflexivity|].
  exact (refs_mirror_state s Hs).
Defined.

(** X18. In every state that the component reaches the parameters are real
    numbers within the bounds of their knobs: threshold from -100 to 0, knee
    from 0 to 40, ratio from 1 to 20, attack and release from 0 to 1. *)
Theorem params_in_range (s : AppState.state) :
  AppState.reachable s ->
  AppState.inRange (AppState.params s)
  /\ AppState.inRange (AppState.paramsRef s).
Proof.
  intros Hs. destruct (handle_invariant s Hs) as (Hp & _ & _ & Hr).
  rewrite Hp. auto.
Qed.

Lemma params_in_range_witness :
  let s :=
    AppState.handle (AppState.KnobMove AppState.Ratio 300 1 120)
      (AppState.handle (AppState.KnobMove AppState.Threshold 200 0 5000)
         AppState.initial) in
  AppState.reachable s
  /\ AppState.inRange (AppState.params s)
  /\ AppState.inRange (AppState.paramsRef s).
Proof.
  intros s.
  assert (Hs : AppState.reachable s)
    by (repeat apply AppState.reachable_handle; apply AppState.reachable_initial).
  split; [exact Hs|].
  exact (params_in_range s Hs).
Defined.

(** A channel of real samples within full scale passes the compressor
    without a change when the ratio is 1. *)
Lemma ratio_one_identity (p : ICompressorParams) (buffer : AudioBuffer) :
  wellFormed buffer -> finiteBuffer buffer -> finiteParams p ->
  ratio p = Fin 1 ->
  App.applyCustomCompression p buffer = buffer.
Proof.
  intros Hwf Hbuf Hpar Hone.
  destruct (applyCustomCompression_shape p buffer) as (Hw & Hn & Hl & Hs).
  apply buffer_ext; try assumption.
  intros ch i Hch Hi.
  assert (Hr0 : ratio p <> Fin 0) by (rewrite Hone; intros [=]; lra).
  destruct (output_gain p buffer Hwf Hbuf Hpar ch i Hr0 Hch Hi)
    as (t & k & r & x & e & _ & _ & Hr & Hx & Hg).
  rewrite Hx, Hg. f_equal.
  assert (Er : r = 1) by congruence.
  rewrite (curve_ratio_one t k r _ Er), pow10_zero. lra.
Qed.

(** Parameters within the ranges of the knobs are real, with a ratio of at
    least 1 and a knee of at least 0. *)
Lemma inRange_finite (p : ICompressorParams) :
  AppState.inRange p ->
  finiteParams p
  /\ exists k r, knee p = Fin k /\ ratio p = Fin r /\ 0 <= k /\ 1 <= r.
Proof.
  intros (t & k & r & a & rl & -> & Ht & Hk & Hr & Ha & Hrl).
  split; [finite_params|]. exists k, r. simpl. repeat split; lra.
Qed.


(** ** The component: what a released knob gives *)



(** X20. With the default parameters the compressor is transparent in the
    component: after a reset, and after a file was chosen and decoded, the
    audio buffer is the original, and releasing a knob (makeup gain off)
    leaves it the original. *)
Theorem default_parameters_transparent (s : AppState.state) (b : AudioBuffer) :
  wellFormed b -> finiteBuffer b ->
  (AppState.originalBuffer s = Some b -> AppState.makeupGainRef s = false ->
   let s' := AppState.handle AppState.Reset s in
   AppState.audioBuffer s' = Some b
   /\ AppState.audioBuffer (AppState.handle (AppState.KnobUp (Some b)) s')
      = Some b)
  /\ (let s' :=
        AppState.handle (AppState.Decoded b)
          (AppState.handle AppState.FileChosen s) in
      AppState.audioBuffer s' = Some b
      /\ AppState.originalBuffer s' = Some b
      /\ AppState.audioBuffer (AppState.handle (AppState.KnobUp (Some b)) s')
         = Some b).
Proof.
  intros Hwf Hbuf.
  assert (Hid : App.applyCustomCompression App.DEFAULT_PARAMS b = b).
  { apply ratio_one_identity; [exact Hwf | exact Hbuf | finite_params | reflexivity]. }
  split.
  - intros Horig Hoff. cbn [AppState.handle].
    unfold AppState.applyCompression, AppState.resetToDefault. cbn.
    rewrite Hoff. cbn. rewrite Hid. auto.
  - cbn [AppState.handle].
    unfold AppState.applyCompression, AppState.decoded, AppState.fileChosen. cbn.
    rewrite Hid. auto.
Qed.

Lemma default_parameters_transparent_witness :
  let s :=
    AppState.handle AppState.Reset
      (AppState.handle (AppState.KnobUp (Some twoSamples))
         (AppState.handle (AppState.KnobMove AppState.Ratio 300 1 120)
            (AppState.handle (AppState.Decoded twoSamples)
               (AppState.handle AppState.FileChosen AppState.initial)))) in
  AppState.audioBuffer s = Some twoSamples
  /\ AppState.audioBuffer (AppState.handle (AppState.KnobUp (Some twoSamples)) s)
     = Some twoSamples.
Proof.
  intros s.
  destruct (default_parameters_transparent
              (AppState.handle (AppState.KnobUp (Some twoSamples))
                 (AppState.handle (AppState.KnobMove AppState.Ratio 300 1 120)
                    (AppState.handle (AppState.Decoded twoSamples)
                       (AppState.handle AppState.FileChosen AppState.initial))))
              twoSamples) as [Hreset _].
  - repeat constructor.
  - finite_buffer.
  - apply Hreset; reflexivity.
Defined.

(** ** The normaliser of the standard path *)

(** Every sample is within the peak, when the peak is a real. *)
Lemma maxPeak_within (b : AudioBuffer) (m : R) :
  Compressor.maxPeak b = Fin m -> Forall (Forall (within m)) (channelData b).
Proof.
  rewrite maxPeak_concat. unfold peakOf. intros E.
  apply Forall_concat. exact (proj2 (peak_fold_within _ 0 m E)).
Qed.

(** X21. No sample of a normalised buffer clips: every one is a real of
    magnitude at most 1, or NaN where the rendered sample was NaN or
    infinite. *)
Theorem normalize_no_clipping (b : AudioBuffer) :
  Forall (Forall (within 1)) (channelData (Compressor.normalize b)).
Proof.
  rewrite normalize_cases.
  assert (Hcases := peak_fold_cases (concat (channelData b)) 0 ltac:(lra)).
  fold (peakOf (concat (channelData b))) in Hcases.
  rewrite <- maxPeak_concat in Hcases.
  destruct Hcases as [E|(m & E & H0)].
  - rewrite E. simpl. apply Forall_fmap, Forall_forall. intros data _.
    apply zeroed_within.
  - pose proof (maxPeak_within b m E) as Hw. rewrite E. simpl.
    case_bool_decide as Hgt.
    + rewrite div_fin by lra. simpl.
      apply Forall_fmap. eapply Forall_impl; [exact Hw|].
      intros data Hdata. apply scaled_within; assumption.
    + eapply Forall_impl; [exact Hw|]. intros data Hdata.
      eapply Forall_impl; [exact Hdata|].
      intros x [->|(r & -> & Hr)]; [left; reflexivity|].
      right. exists r. split; [reflexivity|lra].
Qed.

(** X22. A rendered buffer that does not clip is left as it is: when every
    sample is NaN or of magnitude at most 1, the normaliser returns its
    argument. *)
Theorem normalize_leaves_unclipped (b : AudioBuffer) :
  Forall (Forall (within 1)) (channelData b) ->
  Compressor.normalize b = b.
Proof.
  intros Hw. rewrite normalize_cases, maxPeak_concat.
  destruct (peak_fold_bounded (concat (channelData b)) 0 ltac:(lra))
    as (m & E & Hm); [apply Forall_concat, Hw|].
  unfold peakOf. rewrite E, gt_fin_false by exact Hm. reflexivity.
Qed.

Lemma normalize_leaves_unclipped_witness :
  Compressor.normalize twoSamples = twoSamples.
Proof.
  apply (normalize_leaves_unclipped twoSamples).
  assert (Hhalf : within 1 (Fin 0.5)).
  { right. eexists. split; [reflexivity|]. rewrite Rabs_pos_eq; lra. }
  assert (Hone : within 1 (Fin (-1))).
  { right. eexists. split; [reflexivity|]. rewrite Rabs_left; lra. }
  apply List.Forall_cons; [|apply List.Forall_nil].
  apply List.Forall_cons; [exact Hhalf|].
  apply List.Forall_cons; [exact Hone | apply List.Forall_nil].
Defined.

(** ** The pointer of the knob *)

(** X23. For a value within the bounds of a knob the pointer is turned by
    an angle from -135 to 135 degrees: -135 at the minimum, 135 at the
    maximum, and further for a larger value. *)
Theorem knob_rotation_range (min max value : R) :
  min < max -> min <= value <= max ->
  exists a,
    Knob.rotation (Fin value) (Fin min) (Fin max) = Fin a
    /\ -135 <= a <= 135
    /\ (value = min -> a = -135)
    /\ (value = max -> a = 135)
    /\ forall value' : R,
        value < value' ->
        exists a',
          Knob.rotation (Fin value') (Fin min) (Fin max) = Fin a' /\ a < a'.
Proof.
  intros Hlt Hv.
  assert (Hrot : forall v : R,
            Knob.rotation (Fin v) (Fin min) (Fin max)
            = Fin ((v + - min) / (max + - min) * 270 + - 135)).
  { intros v. unfold Knob.rotation. cbn [Num.sub Num.add Num.neg].
    rewrite div_fin by lra. reflexivity. }
  assert (Hd : 0 < / (max + - min)) by (apply Rinv_0_lt_compat; lra).
  assert (Hone : (max + - min) * / (max + - min) = 1) by (apply Rinv_r; lra).
  exists ((value + - min) / (max + - min) * 270 + - 135).
  split; [apply Hrot|]. unfold Rdiv.
  split; [split; nra|]. split; [intros ->; nra|]. split; [intros ->; nra|].
  intros v' Hv'. eexists. split; [apply Hrot|]. unfold Rdiv. nra.
Qed.

Lemma knob_rotation_range_witness :
  exists a,
    Knob.rotation (Fin (-50)) (Fin (-100)) (Fin 0) = Fin a /\ -135 <= a <= 135.
Proof.
  destruct (knob_rotation_range (-100) 0 (-50)) as (a & Ha & Hr & _); [lra|lra|].
  exists a. split; [exact Ha | exact Hr].
Defined.

(** ** The threshold line and the knee zone *)

Lemma nat_above (r : R) : exists n : nat, r <= INR n.
Proof.
  destruct (Rle_dec r 0) as [Hle|Hgt].
  - exists 0%nat. simpl. exact Hle.
  - destruct (archimed r) as [Hup _].
    assert (Hpos : (0 <= up r)%Z).
    { apply le_IZR. lra. }
    exists (Z.to_nat (up r)). rewrite INR_IZR_INZ, Z2Nat.id by exact Hpos. lra.
Qed.

(** A loop over numbers that appends to a list ends after at most
    [(limit - x) / step] rounds, rounded up. *)
Lemma for_lt_append {A : Type} (f : num -> list A) (step limit : R) :
  0 < step ->
  forall (n : nat) (x : R) (fuel : nat) (l : list A),
    limit - x <= step * INR n -> (n < fuel)%nat ->
    exists xs,
      for_lt fuel (Fin x) (Fin limit) (Fin step) (fun x l => l ++ f x) l
      = Some (l ++ concat (map f xs)).
Proof.
  intros Hstep. induction n as [|n IH]; intros x fuel l Hn Hfuel.
  - destruct fuel as [|fuel]; [lia|]. simpl in *.
    rewrite bool_decide_eq_false_2 by lra.
    exists []. simpl. rewrite app_nil_r. reflexivity.
  - destruct fuel as [|fuel]; [lia|]. cbn [for_lt Num.gt Num.add].
    case_bool_decide as Hlt.
    + destruct (IH (x + step) fuel (l ++ f (Fin x))) as [xs E]; [|lia|].
      * rewrite S_INR in Hn. lra.
      * exists (Fin x :: xs). rewrite E. simpl. rewrite <- app_assoc. reflexivity.
    + exists []. simpl. rewrite app_nil_r. reflexivity.
Qed.

(** The amplitudes of the threshold and of the end of the drawn knee. *)
Lemma knee_levels (t k : R) :
  t < 0 -> 0 <= k ->
  exists ta ka,
    Num.pow10 (Fin t / Fin 20) = Fin ta
    /\ Num.pow10 (Num.min (Fin t + Fin k) (Fin 0) / Fin 20) = Fin ka
    /\ 0 < ta < 1 /\ ta <= ka <= 1.
Proof.
  intros Ht Hk.
  assert (Hpow : forall d : R, d <= 0 -> 0 < Rpower 10 (d / 20) <= 1).
  { intros d Hd. replace (d / 20) with (- (- d) / 20) by lra.
    apply pow10_gain. lra. }
  assert (Hmono : forall d1 d2 : R, d1 <= d2 ->
            Rpower 10 (d1 / 20) <= Rpower 10 (d2 / 20)).
  { intros d1 d2 [Hlt|Heq]; [|rewrite Heq; lra]. left. apply Rpower_lt; lra. }
  assert (Hstrict : Rpower 10 (t / 20) < 1).
  { rewrite <- (Rpower_O 10) by lra. apply Rpower_lt; lra. }
  exists (Rpower 10 (t / 20)).
  exists (Rpower 10 (Rmin (t + k) 0 / 20)).
  rewrite div_fin by lra. split; [reflexivity|]. split.
  - cbn [Num.add Num.min Num.gt].
    unfold Rmin. destruct (Rle_dec (t + k) 0) as [Hle|Hgt].
    + rewrite bool_decide_eq_false_2 by lra. rewrite div_fin by lra. reflexivity.
    + rewrite bool_decide_eq_true_2 by lra. rewrite div_fin by lra. reflexivity.
  - pose proof (Hpow t ltac:(lra)) as [H0 _].
    split; [lra|]. split.
    + apply Hmono. unfold Rmin. destruct (Rle_dec (t + k) 0); lra.
    + apply Hpow. apply Rmin_r.
Qed.

(** The threshold line inside the wave area. *)
Lemma drawThreshold_in_canvas (t amp : R) (width : nat) (ctx : list cmd) :
  0 <= amp ->
  (t < 0 ->
   exists a drawn,
     0 < a < 1
     /\ Canvas.drawThreshold true (Fin t) width (Fin amp) ctx = ctx ++ drawn
     /\ drawn !! 4%nat = Some (MoveTo (Fin 50) (Fin (amp - a * amp)))
     /\ drawn !! 5%nat
        = Some (LineTo (Fin (INR width + 50)) (Fin (amp - a * amp)))
     /\ drawn !! 8%nat = Some (MoveTo (Fin 50) (Fin (amp + a * amp)))
     /\ drawn !! 9%nat
        = Some (LineTo (Fin (INR width + 50)) (Fin (amp + a * amp)))
     /\ last drawn = Some (SetLineDash [])
     /\ Forall (pointIn 50 (50 + INR width) 0 (2 * amp)) drawn)
  /\ (0 <= t ->
      forall show, Canvas.drawThreshold show (Fin t) width (Fin amp) ctx = ctx).
Proof.
  intros Hamp. split.
  - intros Ht.
    destruct (knee_levels t 0 Ht ltac:(lra)) as (a & _ & Ea & _ & Ha & _).
    exists a. eexists. split; [exact Ha|].
    unfold Canvas.drawThreshold, Canvas.totalWidth, Canvas.SCALE_WIDTH.
    cbn [andb Num.gt]. rewrite bool_decide_eq_true_2 by exact Ht.
    rewrite Ea. cbn [Num.sub Num.add Num.neg Num.mul].
    split; [reflexivity|].
    replace (amp + - (a * amp)) with (amp - a * amp) by lra.
    split; [reflexivity|]. split; [reflexivity|]. split; [reflexivity|].
    split; [reflexivity|]. split; [reflexivity|].
    pose proof (pos_INR width) as Hw.
    repeat (apply List.Forall_cons; [|]); try apply List.Forall_nil;
      try exact I; simpl; eexists _, _;
      (split; [reflexivity|]; split; [reflexivity|]; split; [lra|nra]).
  - intros Ht show. unfold Canvas.drawThreshold. cbn [Num.gt].
    rewrite bool_decide_eq_false_2 by lra.
    rewrite andb_false_r. reflexivity.
Qed.

(** X24. For a threshold below 0 dB and a height of at least 0, the
    threshold is drawn as two dashed lines across the wave area, at the
    heights [amp - a * amp] and [amp + a * amp] for the amplitude [a] of the
    threshold, which lies strictly between 0 and 1: the lines mirror each
    other about the centre line and lie inside the canvas, and the dash
    pattern is cleared after them.  For a threshold of 0 dB or above
    nothing is drawn. *)
Theorem threshold_line_in_canvas (t amp : R) (width : nat) (ctx : list cmd) :
  0 <= amp ->
  (t < 0 ->
   exists a drawn,
     0 < a < 1
     /\ Canvas.drawThreshold true (Fin t) width (Fin amp) ctx = ctx ++ drawn
     /\ drawn !! 4%nat = Some (MoveTo (Fin 50) (Fin (amp - a * amp)))
     /\ drawn !! 5%nat
        = Some (LineTo (Fin (INR width + 50)) (Fin (amp - a * amp)))
     /\ drawn !! 8%nat = Some (MoveTo (Fin 50) (Fin (amp + a * amp)))
     /\ drawn !! 9%nat
        = Some (LineTo (Fin (INR width + 50)) (Fin (amp + a * amp)))
     /\ last drawn = Some (SetLineDash [])
     /\ Forall (pointIn 50 (50 + INR width) 0 (2 * amp)) drawn)
  /\ (0 <= t ->
      forall show, Canvas.drawThreshold show (Fin t) width (Fin amp) ctx = ctx).
Proof. exact (drawThreshold_in_canvas t amp width ctx). Qed.

Lemma threshold_line_in_canvas_witness :
  (exists drawn,
     Canvas.drawThreshold true (Fin (-20)) 3 (Fin 300) [] = [] ++ drawn
     /\ last drawn = Some (SetLineDash [])
     /\ Forall (pointIn 50 (50 + INR 3) 0 (2 * 300)) drawn)
  /\ Canvas.drawThreshold true (Fin 0) 3 (Fin 300) [] = [].
Proof.
  destruct (threshold_line_in_canvas (-20) 300 3 []) as [Hbelow _]; [lra|].
  destruct (threshold_line_in_canvas 0 300 3 []) as [_ Hzero]; [lra|].
  split.
  - destruct Hbelow as (a & drawn & _ & Hd & _ & _ & _ & _ & Hlast & Hin); [lra|].
    exists drawn. auto.
  - apply Hzero. lra.
Defined.

(** The knee zone between the top and the bottom of the canvas. *)
Lemma drawKneeZone_in_canvas (t k r amp : R) (width : nat) (ctx : list cmd) :
  t < 0 -> 0 < k -> 0 <= amp ->
  exists n, forall fuel, (n <= fuel)%nat ->
    exists drawn,
      Canvas.drawKneeZone fuel true (Fin t) (Fin k) (Fin r) width (Fin amp) ctx
      = Some (ctx ++ drawn)
      /\ Forall (rectIn 50 (50 + INR width) 0 (2 * amp)) drawn
      /\ Forall (heightIn 0 (2 * amp)) drawn.
Proof.
  intros Ht Hk Hamp.
  destruct (knee_levels t k Ht ltac:(lra)) as (ta & ka & Eta & Eka & Hta & Hka).
  pose proof (pos_INR width) as Hw.
  unfold Canvas.drawKneeZone, Canvas.totalWidth, Canvas.SCALE_WIDTH.
  cbn [andb Num.gt]. rewrite !bool_decide_eq_true_2 by lra. cbn [andb].
  rewrite Eta, Eka. cbn [Num.sub Num.add Num.neg Num.mul Num.le].
  assert (Hrect : forall a b c d : R,
            50 <= a -> 0 <= c -> a + c <= 50 + INR width ->
            0 <= b -> 0 <= d -> b + d <= 2 * amp ->
            rectIn 50 (50 + INR width) 0 (2 * amp)
              (FillRect (Fin a) (Fin b) (Fin c) (Fin d))
            /\ rectIn 50 (50 + INR width) 0 (2 * amp)
                 (Rect (Fin a) (Fin b) (Fin c) (Fin d))).
  { intros a b c d. split; simpl; exists a, b, c, d; repeat split; assumption. }
  assert (Hupper : rectIn 50 (50 + INR width) 0 (2 * amp)
                     (FillRect (Fin 50) (Fin (amp + - (ka * amp)))
                        (Fin (INR width))
                        (Fin (amp + - (ta * amp) + - (amp + - (ka * amp)))))
                   /\ rectIn 50 (50 + INR width) 0 (2 * amp)
                        (Rect (Fin 50) (Fin (amp + - (ka * amp)))
                           (Fin (INR width))
                           (Fin (amp + - (ta * amp) + - (amp + - (ka * amp)))))).
  { apply Hrect; nra. }
  assert (Hlower : rectIn 50 (50 + INR width) 0 (2 * amp)
                     (FillRect (Fin 50) (Fin (amp + ta * amp)) (Fin (INR width))
                        (Fin (amp + ka * amp + - (amp + ta * amp))))
                   /\ rectIn 50 (50 + INR width) 0 (2 * amp)
                        (Rect (Fin 50) (Fin (amp + ta * amp)) (Fin (INR width))
                           (Fin (amp + ka * amp + - (amp + ta * amp))))).
  { apply Hrect; nra. }
  destruct Hupper as [Hu1 Hu2]. destruct Hlower as [Hl1 Hl2].
  destruct (Rle_dec 1 r) as [Hr|Hr].
  - rewrite (div_fin 1 r) by lra.
    cbn [Num.sub Num.add Num.neg Num.mul Num.le].
    rewrite bool_decide_eq_true_2 by exact Hr.
    set (upperOff := (amp + - (ta * amp) + - (amp + - (ka * amp)))
                     * (1 + - (1 / r))).
    set (lowerOff := (amp + ka * amp + - (amp + ta * amp)) * (1 + - (1 / r))).
    destruct (nat_above ((INR width + 50 + upperOff - (50 + - upperOff)) / 20))
      as [n1 Hn1].
    destruct (nat_above ((INR width + 50 + lowerOff - (50 + - lowerOff)) / 20))
      as [n2 Hn2].
    exists (S (n1 + n2)). intros fuel Hfuel.
    set (upperLine := fun x : num =>
           [BeginPath; MoveTo x (Fin (amp + - (ta * amp)));
            LineTo (x + Fin upperOff)%num (Fin (amp + - (ka * amp))); Stroke]).
    set (lowerLine := fun x : num =>
           [BeginPath; MoveTo x (Fin (amp + ta * amp));
            LineTo (x + Fin lowerOff)%num (Fin (amp + ka * amp)); Stroke]).
    assert (Hlines : forall xs,
              (Forall (rectIn 50 (50 + INR width) 0 (2 * amp))
                 (concat (map upperLine xs))
               /\ Forall (heightIn 0 (2 * amp)) (concat (map upperLine xs)))
              /\ (Forall (rectIn 50 (50 + INR width) 0 (2 * amp))
                    (concat (map lowerLine xs))
                  /\ Forall (heightIn 0 (2 * amp)) (concat (map lowerLine xs)))).
    { intros xs. repeat split; apply Forall_concat_map; intros x _;
        repeat (apply List.Forall_cons; [|]); try apply List.Forall_nil;
        try exact I; simpl; eexists; (split; [reflexivity|]; nra). }
    match goal with
    | |- context [for_lt fuel _ _ _ _ ?l] =>
        destruct (for_lt_append upperLine 20 (INR width + 50 + upperOff)
                    ltac:(lra) n1 (50 + - upperOff) fuel l) as [xs1 E1];
          [lra | lia |]
    end.
    unfold upperLine in E1 at 1. rewrite E1.
    match goal with
    | |- context [for_lt fuel _ _ _ _ ?l] =>
        destruct (for_lt_append lowerLine 20 (INR width + 50 + lowerOff)
                    ltac:(lra) n2 (50 + - lowerOff) fuel l) as [xs2 E2];
          [lra | lia |]
    end.
    unfold lowerLine in E2 at 1. rewrite E2.
    rewrite <- !app_assoc. eexists. split; [reflexivity|].
    destruct (Hlines xs1) as [[Hx1 Hx2] _].
    destruct (Hlines xs2) as [_ [Hy1 Hy2]].
    split.
    + repeat (apply Forall_app; split); try assumption;
        repeat (apply List.Forall_cons; [|]); try apply List.Forall_nil;
        first [assumption | exact I].
    + repeat (apply Forall_app; split); try assumption;
        repeat (apply List.Forall_cons; [|]); try apply List.Forall_nil;
        exact I.
  - cbn [Num.le]. rewrite bool_decide_eq_false_2 by exact Hr.
    exists 0%nat. intros fuel _.
    rewrite <- !app_assoc. eexists. split; [reflexivity|].
    split; repeat (apply List.Forall_cons; [|]); try apply List.Forall_nil;
      first [assumption | exact I].
Qed.

(** X25. For a threshold below 0 dB, a knee above 0 dB, a real ratio and a
    height of at least 0, drawing the knee zone ends (its two hatching
    loops take finitely many rounds), and all it draws lies between the
    top and the bottom of the canvas: the two filled rectangles and the two
    clip rectangles span the wave area, with a height that is not negative,
    and every hatching line starts and ends at a height from 0 to
    [2 * amp]. *)
Theorem knee_zone_in_canvas (t k r amp : R) (width : nat) (ctx : list cmd) :
  t < 0 -> 0 < k -> 0 <= amp ->
  exists n, forall fuel, (n <= fuel)%nat ->
    exists drawn,
      Canvas.drawKneeZone fuel true (Fin t) (Fin k) (Fin r) width (Fin amp) ctx
      = Some (ctx ++ drawn)
      /\ Forall (rectIn 50 (50 + INR width) 0 (2 * amp)) drawn
      /\ Forall (heightIn 0 (2 * amp)) drawn.
Proof. exact (drawKneeZone_in_canvas t k r amp width ctx). Qed.

Lemma knee_zone_in_canvas_witness :
  exists n, forall fuel, (n <= fuel)%nat ->
    exists drawn,
      Canvas.drawKneeZone fuel true (Fin (-20)) (Fin 10) (Fin 4) 3 (Fin 300) []
      = Some ([] ++ drawn)
      /\ Forall (rectIn 50 (50 + INR 3) 0 (2 * 300)) drawn
      /\ Forall (heightIn 0 (2 * 300)) drawn.
Proof.
  apply (knee_zone_in_canvas (-20) 10 4 300 3 []); lra.
Defined.

(** ** The start of the gain-reduction line *)

(** X26. The stroked line of the gain-reduction overlay starts at the
    height of the first value, without the clamp that its line ends have:
    for a first value above 24 dB and a height above 0 it starts at
    [gr / 24 * amp], which is beyond the height [amp] where the line ends
    are held. *)
Theorem gain_reduction_line_start_unclamped (gainReduction : Float32Array)
    (g0 : R) (ratio : num) (width : nat) (amp : R) (ctx : list cmd) :
  (ratio >? Fin 1)%num = true -> gainReduction !! 0%nat = Some (Fin g0) ->
  24 < g0 -> 0 < amp ->
  exists drawn,
    Canvas.drawGainReduction true (Some gainReduction) ratio width (Fin amp) ctx
    = ctx ++ drawn
    /\ MoveTo (Fin 50) (Fin (g0 / 24 * amp)) ∈ drawn
    /\ amp < g0 / 24 * amp.
Proof.
  intros Hratio Hfirst Hg Hamp. unfold Canvas.drawGainReduction.
  rewrite Hratio.
  rewrite (for_range_append _
             (fun i =>
                [LineTo (Canvas.SCALE_WIDTH + Fin (INR i))%num
                   (Num.min
                      (get gainReduction i / Canvas.MAX_GAIN_REDUCTION_DB * Fin amp)
                      (Fin amp))%num]) 1 width)
    by (intros i c; reflexivity).
  rewrite (for_range_append _
             (fun i =>
                [LineTo (Canvas.SCALE_WIDTH + Fin (INR i))%num
                   (Num.min
                      (get gainReduction i / Canvas.MAX_GAIN_REDUCTION_DB * Fin amp)
                      (Fin amp))%num]) 0 width)
    by (intros i c; reflexivity).
  rewrite <- !app_assoc. eexists. split; [reflexivity|]. split.
  - do 4 (apply elem_of_app; right). apply elem_of_app. left.
    apply list_elem_of_further.
    unfold get. rewrite Hfirst. unfold Canvas.MAX_GAIN_REDUCTION_DB.
    cbn [default from_option]. unfold Datatypes.id.
    rewrite div_fin by lra. apply list_elem_of_here.
  - unfold Rdiv. nra.
Qed.

Lemma gain_reduction_line_start_unclamped_witness :
  exists drawn,
    Canvas.drawGainReduction true (Some [Fin 60; Fin 12; Fin 0]) (Fin 4) 3
      (Fin 300) [] = [] ++ drawn
    /\ MoveTo (Fin 50) (Fin (60 / 24 * 300)) ∈ drawn
    /\ 300 < 60 / 24 * 300.
Proof.
  apply (gain_reduction_line_start_unclamped [Fin 60; Fin 12; Fin 0] 60 (Fin 4)
           3 300 []).
  - apply bool_decide_eq_true_2. lra.
  - reflexivity.
  - lra.
  - lra.
Defined.

(** ** The layers that the component draws *)

Lemma height_of_point (xmin xmax ymin ymax : R) (c : cmd) :
  pointIn xmin xmax ymin ymax c -> heightIn ymin ymax c.
Proof.
  destruct c; simpl; try exact (fun _ => I);
    intros (a & b & _ & -> & _ & Hb); exists b; auto.
Qed.

Lemma lineEnd_of_lineEnd (xmin xmax ymin ymax : R) (c : cmd) :
  lineEndIn xmin xmax ymin ymax c -> lineEndBetween ymin ymax c.
Proof.
  destruct c; simpl; try exact (fun _ => I).
  intros (a & b & _ & -> & _ & Hb). exists b. auto.
Qed.

Lemma drawKneeZone_heights (show : bool) (t k r amp : R) (width : nat)
    (ctx : list cmd) :
  0 <= amp ->
  exists n, forall fuel, (n <= fuel)%nat ->
    exists drawn,
      Canvas.drawKneeZone fuel show (Fin t) (Fin k) (Fin r) width (Fin amp) ctx
      = Some (ctx ++ drawn)
      /\ Forall (heightIn 0 (2 * amp)) drawn.
Proof.
  intros Hamp.
  assert (Hnone : forall l : list cmd,
            exists n, forall fuel : nat, (n <= fuel)%nat ->
              exists drawn, Some l = Some (l ++ drawn)
                            /\ Forall (heightIn 0 (2 * amp)) drawn).
  { intros l. exists 0%nat. intros fuel _. exists [].
    rewrite app_nil_r. split; [reflexivity|constructor]. }
  destruct show; [|apply Hnone].
  destruct (Rlt_dec t 0) as [Ht|Ht].
  - destruct (Rlt_dec 0 k) as [Hk|Hk].
    + destruct (drawKneeZone_in_canvas t k r amp width ctx Ht Hk Hamp) as [n Hn].
      exists n. intros fuel Hfuel.
      destruct (Hn fuel Hfuel) as (drawn & E & _ & Hh).
      exists drawn. split; [exact E | exact Hh].
    + unfold Canvas.drawKneeZone. cbn [Num.gt andb].
      rewrite (bool_decide_eq_false_2 (0 < k)) by exact Hk.
      rewrite andb_false_r. apply Hnone.
  - unfold Canvas.drawKneeZone. cbn [Num.gt andb].
    rewrite (bool_decide_eq_false_2 (t < 0)) by exact Ht.
    cbn [andb]. apply Hnone.
Qed.

Lemma drawWaveform_heights (show : bool) (audio : option AudioBuffer) (width : nat)
    (amp : R) (ctx : list cmd) :
  0 <= amp ->
  (forall a, audio = Some a -> Forall fullScale (getChannelData a 0)) ->
  exists drawn,
    Canvas.drawWaveform show audio width (Fin amp) ctx = ctx ++ drawn
    /\ Forall (heightIn 0 (2 * amp)) drawn.
Proof.
  intros Hamp Haudio.
  destruct show, audio as [a|];
    try (exists []; rewrite app_nil_r; split; [reflexivity|constructor]).
  destruct (drawWaveform_in_canvas a width amp ctx Hamp (Haudio a eq_refl))
    as (drawn & E & _ & Hin).
  exists drawn. split; [exact E|].
  eapply Forall_impl; [exact Hin|]. apply height_of_point.
Qed.

Lemma drawEnvelope_heights (show : bool) (original : option AudioBuffer)
    (p : ICompressorParams) (width : nat) (amp : R) (ctx : list cmd) :
  0 <= amp -> finiteParams p ->
  (forall b, original = Some b -> finiteBuffer b) ->
  exists drawn,
    Canvas.drawEnvelope show (Waveshape.envelope original p width) original
      (threshold p) (knee p) (ratio p) width (Fin amp) ctx = ctx ++ drawn
    /\ Forall (heightIn 0 (2 * amp)) drawn.
Proof.
  intros Hamp ([t Ht] & [k Hk] & [r Hr] & [a Ha] & [rl Hrl]) Horig.
  destruct show, original as [b|];
    try (exists []; rewrite app_nil_r; split; [reflexivity|constructor]).
  destruct (Horig b eq_refl) as [(rate & Hrate & Hpos) Hfin].
  assert (Hdata : Forall Num.finite (getChannelData b 0)).
  { unfold getChannelData.
    destruct (channelData b !! 0%nat) as [data|] eqn:E; [|constructor].
    exact (Forall_lookup_1 _ _ _ _ Hfin E). }
  unfold Waveshape.envelope. rewrite Ht, Hk, Hr, Ha, Hrl, Hrate.
  destruct (drawEnvelope_in_canvas
              (Waveshape.calculateEnvelope (getChannelData b 0) (Fin rate)
                 (Fin a) (Fin rl) width)
              b t k r width amp ctx Hamp)
    as (drawn & E & _ & Hin & _).
  - rewrite calculateEnvelope_length. lia.
  - apply calculateEnvelope_range; assumption.
  - exists drawn. split; [exact E|].
    eapply Forall_impl; [exact Hin|]. apply height_of_point.
Qed.

(** The gain-reduction overlay: the line ends are held within the upper
    half, and the two start points are at a height of at least 0. *)
Lemma drawGainReduction_heights (gainReduction : Float32Array) (ratio : num)
    (width : nat) (amp : R) (ctx : list cmd) :
  0 <= amp -> (0 < width <= length gainReduction)%nat ->
  Forall (fun v => exists x, v = Fin x /\ 0 <= x) gainReduction ->
  exists drawn,
    Canvas.drawGainReduction true (Some gainReduction) ratio width (Fin amp) ctx
    = ctx ++ drawn
    /\ Forall (lineEndBetween 0 amp) drawn
    /\ Forall (heightFrom 0) drawn.
Proof.
  intros Hamp [Hpos Hlen] Hgr.
  destruct (drawGainReduction_clamped gainReduction ratio width amp ctx Hamp
              Hlen Hgr) as (drawn & E & Hin).
  exists drawn. split; [exact E|]. split.
  { eapply Forall_impl; [exact Hin|]. apply lineEnd_of_lineEnd. }
  revert E. unfold Canvas.drawGainReduction.
  destruct (ratio >? Fin 1)%num.
  - rewrite (for_range_append _
               (fun i =>
                  [LineTo (Canvas.SCALE_WIDTH + Fin (INR i))%num
                     (Num.min
                        (get gainReduction i / Canvas.MAX_GAIN_REDUCTION_DB * Fin amp)
                        (Fin amp))%num]) 1 width)
      by (intros i c; reflexivity).
    rewrite (for_range_append _
               (fun i =>
                  [LineTo (Canvas.SCALE_WIDTH + Fin (INR i))%num
                     (Num.min
                        (get gainReduction i / Canvas.MAX_GAIN_REDUCTION_DB * Fin amp)
                        (Fin amp))%num]) 0 width)
      by (intros i c; reflexivity).
    rewrite <- !app_assoc. intros E. apply app_inv_head in E. subst drawn.
    assert (Hline : forall i, (i < width)%nat ->
              heightFrom 0
                (LineTo (Canvas.SCALE_WIDTH + Fin (INR i))%num
                   (Num.min
                      (get gainReduction i / Canvas.MAX_GAIN_REDUCTION_DB * Fin amp)
                      (Fin amp))%num)).
    { intros i Hi.
      destruct (gr_line_end gainReduction width i amp Hamp Hlen Hi Hgr)
        as (a & b & _ & Eb & _ & Hb).
      simpl. exists b. split; [exact Eb | lra]. }
    destruct (lookup_lt_is_Some_2 gainReduction 0) as [v Hv]; [lia|].
    destruct (Forall_lookup_1 _ _ _ _ Hgr Hv) as (g0 & -> & Hg0).
    repeat (apply Forall_app; split).
    + repeat (apply List.Forall_cons; [|]); try apply List.Forall_nil;
        try exact I. simpl. exists 0. split; [reflexivity|lra].
    + apply Forall_concat_map. intros i Hi.
      apply elem_of_seq in Hi as [_ Hi].
      apply List.Forall_cons; [apply Hline; lia | apply List.Forall_nil].
    + repeat (apply List.Forall_cons; [|]); try apply List.Forall_nil;
        try exact I. simpl. exists 0. split; [reflexivity|lra].
    + repeat (apply List.Forall_cons; [|]); try apply List.Forall_nil; exact I.
    + repeat (apply List.Forall_cons; [|]); try apply List.Forall_nil;
        try exact I.
      unfold get. rewrite Hv. unfold Canvas.MAX_GAIN_REDUCTION_DB.
      cbn [default from_option]. unfold Datatypes.id.
      rewrite div_fin by lra. simpl. eexists. split; [reflexivity|].
      apply Rmult_le_pos; [|exact Hamp]. unfold Rdiv.
      apply Rmult_le_pos; lra.
    + apply Forall_concat_map. intros i Hi.
      apply elem_of_seq in Hi as [_ Hi].
      apply List.Forall_cons; [apply Hline; lia | apply List.Forall_nil].
    + repeat (apply List.Forall_cons; [|]); try apply List.Forall_nil; exact I.
  - intros E. rewrite <- (app_nil_r ctx) in E at 1.
    apply app_inv_head in E. subst drawn. constructor.
Qed.

Lemma drawGainReduction_layer (show : bool) (original : option AudioBuffer)
    (p : ICompressorParams) (width : nat) (amp : R) (ctx : list cmd) :
  0 <= amp -> (0 < width)%nat -> finiteParams p ->
  (Fin 0 <=? knee p)%num = true ->
  (forall b, original = Some b -> finiteBuffer b) ->
  exists drawn,
    Canvas.drawGainReduction show (Waveshape.gainReduction original p width)
      (ratio p) width (Fin amp) ctx = ctx ++ drawn
    /\ Forall (lineEndBetween 0 amp) drawn
    /\ Forall (heightFrom 0) drawn.
Proof.
  intros Hamp Hwidth ([t Ht] & [k Hk] & [r Hr] & [a Ha] & [rl Hrl]) Hknee Horig.
  rewrite Hk in Hknee. apply le_fin_iff in Hknee.
  destruct show, original as [b|];
    try (exists []; rewrite app_nil_r;
         split; [reflexivity | split; constructor]).
  destruct (Horig b eq_refl) as [(rate & Hrate & Hpos) Hfin].
  assert (Hdata : Forall Num.finite (getChannelData b 0)).
  { unfold getChannelData.
    destruct (channelData b !! 0%nat) as [data|] eqn:E; [|constructor].
    exact (Forall_lookup_1 _ _ _ _ Hfin E). }
  unfold Waveshape.gainReduction, Waveshape.envelope.
  rewrite Ht, Hk, Hr, Ha, Hrl, Hrate.
  set (env := Waveshape.calculateEnvelope (getChannelData b 0) (Fin rate)
                (Fin a) (Fin rl) width).
  assert (Henv : Forall Num.finite env).
  { eapply Forall_impl; [apply calculateEnvelope_range; assumption|].
    intros v (x & -> & _). exists x. reflexivity. }
  apply drawGainReduction_heights.
  - exact Hamp.
  - rewrite calculateGainReduction_length. lia.
  - apply calculateGainReduction_range; assumption.
Qed.

Lemma drawThreshold_heights (show : bool) (t amp : R) (width : nat)
    (ctx : list cmd) :
  0 <= amp ->
  exists drawn,
    Canvas.drawThreshold show (Fin t) width (Fin amp) ctx = ctx ++ drawn
    /\ Forall (heightIn 0 (2 * amp)) drawn.
Proof.
  intros Hamp.
  destruct (drawThreshold_in_canvas t amp width ctx Hamp) as [Hbelow Habove].
  destruct show;
    [|exists []; rewrite app_nil_r; split; [reflexivity|constructor]].
  destruct (Rlt_dec t 0) as [Ht|Ht].
  - destruct (Hbelow Ht) as (a & drawn & _ & E & _ & _ & _ & _ & _ & Hin).
    exists drawn. split; [exact E|].
    eapply Forall_impl; [exact Hin|]. apply height_of_point.
  - exists []. rewrite app_nil_r. split; [|constructor].
    apply Habove. lra.
Qed.

(** X27. Whatever the user did before, for an original buffer of real
    samples and an audio buffer within full scale, drawing the layers of
    the component ends, and what is drawn is, in this order, the knee zone,
    the waveform, the envelope, the gain reduction and the threshold.
    Every point of the paths of the knee zone, the waveform, the envelope
    and the threshold (starts and line ends alike) is at a height within
    the canvas, from 0 to 600.  Of the gain reduction every line end is at
    a height from 0 to 300, and the start points of its paths are at a
    height of at least 0: the start of its stroke is the one point that
    can lie below the bottom of the canvas. *)
Theorem view_layer_heights (s : AppState.state) (ctx : list cmd) :
  AppState.reachable s ->
  (forall b, AppState.originalBuffer s = Some b -> finiteBuffer b) ->
  (forall a, AppState.audioBuffer s = Some a ->
     Forall fullScale (getChannelData a 0)) ->
  let p := AppState.params s in
  let amp := (Fin 600 / Fin 2)%num in
  exists n, forall fuel, (n <= fuel)%nat ->
    exists kneeZone waveform envelope gainReduction thresholdLine,
      AppState.view fuel s ctx
      = Some (ctx ++ kneeZone ++ waveform ++ envelope ++ gainReduction
                ++ thresholdLine)
      /\ Canvas.drawKneeZone fuel (AppState.showThresholdKnee s) (threshold p)
           (knee p) (ratio p) 800 amp ctx = Some (ctx ++ kneeZone)
      /\ Canvas.drawWaveform (AppState.showWaveform s) (AppState.audioBuffer s)
           800 amp (ctx ++ kneeZone)
         = (ctx ++ kneeZone) ++ waveform
      /\ Canvas.drawEnvelope (AppState.showEnvelope s)
           (Waveshape.envelope (AppState.originalBuffer s) p 800)
           (AppState.originalBuffer s) (threshold p) (knee p) (ratio p) 800 amp
           ((ctx ++ kneeZone) ++ waveform)
         = ((ctx ++ kneeZone) ++ waveform) ++ envelope
      /\ Canvas.drawGainReduction (AppState.showGainReduction s)
           (Waveshape.gainReduction (AppState.originalBuffer s) p 800)
           (ratio p) 800 amp (((ctx ++ kneeZone) ++ waveform) ++ envelope)
         = (((ctx ++ kneeZone) ++ waveform) ++ envelope) ++ gainReduction
      /\ Canvas.drawThreshold (AppState.showThresholdKnee s) (threshold p) 800
           amp ((((ctx ++ kneeZone) ++ waveform) ++ envelope) ++ gainReduction)
         = ((((ctx ++ kneeZone) ++ waveform) ++ envelope) ++ gainReduction)
             ++ thresholdLine
      /\ Forall (heightIn 0 600) kneeZone
      /\ Forall (heightIn 0 600) waveform
      /\ Forall (heightIn 0 600) envelope
      /\ Forall (heightIn 0 600) thresholdLine
      /\ Forall (lineEndBetween 0 300) gainReduction
      /\ Forall (heightFrom 0) gainReduction.
Proof.
  intros Hs Horig Haudio p amp.
  destruct (handle_invariant s Hs) as (_ & _ & _ & Hrange).
  destruct (inRange_finite _ Hrange) as (Hpar & k & r & Hk & Hr & Hk0 & Hr1).
  assert (Hknee : (Fin 0 <=? knee (AppState.params s))%num = true).
  { rewrite Hk. apply le_fin_true, Hk0. }
  destruct Hrange as (t & k' & r' & a & rl & Ep & _).
  assert (Hamp : 0 <= 600 / 2) by lra.
  assert (Eamp : amp = Fin (600 / 2)) by (unfold amp; apply div_fin; lra).
  unfold AppState.view, Canvas.drawLayers. fold p. fold amp. rewrite Eamp.
  fold p in Hpar, Hknee, Ep.
  assert (Et : threshold p = Fin t) by (rewrite Ep; reflexivity).
  assert (Ek : knee p = Fin k') by (rewrite Ep; reflexivity).
  assert (Er : ratio p = Fin r') by (rewrite Ep; reflexivity).
  destruct (drawKneeZone_heights (AppState.showThresholdKnee s) t k' r' (600 / 2)
              800 ctx Hamp) as [n Hn].
  exists n. intros fuel Hfuel.
  destruct (Hn fuel Hfuel) as (d1 & E1 & H1).
  rewrite <- Et, <- Ek, <- Er in E1.
  destruct (drawWaveform_heights (AppState.showWaveform s)
              (AppState.audioBuffer s) 800 (600 / 2) (ctx ++ d1) Hamp Haudio)
    as (d2 & E2 & H2).
  destruct (drawEnvelope_heights (AppState.showEnvelope s)
              (AppState.originalBuffer s) p 800 (600 / 2) ((ctx ++ d1) ++ d2)
              Hamp Hpar Horig) as (d3 & E3 & H3).
  destruct (drawGainReduction_layer (AppState.showGainReduction s)
              (AppState.originalBuffer s) p 800 (600 / 2)
              (((ctx ++ d1) ++ d2) ++ d3) Hamp ltac:(lia) Hpar Hknee Horig)
    as (d4 & E4 & H4 & H4').
  destruct (drawThreshold_heights (AppState.showThresholdKnee s) t (600 / 2) 800
              ((((ctx ++ d1) ++ d2) ++ d3) ++ d4) Hamp) as (d5 & E5 & H5).
  rewrite <- Et in E5.
  exists d1, d2, d3, d4, d5.
  assert (Hweak : forall d, Forall (heightIn 0 (2 * (600 / 2))) d ->
                            Forall (heightIn 0 600) d).
  { intros d Hd. eapply Forall_impl; [exact Hd|].
    intros c. destruct c; simpl; try exact (fun H => H);
      intros (b & -> & Hb); exists b; (split; [reflexivity|lra]). }
  assert (Hhalf : forall d, Forall (lineEndBetween 0 (600 / 2)) d ->
                            Forall (lineEndBetween 0 300) d).
  { intros d Hd. eapply Forall_impl; [exact Hd|].
    intros c. destruct c; simpl; try exact (fun H => H).
    intros (b & -> & Hb). exists b. split; [reflexivity|lra]. }
  split; [rewrite E1, E2, E3, E4, E5, <- !app_assoc; reflexivity|].
  split; [exact E1|]. split; [exact E2|]. split; [exact E3|].
  split; [exact E4|]. split; [exact E5|].
  split; [apply Hweak, H1|]. split; [apply Hweak, H2|].
  split; [apply Hweak, H3|]. split; [apply Hweak, H5|].
  split; [apply Hhalf, H4 | exact H4'].
Qed.

Lemma view_layer_heights_witness :
  let s :=
    AppState.handle (AppState.LayerToggle AppState.Envelope true)
      (AppState.handle (AppState.KnobMove AppState.Ratio 300 1 120)
         (AppState.handle (AppState.KnobMove AppState.Threshold 300 0 330)
            (AppState.handle (AppState.Decoded twoSamples)
               (AppState.handle AppState.FileChosen AppState.initial)))) in
  AppState.showEnvelope s = true
  /\ AppState.originalBuffer s = Some twoSamples
  /\ exists n, forall fuel, (n <= fuel)%nat ->
       exists kneeZone waveform envelope gainReduction thresholdLine,
         AppState.view fuel s []
         = Some ([] ++ kneeZone ++ waveform ++ envelope ++ gainReduction
                   ++ thresholdLine)
         /\ Forall (heightIn 0 600) kneeZone
         /\ Forall (heightIn 0 600) waveform
         /\ Forall (heightIn 0 600) envelope
         /\ Forall (heightIn 0 600) thresholdLine
         /\ Forall (lineEndBetween 0 300) gainReduction
         /\ Forall (heightFrom 0) gainReduction.
Proof.
  intros s. split; [reflexivity|]. split; [reflexivity|].
  destruct (view_layer_heights s []) as [n Hn].
  - repeat apply AppState.reachable_handle. apply AppState.reachable_initial.
  - intros b [= <-]. finite_buffer.
  - intros a [= <-].
    repeat (apply List.Forall_cons; [eexists; split; [reflexivity|lra]|]).
    apply List.Forall_nil.
  - exists n. intros fuel Hfuel.
    destruct (Hn fuel Hfuel)
      as (d1 & d2 & d3 & d4 & d5 & E & _ & _ & _ & _ & _ & H).
    exists d1, d2, d3, d4, d5. split; [exact E | exact H].
Defined.

(** ** The visualisation and the compressor follow the same envelope *)





(** ** More compression is never louder *)

(** The curve depends on the level and the threshold by their difference. *)
Lemma curve_shift (t k r l : R) : curve t k r l = curve 0 k r (l - t).
Proof.
  unfold curve.
  destruct (decide (t + k / 2 < l)) as [A|A].
  - rewrite decide_True by lra. f_equal. lra.
  - rewrite (decide_False (P := 0 + k / 2 < l - t)) by lra.
    destruct (decide (t - k / 2 < l /\ 0 < k)) as [B|B].
    + rewrite decide_True by lra. f_equal. f_equal. f_equal; lra.
    + rewrite decide_False by lra. reflexivity.
Qed.

(** The reduction does not fall when the ratio rises. *)
Lemma curve_ratio_mono (t k r1 r2 l : R) :
  0 <= k -> 1 <= r1 <= r2 -> curve t k r1 l <= curve t k r2 l.
Proof.
  intros Hk [Hr1 Hr12].
  assert (Hfactor : 1 - 1 / r1 <= 1 - 1 / r2).
  { unfold Rdiv. rewrite !Rmult_1_l.
    assert (/ r2 <= / r1) by (apply Rinv_le_contravar; lra). lra. }
  unfold curve.
  destruct (decide (t + k / 2 < l)) as [A|A].
  - apply Rmult_le_compat_l; lra.
  - destruct (decide (t - k / 2 < l /\ 0 < k)) as [[B Hpos]|B]; [|lra].
    unfold Rdiv at 1 3. apply Rmult_le_compat_r.
    + left. apply Rinv_0_lt_compat. lra.
    + apply Rmult_le_compat_r; [apply Rle_0_sqr | exact Hfactor].
Qed.

(** X29. Turning the threshold down or the ratio up never makes a sample
    louder: for two settings with the same knee, attack and release, of
    which the second has the lower (or the same) threshold and the higher
    (or the same) ratio, no sample of the output for the second setting is
    larger in magnitude than the sample of the output for the first. *)
Theorem more_compression_never_louder (p1 p2 : ICompressorParams)
    (buffer : AudioBuffer) (t1 t2 k r1 r2 : R) (ch i : nat) :
  wellFormed buffer -> finiteBuffer buffer ->
  threshold p1 = Fin t1 -> threshold p2 = Fin t2 ->
  knee p1 = Fin k -> knee p2 = Fin k ->
  ratio p1 = Fin r1 -> ratio p2 = Fin r2 ->
  Num.finite (attack p1) -> Num.finite (release p1) ->
  attack p2 = attack p1 -> release p2 = release p1 ->
  0 <= k -> t2 <= t1 -> 1 <= r1 <= r2 ->
  (ch < numberOfChannels buffer)%nat -> (i < bufLength buffer)%nat ->
  (Num.abs (get (getChannelData (App.applyCustomCompression p2 buffer) ch) i)
   <=? Num.abs (get (getChannelData (App.applyCustomCompression p1 buffer) ch) i))%num
  = true.
Proof.
  intros Hwf Hbuf Ht1 Ht2 Hk1 Hk2 Hr1 Hr2 [a Ha] [rl Hrl] Ea Erl Hk Ht Hr Hch Hi.
  destruct (sample_lookup buffer ch i Hwf Hbuf Hch Hi)
    as (input & x & Hin & Hlen & Hfin & Hx).
  destruct Hbuf as [(rate & Hrate & Hpos) _].
  rewrite (output_sample p1 buffer ch i input Hin Hi).
  rewrite (output_sample p2 buffer ch i input Hin Hi).
  rewrite Ea, Erl, Hrate, Ha, Hrl, !timeCoeff_fin.
  destruct (envFollowerAt_fin (coeff rate a) (coeff rate rl) input (S i) Hfin)
    as [e He]; [lia|].
  rewrite He.
  rewrite (gainLinOf_fin p1 t1 k r1 e Ht1 Hk1 Hr1) by lra.
  rewrite (gainLinOf_fin p2 t2 k r2 e Ht2 Hk2 Hr2) by lra.
  unfold get. rewrite Hx. cbn [default from_option Num.mul Num.abs].
  unfold Datatypes.id. apply le_fin_true.
  assert (Hcurve : curve t1 k r1 (dB e) <= curve t2 k r2 (dB e)).
  { apply Rle_trans with (curve t2 k r1 (dB e)).
    - rewrite (curve_shift t1), (curve_shift t2).
      apply curve_mono; lra.
    - apply curve_ratio_mono; lra. }
  assert (Hg : Rpower 10 (- curve t2 k r2 (dB e) / 20)
               <= Rpower 10 (- curve t1 k r1 (dB e) / 20)).
  { apply Rle_Rpower; lra. }
  assert (Hg2 : 0 < Rpower 10 (- curve t2 k r2 (dB e) / 20))
    by (unfold Rpower; apply exp_pos).
  rewrite !Rabs_mult, !(Rabs_pos_eq (Rpower _ _)) by lra.
  apply Rmult_le_compat_l; [apply Rabs_pos | exact Hg].
Qed.

Lemma more_compression_never_louder_witness :
  (Num.abs
     (get (getChannelData (App.applyCustomCompression (hardKnee 0.003) twoSamples) 0)
        1)
   <=? Num.abs
         (get (getChannelData
                 (App.applyCustomCompression thresholdAtFullScale twoSamples) 0) 1))%num
  = true.
Proof.
  apply (more_compression_never_louder thresholdAtFullScale (hardKnee 0.003)
           twoSamples 0 (-20) 0 4 4).
  - repeat constructor.
  - finite_buffer.
  - reflexivity.
  - reflexivity.
  - reflexivity.
  - reflexivity.
  - reflexivity.
  - reflexivity.
  - eexists. reflexivity.
  - eexists. reflexivity.
  - reflexivity.
  - reflexivity.
  - lra.
  - lra.
  - lra.
  - unfold numberOfChannels. simpl. lia.
  - simpl. lia.
Defined.

(** ** The drag of a knob *)

(** The value of a mouse move in closed form. *)
Lemma handleMouseMove_value (min max step startY startValue clientY : R) :
  min <= max -> 0 < step ->
  Knob.handleMouseMove (Fin min) (Fin max) (Fin step) (Fin startY)
    (Fin startValue) (Fin clientY)
  = Fin (IZR (Zfloor
                (Rmax min
                   (Rmin max
                      (startValue + (startY - clientY) * ((max - min) / 150)))
                 / step + / 2))
         * step).
Proof.
  intros Hle Hstep. unfold Knob.handleMouseMove.
  cbn [Num.sub Num.add Num.neg]. rewrite div_fin by lra. cbn [Num.mul Num.add].
  replace (startValue + (startY + - clientY) * ((max + - min) / 150))
    with (startValue + (startY - clientY) * ((max - min) / 150)) by lra.
  set (v := startValue + (startY - clientY) * ((max - min) / 150)).
  assert (Hclamp : Num.max (Fin min) (Num.min (Fin max) (Fin v))
                   = Fin (Rmax min (Rmin max v))).
  { cbn [Num.min Num.gt].
    destruct (Rlt_dec v max) as [Hv|Hv].
    - rewrite (bool_decide_eq_true_2 (v < max)), (Rmin_right max v) by lra.
      cbn [Num.max Num.gt].
      destruct (Rlt_dec v min) as [Hm|Hm].
      + rewrite (bool_decide_eq_true_2 (v < min)), (Rmax_left min v) by lra.
        reflexivity.
      + rewrite (bool_decide_eq_false_2 (v < min)), (Rmax_right min v) by lra.
        reflexivity.
    - rewrite (bool_decide_eq_false_2 (v < max)), (Rmin_left max v) by lra.
      cbn [Num.max Num.gt].
      destruct (Rlt_dec max min) as [Hm|Hm]; [lra|].
      rewrite (bool_decide_eq_false_2 (max < min)), (Rmax_right min max) by lra.
      reflexivity. }
  rewrite Hclamp, div_fin by lra. reflexivity.
Qed.

(** X30. A drag of a knob whose bounds are whole multiples of its positive
    step: a mouse move at the height where the drag started gives back a
    start value that is a multiple of the step within the bounds; moving
    the mouse up never lowers the value; and from the minimum, 150 pixels
    up reach the maximum. *)
Theorem knob_drag (m M : Z) (min max step startY startValue : R) :
  0 < step -> min = IZR m * step -> max = IZR M * step -> (m <= M)%Z ->
  (forall n : Z,
     startValue = IZR n * step -> min <= startValue <= max ->
     Knob.handleMouseMove (Fin min) (Fin max) (Fin step) (Fin startY)
       (Fin startValue) (Fin startY) = Fin startValue)
  /\ (forall clientY1 clientY2 : R,
        clientY2 <= clientY1 ->
        (Knob.handleMouseMove (Fin min) (Fin max) (Fin step) (Fin startY)
           (Fin startValue) (Fin clientY1)
         <=? Knob.handleMouseMove (Fin min) (Fin max) (Fin step) (Fin startY)
               (Fin startValue) (Fin clientY2))%num = true)
  /\ Knob.handleMouseMove (Fin min) (Fin max) (Fin step) (Fin startY)
       (Fin min) (Fin (startY - 150)) = Fin max.
Proof.
  intros Hstep Hmin Hmax HmM.
  assert (HmM' : IZR m <= IZR M) by (apply IZR_le; exact HmM).
  assert (Hle : min <= max) by (subst min max; nra).
  assert (Hround : forall n : Z,
            IZR (Zfloor (IZR n * step / step + / 2)) * step = IZR n * step).
  { intros n. f_equal.
    replace (IZR n * step / step) with (IZR n) by (field; lra).
    f_equal. apply Zfloor_eq. lra. }
  split; [|split].
  - intros n Hn Hin. rewrite handleMouseMove_value by assumption.
    f_equal.
    replace (startValue + (startY - startY) * ((max - min) / 150))
      with startValue by lra.
    rewrite Rmin_right, Rmax_right by (try rewrite Rmin_right; lra).
    rewrite Hn. apply Hround.
  - intros c1 c2 Hc. rewrite !handleMouseMove_value by assumption.
    apply le_fin_true. apply Rmult_le_compat_r; [lra|].
    apply IZR_le, Zfloor_le. apply Rplus_le_compat_r.
    unfold Rdiv at 1 3. apply Rmult_le_compat_r.
    + left. apply Rinv_0_lt_compat. exact Hstep.
    + apply Rle_max_compat_l. apply Rle_min_compat_l.
      apply Rplus_le_compat_l. apply Rmult_le_compat_r; [|lra].
      unfold Rdiv. apply Rmult_le_pos; lra.
  - rewrite handleMouseMove_value by assumption. f_equal.
    replace (min + (startY - (startY - 150)) * ((max - min) / 150))
      with max by lra.
    rewrite Rmin_left, Rmax_right by (try rewrite Rmin_left; lra).
    rewrite Hmax. apply Hround.
Qed.

Lemma knob_drag_witness :
  Knob.handleMouseMove (Fin 1) (Fin 20) (Fin 0.5) (Fin 300) (Fin 4) (Fin 300)
  = Fin 4
  /\ (Knob.handleMouseMove (Fin 1) (Fin 20) (Fin 0.5) (Fin 300) (Fin 4) (Fin 310)
      <=? Knob.handleMouseMove (Fin 1) (Fin 20) (Fin 0.5) (Fin 300) (Fin 4)
            (Fin 120))%num = true
  /\ Knob.handleMouseMove (Fin 1) (Fin 20) (Fin 0.5) (Fin 300) (Fin 1)
       (Fin (300 - 150)) = Fin 20.
Proof.
  destruct (knob_drag 2 40 1 20 0.5 300 4) as (Hsame & Hmono & _);
    [lra | lra | lra | lia |].
  destruct (knob_drag 2 40 1 20 0.5 300 1) as (_ & _ & Hfull);
    [lra | lra | lra | lia |].
  split; [|split].
  - apply (Hsame 8%Z); lra.
  - apply Hmono. lra.
  - exact Hfull.
Defined.
